(** * REPLITE-AGENT: control plane of the task-execution agent

    A shallow embedding of the server side of the repository:
    - [shared/schema.ts]   the rows of the tables and the stream events,
    - [server/websocket.ts] the [StreamingService] (per-session fan-out),
    - [server/storage.ts]  the [DatabaseStorage] queries,
    - [server/routes.ts]   the HTTP handlers registered by [registerRoutes],
    - [client/src/pages/Home.tsx] the wiring of the operator's buttons.

    Conventions.  A table is a finite map from the primary key to the row.
    A [SELECT] without [ORDER BY] enumerates the table in the order of the
    map, which is unrelated to insertion.  JavaScript objects that are
    compared by identity (the [ws] sockets) live in a heap and are named by
    their address.  What [new Date()] and [gen_random_uuid()] return is
    supplied by the caller.  Code that may throw runs in a state monad with
    exceptions; what was written before the exception stays written. *)

From Stdlib Require Import ZArith Ascii String List Lia.
From stdpp Require Import base option list gmap strings sorting fin_maps.

Open Scope string_scope.
Open Scope list_scope.
Open Scope Z_scope.

(** The one-character string that holds a double quote. *)
Definition dquote : string := String "034"%char EmptyString.

(** ** Exceptions and state *)

Inductive Outcome (A : Type) : Type :=
| Ok (a : A)
| Throw (e : string).
Arguments Ok {A} a.
Arguments Throw {A} e.

Definition ST (S A : Type) : Type := S -> Outcome A * S.

Definition ret {S A} (a : A) : ST S A := fun s => (Ok a, s).

Definition bind {S A B} (m : ST S A) (k : A -> ST S B) : ST S B :=
  fun s => match m s with
           | (Ok a, s') => k a s'
           | (Throw e, s') => (Throw e, s')
           end.

Definition throw {S A} (e : string) : ST S A := fun s => (Throw e, s).

Definition gets {S A} (f : S -> A) : ST S A := fun s => (Ok (f s), s).

Definition modify {S} (f : S -> S) : ST S unit := fun s => (Ok tt, f s).

(** [try { m } catch (error) { h error }] *)
Definition try_catch {S A} (m : ST S A) (h : string -> ST S A) : ST S A :=
  fun s => match m s with
           | (Ok a, s') => (Ok a, s')
           | (Throw e, s') => h e s'
           end.

Declare Scope st_scope.
Delimit Scope st_scope with st.
Notation "'let*' x ':=' m 'in' k" := (bind m (fun x => k))
  (at level 10, x pattern, m at level 100, k at level 200) : st_scope.
Notation "m ';;' k" := (bind m (fun _ => k))
  (at level 100, k at level 200, right associativity) : st_scope.

(** [for (const x of l) { f x }] *)
Fixpoint for_of {S A} (l : list A) (f : A -> ST S unit) : ST S unit :=
  match l with
  | [] => ret tt
  | x :: l' => bind (f x) (fun _ => for_of l' f)
  end.

(** ** shared/schema.ts *)

(** [actionStepSchema.action]: the closed enumeration of plan actions. *)
Inductive Action : Type :=
| check_tool | install_tool | call_tool | read_file | write_file | delete_file
| git_clone | git_commit | git_push | git_create_branch | git_create_pr
| save_artifact | get_artifact | shell_exec | python_exec | docker_run
| wait_approval.

(** The string a plan step carries at run time in its [action] field. *)
Definition action_name (a : Action) : string :=
  match a with
  | check_tool => "check_tool" | install_tool => "install_tool"
  | call_tool => "call_tool" | read_file => "read_file"
  | write_file => "write_file" | delete_file => "delete_file"
  | git_clone => "git_clone" | git_commit => "git_commit"
  | git_push => "git_push" | git_create_branch => "git_create_branch"
  | git_create_pr => "git_create_pr" | save_artifact => "save_artifact"
  | get_artifact => "get_artifact" | shell_exec => "shell_exec"
  | python_exec => "python_exec" | docker_run => "docker_run"
  | wait_approval => "wait_approval"
  end.

Module ActionStep.
Record t : Type := mk {
  action : Action;
  target : option string;
  args : option (list (string * string));
  description : option string }.
End ActionStep.

(** Row of [sessions]. *)
Module Session.
Record t : Type := mk {
  id : string;
  userId : option string;
  name : string;
  status : string;
  dryRunMode : bool;
  allowDestructive : bool;
  workspaceDir : option string;
  createdAt : Z;
  updatedAt : Z }.
End Session.

(** [InsertSession]: a column with a default may be left out ([None]). *)
Module InsertSession.
Record t : Type := mk {
  userId : option string;
  name : string;
  status : option string;
  dryRunMode : option bool;
  allowDestructive : option bool;
  workspaceDir : option string }.
End InsertSession.

(** [Partial<InsertSession>]: every key may be absent ([None]); a nullable
    column may be set to [null] ([Some None]). *)
Module SessionUpdates.
Record t : Type := mk {
  userId : option (option string);
  name : option string;
  status : option string;
  dryRunMode : option bool;
  allowDestructive : option bool;
  workspaceDir : option (option string) }.
Definition empty : t := mk None None None None None None.
End SessionUpdates.

(** Row of [tasks].  [plan], [currentStep], [totalSteps], [error] and
    [retryCount] are nullable columns; [status] is free text. *)
Module Task.
Record t : Type := mk {
  id : string;
  sessionId : string;
  title : string;
  description : option string;
  status : string;
  plan : option (list ActionStep.t);
  currentStep : option Z;
  totalSteps : option Z;
  error : option string;
  retryCount : option Z;
  createdAt : Z;
  updatedAt : Z }.
End Task.

Module InsertTask.
Record t : Type := mk {
  sessionId : string;
  title : string;
  description : option string;
  status : option string;
  plan : option (list ActionStep.t);
  currentStep : option (option Z);
  totalSteps : option (option Z);
  error : option string;
  retryCount : option (option Z) }.
End InsertTask.

Module TaskUpdates.
Record t : Type := mk {
  sessionId : option string;
  title : option string;
  description : option (option string);
  status : option string;
  plan : option (option (list ActionStep.t));
  currentStep : option (option Z);
  totalSteps : option (option Z);
  error : option (option string);
  retryCount : option (option Z) }.
Definition empty : t := mk None None None None None None None None None.
End TaskUpdates.

(** Row of [messages]. *)
Module Message.
Record t : Type := mk {
  id : string;
  sessionId : string;
  role : string;
  content : string;
  createdAt : Z }.
End Message.

Module InsertMessage.
Record t : Type := mk {
  sessionId : string;
  role : string;
  content : string }.
End InsertMessage.

(** Row of [approvals]; [details] is an opaque JSON value, kept as text. *)
Module Approval.
Record t : Type := mk {
  id : string;
  sessionId : string;
  taskId : option string;
  action : string;
  details : option string;
  status : string;
  createdAt : Z;
  resolvedAt : option Z }.
End Approval.

Module InsertApproval.
Record t : Type := mk {
  sessionId : string;
  taskId : option string;
  action : string;
  details : option string;
  status : option string }.
End InsertApproval.

(** The second argument of [resolveApproval]. *)
Inductive Resolution : Type := approved | rejected.

Definition resolution_name (r : Resolution) : string :=
  match r with approved => "approved" | rejected => "rejected" end.

Inductive StreamEventType : Type :=
| session_start | session_end | task_start | task_step | task_complete
| task_error | log_line | stdout | stderr | approval_required
| approval_resolved.

(** The shapes of [StreamEvent.data] that the service builds. *)
Inductive EventData : Type :=
| DataMessage (message : string)
| DataPong
| DataLog (message level : string)
| DataTitle (title : string)
| DataStep (stepIndex totalSteps : Z) (action : string)
| DataSuccess (success : bool)
| DataError (error : string)
| DataApproval (approval : Approval.t)
| DataResolved (approvalId status : string).

Module StreamEvent.
Record t : Type := mk {
  type : StreamEventType;
  sessionId : string;
  taskId : option string;
  timestamp : Z;
  data : EventData }.
End StreamEvent.

(** ** server/websocket.ts *)

(** [WebSocket.readyState] of the [ws] package. *)
Inductive ReadyState : Type := CONNECTING | OPEN | CLOSING | CLOSED.

Global Instance ReadyState_eq_dec : EqDecision ReadyState.
Proof. solve_decision. Defined.

(** [interface WebSocketClient]; [ws] is the address of the socket object. *)
Module WebSocketClient.
Record t : Type := mk {
  ws : nat;
  sessionId : string;
  userId : option string }.
End WebSocketClient.

(** A frame written to a socket: the JSON text of a stream event.
    [JSON.stringify] is injective on the events built here, so the frame is
    represented by the event it serialises. *)
Definition Frame : Type := StreamEvent.t.
Definition JSON_stringify (event : StreamEvent.t) : Frame := event.

(** A socket object of the [ws] package: its state, the frames handed to it
    for this peer, and the variables captured by the listeners that the
    connection handler registers on it ([sessionId] and [client]). *)
Module WebSocket.
Record t : Type := mk {
  readyState : ReadyState;
  sent : list Frame;
  listeners : option (string * WebSocketClient.t) }.
End WebSocket.

(** [class StreamingService]: [clients] is the [Map] from session id to the
    array of its clients; [sockets] is the heap of socket objects and
    [nextSocket] the next free address. *)
Module StreamingService.
Record t : Type := mk {
  clients : gmap string (list WebSocketClient.t);
  sockets : gmap nat WebSocket.t;
  nextSocket : nat }.
Definition empty : t := mk ∅ ∅ 0%nat.
End StreamingService.

(** What a client may write on its socket, after [JSON.parse]. *)
Inductive ClientData : Type :=
| subscribe_task
| ping
| other_data.

Section Streaming.
Import StreamingService.
Local Open Scope st_scope.

Definition set_sockets (f : gmap nat WebSocket.t -> gmap nat WebSocket.t)
  (s : StreamingService.t) : StreamingService.t :=
  mk (clients s) (f (sockets s)) (nextSocket s).

Definition set_clients
  (f : gmap string (list WebSocketClient.t) -> gmap string (list WebSocketClient.t))
  (s : StreamingService.t) : StreamingService.t :=
  mk (f (clients s)) (sockets s) (nextSocket s).

(** Reading a field of a socket; an address that is not allocated is a
    [TypeError]. *)
Definition ws_get (r : nat) : ST StreamingService.t WebSocket.t :=
  fun s => match sockets s !! r with
           | Some w => (Ok w, s)
           | None => (Throw "TypeError: socket is undefined", s)
           end.

(** [ws.send(data)] of the [ws] package, called without a callback: it
    throws while the socket is connecting, hands the frame over when the
    socket is open and drops it once the socket is closing or closed. *)
Definition ws_send (r : nat) (data : Frame) : ST StreamingService.t unit :=
  let* w := ws_get r in
  match WebSocket.readyState w with
  | CONNECTING => throw "WebSocket is not open: readyState 0 (CONNECTING)"
  | OPEN =>
      modify (set_sockets (insert r
        (WebSocket.mk OPEN (WebSocket.sent w ++ [data]) (WebSocket.listeners w))))
  | CLOSING | CLOSED => ret tt
  end.

(** The socket [w] moved to state [st]. *)
Definition with_state (st : ReadyState) (w : WebSocket.t) : WebSocket.t :=
  WebSocket.mk st (WebSocket.sent w) (WebSocket.listeners w).

(** [private addClient(sessionId, client)] *)
Definition addClient (sessionId : string) (client : WebSocketClient.t)
  : ST StreamingService.t unit :=
  let* cs := gets (fun s => default [] (clients s !! sessionId)) in
  modify (set_clients (insert sessionId (cs ++ [client]))).

(** [private removeClient(sessionId, client)] *)
Definition removeClient (sessionId : string) (client : WebSocketClient.t)
  : ST StreamingService.t unit :=
  let* cs := gets (fun s => default [] (clients s !! sessionId)) in
  let filtered :=
    filter (fun c => WebSocketClient.ws c <> WebSocketClient.ws client) cs in
  if decide (0 < length filtered)%nat
  then modify (set_clients (insert sessionId filtered))
  else modify (set_clients (delete sessionId)).

(** [private sendToClient(client, event)] *)
Definition sendToClient (client : WebSocketClient.t) (event : StreamEvent.t)
  : ST StreamingService.t unit :=
  let* w := ws_get (WebSocketClient.ws client) in
  if decide (WebSocket.readyState w = OPEN)
  then ws_send (WebSocketClient.ws client) (JSON_stringify event)
  else ret tt.

(** [private handleClientMessage(client, data)] *)
Definition handleClientMessage (now : Z) (client : WebSocketClient.t)
  (data : ClientData) : ST StreamingService.t unit :=
  match data with
  | subscribe_task => ret tt
  | ping =>
      sendToClient client
        (StreamEvent.mk session_start (WebSocketClient.sessionId client) None
           now DataPong)
  | other_data => ret tt
  end.

(** [broadcast(sessionId, event)] *)
Definition broadcast (sessionId : string) (event : StreamEvent.t)
  : ST StreamingService.t unit :=
  let* cs := gets (fun s => default [] (clients s !! sessionId)) in
  let message := JSON_stringify event in
  for_of cs (fun client =>
    let* w := ws_get (WebSocketClient.ws client) in
    if decide (WebSocket.readyState w = OPEN)
    then ws_send (WebSocketClient.ws client) message
    else ret tt).

(** [taskId || undefined] *)
Definition or_undefined (taskId : option string) : option string :=
  match taskId with
  | Some EmptyString => None
  | Some t => Some t
  | None => None
  end.

Definition sendLogLine (now : Z) (sessionId : string) (taskId : option string)
  (message level : string) : ST StreamingService.t unit :=
  broadcast sessionId
    (StreamEvent.mk log_line sessionId (or_undefined taskId) now
       (DataLog message level)).

Definition sendStdout (now : Z) (sessionId taskId output : string)
  : ST StreamingService.t unit :=
  broadcast sessionId
    (StreamEvent.mk stdout sessionId (Some taskId) now (DataMessage output)).

Definition sendStderr (now : Z) (sessionId taskId output : string)
  : ST StreamingService.t unit :=
  broadcast sessionId
    (StreamEvent.mk stderr sessionId (Some taskId) now (DataMessage output)).

Definition sendTaskStart (now : Z) (sessionId taskId taskTitle : string)
  : ST StreamingService.t unit :=
  broadcast sessionId
    (StreamEvent.mk task_start sessionId (Some taskId) now (DataTitle taskTitle)).

Definition sendTaskStep (now : Z) (sessionId taskId : string)
  (stepIndex totalSteps : Z) (action : string) : ST StreamingService.t unit :=
  broadcast sessionId
    (StreamEvent.mk task_step sessionId (Some taskId) now
       (DataStep stepIndex totalSteps action)).

Definition sendTaskComplete (now : Z) (sessionId taskId : string)
  (success : bool) : ST StreamingService.t unit :=
  broadcast sessionId
    (StreamEvent.mk task_complete sessionId (Some taskId) now
       (DataSuccess success)).

Definition sendTaskError (now : Z) (sessionId taskId error : string)
  : ST StreamingService.t unit :=
  broadcast sessionId
    (StreamEvent.mk task_error sessionId (Some taskId) now (DataError error)).

Definition sendApprovalRequired (now : Z) (sessionId taskId : string)
  (approval : Approval.t) : ST StreamingService.t unit :=
  broadcast sessionId
    (StreamEvent.mk approval_required sessionId (Some taskId) now
       (DataApproval approval)).

Definition sendApprovalResolved (now : Z) (sessionId approvalId status : string)
  : ST StreamingService.t unit :=
  broadcast sessionId
    (StreamEvent.mk approval_resolved sessionId None now
       (DataResolved approvalId status)).

(** [getClientCount(sessionId)] *)
Definition getClientCount (sessionId : string) (s : StreamingService.t) : nat :=
  length (default [] (clients s !! sessionId)).

(** The [WebSocketServer] accepts an upgrade: a new open socket object. *)
Definition wss_accept : ST StreamingService.t nat :=
  fun s =>
    let r := nextSocket s in
    (Ok r, mk (clients s) (<[r := WebSocket.mk OPEN [] None]> (sockets s)) (S r)).

(** [url.searchParams.get("sessionId") || "default"] *)
Definition sessionId_of_url (q : option string) : string :=
  match q with
  | Some EmptyString => "default"
  | Some sid => sid
  | None => "default"
  end.

(** The body of [wss.on("connection", (ws, req) => ...)]: [q_session] and
    [q_user] are the query parameters of the request URL. *)
Definition on_connection (now : Z) (ws : nat) (q_session q_user : option string)
  : ST StreamingService.t unit :=
  let sessionId := sessionId_of_url q_session in
  let userId := or_undefined q_user in
  let client := WebSocketClient.mk ws sessionId userId in
  addClient sessionId client ;;
  (let* w := ws_get ws in
   modify (set_sockets (insert ws
     (WebSocket.mk (WebSocket.readyState w) (WebSocket.sent w)
        (Some (sessionId, client)))))) ;;
  sendToClient client
    (StreamEvent.mk session_start sessionId None now
       (DataMessage "Connected to streaming service")).

(** [ws.on("message", ...)]: [None] is a text that [JSON.parse] rejects;
    whatever is thrown inside is caught and logged. *)
Definition on_message (now : Z) (ws : nat) (message : option ClientData)
  : ST StreamingService.t unit :=
  let* w := ws_get ws in
  match WebSocket.listeners w with
  | None => ret tt
  | Some (_, client) =>
      try_catch
        (match message with
         | None => throw "SyntaxError: JSON.parse"
         | Some data => handleClientMessage now client data
         end)
        (fun _ => ret tt)
  end.

(** [ws.on("close", ...)]; the package sets the socket to [CLOSED] before
    it emits the event. *)
Definition on_close (ws : nat) : ST StreamingService.t unit :=
  let* w := ws_get ws in
  modify (set_sockets (insert ws (with_state CLOSED w))) ;;
  match WebSocket.listeners w with
  | None => ret tt
  | Some (sessionId, client) => removeClient sessionId client
  end.

(** [ws.on("error", ...)] *)
Definition on_error (ws : nat) : ST StreamingService.t unit :=
  let* w := ws_get ws in
  match WebSocket.listeners w with
  | None => ret tt
  | Some (sessionId, client) => removeClient sessionId client
  end.

(** The network moves a socket to another state (the peer starts the
    closing handshake, the connection breaks). *)
Definition ws_set_state (ws : nat) (st : ReadyState) : ST StreamingService.t unit :=
  let* w := ws_get ws in
  modify (set_sockets (insert ws (with_state st w))).

End Streaming.

(** ** server/storage.ts *)

(** The database: one finite map per table, from primary key to row. *)
Module Db.
Record t : Type := mk {
  sessions : gmap string Session.t;
  tasks : gmap string Task.t;
  messages : gmap string Message.t;
  approvals : gmap string Approval.t }.
Definition empty : t := mk ∅ ∅ ∅ ∅.
End Db.

Section Storage.
Import Db.
Local Open Scope st_scope.

(** The rows of a table, in the order in which a scan returns them.  SQL
    leaves that order to the engine; here a scan follows the primary key. *)
Definition rows {A} (m : gmap string A) : list A := (map_to_list m).*2.

Definition set_sessions (f : gmap string Session.t -> gmap string Session.t)
  (d : Db.t) : Db.t :=
  mk (f (sessions d)) (tasks d) (messages d) (approvals d).

Definition set_tasks (f : gmap string Task.t -> gmap string Task.t)
  (d : Db.t) : Db.t :=
  mk (sessions d) (f (tasks d)) (messages d) (approvals d).

Definition set_messages (f : gmap string Message.t -> gmap string Message.t)
  (d : Db.t) : Db.t :=
  mk (sessions d) (tasks d) (f (messages d)) (approvals d).

Definition set_approvals (f : gmap string Approval.t -> gmap string Approval.t)
  (d : Db.t) : Db.t :=
  mk (sessions d) (tasks d) (messages d) (f (approvals d)).

(** [.set({ ...updates, updatedAt: new Date() })] on a row of [sessions] *)
Definition apply_session_updates (now : Z) (u : SessionUpdates.t)
  (s : Session.t) : Session.t :=
  Session.mk (Session.id s)
    (default (Session.userId s) (SessionUpdates.userId u))
    (default (Session.name s) (SessionUpdates.name u))
    (default (Session.status s) (SessionUpdates.status u))
    (default (Session.dryRunMode s) (SessionUpdates.dryRunMode u))
    (default (Session.allowDestructive s) (SessionUpdates.allowDestructive u))
    (default (Session.workspaceDir s) (SessionUpdates.workspaceDir u))
    (Session.createdAt s)
    now.

(** [.set({ ...updates, updatedAt: new Date() })] on a row of [tasks] *)
Definition apply_task_updates (now : Z) (u : TaskUpdates.t) (t : Task.t)
  : Task.t :=
  Task.mk (Task.id t)
    (default (Task.sessionId t) (TaskUpdates.sessionId u))
    (default (Task.title t) (TaskUpdates.title u))
    (default (Task.description t) (TaskUpdates.description u))
    (default (Task.status t) (TaskUpdates.status u))
    (default (Task.plan t) (TaskUpdates.plan u))
    (default (Task.currentStep t) (TaskUpdates.currentStep u))
    (default (Task.totalSteps t) (TaskUpdates.totalSteps u))
    (default (Task.error t) (TaskUpdates.error u))
    (default (Task.retryCount t) (TaskUpdates.retryCount u))
    (Task.createdAt t)
    now.

(** *** Sessions *)

Definition getSession (id : string) : ST Db.t (option Session.t) :=
  gets (fun d => sessions d !! id).

(** [id] is the value that [gen_random_uuid()] draws, [now] the clock. *)
Definition createSession (now : Z) (id : string) (ins : InsertSession.t)
  : ST Db.t Session.t :=
  let* old := gets (fun d => sessions d !! id) in
  match old with
  | Some _ => throw "duplicate key value violates unique constraint"
  | None =>
      let session :=
        Session.mk id (InsertSession.userId ins) (InsertSession.name ins)
          (default "idle" (InsertSession.status ins))
          (default true (InsertSession.dryRunMode ins))
          (default false (InsertSession.allowDestructive ins))
          (InsertSession.workspaceDir ins) now now in
      modify (set_sessions (insert id session)) ;;
      ret session
  end.

Definition updateSession (now : Z) (id : string) (updates : SessionUpdates.t)
  : ST Db.t (option Session.t) :=
  modify (set_sessions (alter (apply_session_updates now updates) id)) ;;
  gets (fun d => sessions d !! id).

(** *** Tasks *)

Definition getTask (id : string) : ST Db.t (option Task.t) :=
  gets (fun d => tasks d !! id).

(** [orderBy(desc(tasks.createdAt))] *)
Definition newer_first (a b : Task.t) : Prop :=
  Task.createdAt b <= Task.createdAt a.

Global Instance newer_first_dec a b : Decision (newer_first a b).
Proof. unfold newer_first. apply _. Defined.

Definition getTasksBySession (sessionId : string) : ST Db.t (list Task.t) :=
  gets (fun d =>
    merge_sort newer_first
      (filter (fun t => Task.sessionId t = sessionId) (rows (tasks d)))).

Definition createTask (now : Z) (id : string) (ins : InsertTask.t)
  : ST Db.t Task.t :=
  let* old := gets (fun d => tasks d !! id) in
  let* owner := gets (fun d => sessions d !! InsertTask.sessionId ins) in
  match old, owner with
  | Some _, _ => throw "duplicate key value violates unique constraint"
  | None, None => throw "insert violates foreign key constraint"
  | None, Some _ =>
      let task :=
        Task.mk id (InsertTask.sessionId ins) (InsertTask.title ins)
          (InsertTask.description ins)
          (default "pending" (InsertTask.status ins))
          (InsertTask.plan ins)
          (default (Some 0) (InsertTask.currentStep ins))
          (default (Some 0) (InsertTask.totalSteps ins))
          (InsertTask.error ins)
          (default (Some 0) (InsertTask.retryCount ins))
          now now in
      modify (set_tasks (insert id task)) ;;
      ret task
  end.

Definition updateTask (now : Z) (id : string) (updates : TaskUpdates.t)
  : ST Db.t (option Task.t) :=
  let* owner := gets (fun d =>
    match TaskUpdates.sessionId updates with
    | Some sid => bool_decide (is_Some (sessions d !! sid))
    | None => true
    end) in
  let* hit := gets (fun d => bool_decide (is_Some (tasks d !! id))) in
  if hit && negb owner
  then throw "update violates foreign key constraint"
  else
    modify (set_tasks (alter (apply_task_updates now updates) id)) ;;
    gets (fun d => tasks d !! id).

(** *** Messages *)

Definition older_first (a b : Message.t) : Prop :=
  Message.createdAt a <= Message.createdAt b.

Global Instance older_first_dec a b : Decision (older_first a b).
Proof. unfold older_first. apply _. Defined.

Definition getMessagesBySession (sessionId : string)
  : ST Db.t (list Message.t) :=
  gets (fun d =>
    merge_sort older_first
      (filter (fun m => Message.sessionId m = sessionId) (rows (messages d)))).

Definition createMessage (now : Z) (id : string) (ins : InsertMessage.t)
  : ST Db.t Message.t :=
  let* old := gets (fun d => messages d !! id) in
  let* owner := gets (fun d => sessions d !! InsertMessage.sessionId ins) in
  match old, owner with
  | Some _, _ => throw "duplicate key value violates unique constraint"
  | None, None => throw "insert violates foreign key constraint"
  | None, Some _ =>
      let message :=
        Message.mk id (InsertMessage.sessionId ins) (InsertMessage.role ins)
          (InsertMessage.content ins) now in
      modify (set_messages (insert id message)) ;;
      ret message
  end.

(** *** Approvals *)

Definition getApproval (id : string) : ST Db.t (option Approval.t) :=
  gets (fun d => approvals d !! id).

(** The query has a [where] clause and no [orderBy]: the rows come in the
    order of the scan. *)
Definition getPendingApprovals (sessionId : string)
  : ST Db.t (list Approval.t) :=
  gets (fun d =>
    filter (fun a => Approval.sessionId a = sessionId
                     /\ Approval.status a = "pending")
      (rows (approvals d))).

Definition createApproval (now : Z) (id : string) (ins : InsertApproval.t)
  : ST Db.t Approval.t :=
  let* old := gets (fun d => approvals d !! id) in
  let* owner := gets (fun d => sessions d !! InsertApproval.sessionId ins) in
  let* task := gets (fun d =>
    match InsertApproval.taskId ins with
    | Some tid => bool_decide (is_Some (tasks d !! tid))
    | None => true
    end) in
  match old, owner, task with
  | Some _, _, _ => throw "duplicate key value violates unique constraint"
  | None, Some _, true =>
      let approval :=
        Approval.mk id (InsertApproval.sessionId ins)
          (InsertApproval.taskId ins) (InsertApproval.action ins)
          (InsertApproval.details ins)
          (default "pending" (InsertApproval.status ins))
          now None in
      modify (set_approvals (insert id approval)) ;;
      ret approval
  | None, _, _ => throw "insert violates foreign key constraint"
  end.

(** [.set({ status, resolvedAt: new Date() })] on a row of [approvals] *)
Definition resolved (now : Z) (status : Resolution) (a : Approval.t)
  : Approval.t :=
  Approval.mk (Approval.id a) (Approval.sessionId a) (Approval.taskId a)
    (Approval.action a) (Approval.details a) (resolution_name status)
    (Approval.createdAt a) (Some now).

(** [.update(approvals).set(...).where(eq(approvals.id, id)).returning()] *)
Definition resolveApproval (now : Z) (id : string) (status : Resolution)
  : ST Db.t (option Approval.t) :=
  modify (set_approvals (alter (resolved now status) id)) ;;
  gets (fun d => approvals d !! id).

End Storage.

(** ** server/routes.ts *)

(** The state of the server process: the database, the streaming service
    and the module variable [defaultSessionId]. *)
Module World.
Record t : Type := mk {
  db : Db.t;
  streamingService : StreamingService.t;
  defaultSessionId : option string }.
Definition empty : t := mk Db.empty StreamingService.empty None.
End World.

(** What the environment supplies while one request is served: the clock,
    the identifiers drawn by the database (the [n]-th insert of the request
    draws [uuid n]) and [process.cwd()]. *)
Module Env.
Record t : Type := mk {
  now : Z;
  uuid : nat -> string;
  cwd : string }.
End Env.

(** The views that the handlers take of the JSON body of a request. *)
Module ReqBody.
Record t : Type := mk {
  content : option string;
  approved : bool;
  dontAskAgain : bool;
  insertSession : option InsertSession.t;
  sessionUpdates : SessionUpdates.t;
  repository : option (option string) }.
Definition empty : t :=
  mk None false false None SessionUpdates.empty None.
End ReqBody.

Inductive ResBody : Type :=
| JsonSession (session : Session.t)
| JsonTask (task : option Task.t)
| JsonTasks (tasks : list Task.t)
| JsonMessages (messages : list Message.t)
| JsonApproval (approval : Approval.t)
| JsonApprovals (approvals : list Approval.t)
| JsonError (error : string)
| JsonStopped (message : string) (session : Session.t)
| JsonSent (userMessage agentMessage : Message.t) (task : Task.t)
| JsonRepository (fullName : string)
| JsonNone.

Module Response.
Record t : Type := mk {
  status : Z;
  body : ResBody }.
End Response.

Section Routes.
Import World.
Local Open Scope st_scope.

Definition on_db {A} (m : ST Db.t A) : ST World.t A :=
  fun w =>
    let '(r, d) := m (db w) in
    (r, mk d (streamingService w) (defaultSessionId w)).

Definition on_streamingService {A} (m : ST StreamingService.t A)
  : ST World.t A :=
  fun w =>
    let '(r, s) := m (streamingService w) in
    (r, mk (db w) s (defaultSessionId w)).

(** [try { ... } catch (error) { res.status(500).json({ error: error.message }) }] *)
Definition handler (m : ST World.t Response.t) : ST World.t Response.t :=
  try_catch m (fun e => ret (Response.mk 500 (JsonError e))).

(** [getOrCreateDefaultSession()] *)
Definition getOrCreateDefaultSession (env : Env.t) : ST World.t Session.t :=
  let* known := gets defaultSessionId in
  let* found :=
    match known with
    | Some EmptyString | None => ret None
    | Some id => on_db (getSession id)
    end in
  match found with
  | Some session => ret session
  | None =>
      let* session := on_db (createSession (Env.now env) (Env.uuid env 0%nat)
        (InsertSession.mk None "Development Session" (Some "idle") (Some true)
           (Some false) (Some (Env.cwd env)))) in
      modify (fun w => mk (db w) (streamingService w) (Some (Session.id session))) ;;
      ret session
  end.

(** [GET /api/sessions/current] *)
Definition get_current_session (env : Env.t) : ST World.t Response.t :=
  handler (
    let* session := getOrCreateDefaultSession env in
    ret (Response.mk 200 (JsonSession session))).

(** [GET /api/sessions/:id] *)
Definition get_session (id : string) : ST World.t Response.t :=
  handler (
    let* session := on_db (getSession id) in
    match session with
    | None => ret (Response.mk 404 (JsonError "Session not found"))
    | Some session => ret (Response.mk 200 (JsonSession session))
    end).

(** [POST /api/sessions]; a body that the schema rejects is [None]. *)
Definition post_session (env : Env.t) (body : ReqBody.t)
  : ST World.t Response.t :=
  handler (
    match ReqBody.insertSession body with
    | None => ret (Response.mk 400 (JsonError "ZodError"))
    | Some data =>
        let* session :=
          on_db (createSession (Env.now env) (Env.uuid env 0%nat) data) in
        ret (Response.mk 201 (JsonSession session))
    end).

(** [PATCH /api/sessions/:id] *)
Definition patch_session (env : Env.t) (id : string) (body : ReqBody.t)
  : ST World.t Response.t :=
  handler (
    let* session :=
      on_db (updateSession (Env.now env) id (ReqBody.sessionUpdates body)) in
    match session with
    | None => ret (Response.mk 404 (JsonError "Session not found"))
    | Some session => ret (Response.mk 200 (JsonSession session))
    end).

Definition status_update (status : string) : TaskUpdates.t :=
  TaskUpdates.mk None None None (Some status) None None None None None.

Definition currentStep_update (step : Z) : TaskUpdates.t :=
  TaskUpdates.mk None None None None None (Some (Some step)) None None None.

(** [{ status: "running", currentStep: 0 }] *)
Definition running_update : TaskUpdates.t :=
  TaskUpdates.mk None None None (Some "running") None (Some (Some 0))
    None None None.

(** [POST /api/sessions/:id/stop] *)
Definition post_session_stop (env : Env.t) (id : string)
  : ST World.t Response.t :=
  handler (
    let* session := on_db (updateSession (Env.now env) id
      (SessionUpdates.mk None None (Some "idle") None None None)) in
    match session with
    | None => ret (Response.mk 404 (JsonError "Session not found"))
    | Some session =>
        let* tasks := on_db (getTasksBySession id) in
        for_of tasks (fun task =>
          if decide (Task.status task = "running")
          then
            on_db (updateTask (Env.now env) (Task.id task)
                     (status_update "cancelled")) ;;
            ret tt
          else ret tt) ;;
        on_streamingService (sendLogLine (Env.now env) id None
          "Emergency stop triggered - all processes terminated" "warn") ;;
        ret (Response.mk 200 (JsonStopped "Session stopped" session))
    end).

(** [GET /api/sessions/:sessionId/messages] *)
Definition get_messages (sessionId : string) : ST World.t Response.t :=
  handler (
    let* messages := on_db (getMessagesBySession sessionId) in
    ret (Response.mk 200 (JsonMessages messages))).

(** The plan that the message route gives to every task it creates. *)
Definition mock_plan : list ActionStep.t :=
  [ ActionStep.mk check_tool (Some "git") None
      (Some "Check if git is available");
    ActionStep.mk shell_exec (Some "echo")
      (Some [("command", "echo 'Task executed'")]) (Some "Execute command") ].

(** [POST /api/sessions/:sessionId/messages] *)
Definition post_message (env : Env.t) (sessionId : string) (body : ReqBody.t)
  : ST World.t Response.t :=
  handler (
    match ReqBody.content body with
    | None | Some EmptyString => ret (Response.mk 400 (JsonError "Content is required"))
    | Some content =>
        let* userMessage := on_db (createMessage (Env.now env)
          (Env.uuid env 0%nat) (InsertMessage.mk sessionId "user" content)) in
        on_streamingService (sendLogLine (Env.now env) sessionId None
          ("Received message: " ++ dquote ++ substring 0 50 content
           ++ dquote ++ "...")%string
          "info") ;;
        let* agentMessage := on_db (createMessage (Env.now env)
          (Env.uuid env 1%nat)
          (InsertMessage.mk sessionId "assistant"
             ("I'll help you with: " ++ dquote ++ content ++ dquote
              ++ ". Let me create a task plan for this.")%string)) in
        let* task := on_db (createTask (Env.now env) (Env.uuid env 2%nat)
          (InsertTask.mk sessionId (substring 0 100 content) (Some content)
             (Some "pending") (Some mock_plan) (Some (Some 0))
             (Some (Some 2)) None None)) in
        ret (Response.mk 201 (JsonSent userMessage agentMessage task))
    end).

(** [GET /api/sessions/:sessionId/tasks] *)
Definition get_tasks (sessionId : string) : ST World.t Response.t :=
  handler (
    let* tasks := on_db (getTasksBySession sessionId) in
    ret (Response.mk 200 (JsonTasks tasks))).

(** [GET /api/tasks/:id] *)
Definition get_task (id : string) : ST World.t Response.t :=
  handler (
    let* task := on_db (getTask id) in
    match task with
    | None => ret (Response.mk 404 (JsonError "Task not found"))
    | Some task => ret (Response.mk 200 (JsonTask (Some task)))
    end).

(** [(task.plan as any[]) || []] *)
Definition plan_of (task : Task.t) : list ActionStep.t :=
  default [] (Task.plan task).

(** The body of [for (let i = 0; i < plan.length; i++)] from index [i] on;
    [steps] are the elements [plan[i]], [plan[i+1]], ... *)
Fixpoint run_loop (env : Env.t) (task : Task.t) (length : Z)
  (steps : list ActionStep.t) (i : Z) : ST World.t unit :=
  match steps with
  | [] => ret tt
  | step :: steps' =>
      on_streamingService (sendTaskStep (Env.now env) (Task.sessionId task)
        (Task.id task) i length (action_name (ActionStep.action step))) ;;
      on_db (updateTask (Env.now env) (Task.id task)
               (currentStep_update (i + 1))) ;;
      run_loop env task length steps' (i + 1)
  end.

(** [POST /api/tasks/:id/run] *)
Definition post_task_run (env : Env.t) (id : string) : ST World.t Response.t :=
  handler (
    let* task := on_db (getTask id) in
    match task with
    | None => ret (Response.mk 404 (JsonError "Task not found"))
    | Some task =>
        let* updatedTask := on_db (updateTask (Env.now env) (Task.id task)
          running_update) in
        on_streamingService (sendTaskStart (Env.now env) (Task.sessionId task)
          (Task.id task) (Task.title task)) ;;
        let plan := plan_of task in
        run_loop env task (Z.of_nat (length plan)) plan 0 ;;
        on_db (updateTask (Env.now env) (Task.id task)
                 (status_update "completed")) ;;
        on_streamingService (sendTaskComplete (Env.now env)
          (Task.sessionId task) (Task.id task) true) ;;
        ret (Response.mk 200 (JsonTask updatedTask))
    end).

(** [POST /api/tasks/:id/cancel] *)
Definition post_task_cancel (env : Env.t) (id : string)
  : ST World.t Response.t :=
  handler (
    let* task := on_db (updateTask (Env.now env) id
      (status_update "cancelled")) in
    match task with
    | None => ret (Response.mk 404 (JsonError "Task not found"))
    | Some task =>
        on_streamingService (sendLogLine (Env.now env) (Task.sessionId task)
          (Some (Task.id task)) "Task cancelled by user" "warn") ;;
        ret (Response.mk 200 (JsonTask (Some task)))
    end).

(** [POST /api/sessions/:sessionId/repositories]: the [repositories] table is
    outside this model; the request body is seen as absent ([None]), as a URL
    that the pattern rejects ([Some None]) or as the parsed [owner/name]. *)
Definition post_repository (env : Env.t) (sessionId : string) (body : ReqBody.t)
  : ST World.t Response.t :=
  handler (
    match ReqBody.repository body with
    | None => ret (Response.mk 400 (JsonError "Repository URL is required"))
    | Some None =>
        ret (Response.mk 400 (JsonError "Invalid GitHub repository URL"))
    | Some (Some fullName) =>
        let* owner := on_db (getSession sessionId) in
        match owner with
        | None => throw "insert violates foreign key constraint"
        | Some _ =>
            on_streamingService (sendLogLine (Env.now env) sessionId None
              ("Repository cloned: " ++ fullName)%string "info") ;;
            ret (Response.mk 201 (JsonRepository fullName))
        end
    end).

(** [GET /api/sessions/:sessionId/approvals] *)
Definition get_approvals (sessionId : string) : ST World.t Response.t :=
  handler (
    let* approvals := on_db (getPendingApprovals sessionId) in
    ret (Response.mk 200 (JsonApprovals approvals))).

(** [POST /api/approvals/:id/resolve] *)
Definition post_approval_resolve (env : Env.t) (id : string) (body : ReqBody.t)
  : ST World.t Response.t :=
  handler (
    let status := if ReqBody.approved body then approved else rejected in
    let* approval := on_db (resolveApproval (Env.now env) id status) in
    match approval with
    | None => ret (Response.mk 404 (JsonError "Approval not found"))
    | Some approval =>
        on_streamingService (sendApprovalResolved (Env.now env)
          (Approval.sessionId approval) (Approval.id approval)
          (resolution_name status)) ;;
        ret (Response.mk 200 (JsonApproval approval))
    end).

End Routes.

(** ** The routing table of [registerRoutes] *)

Inductive Method : Type := GET | POST | PATCH | DELETE.

Inductive Route : Type :=
| RouteCurrentSession
| RouteGetSession (id : string)
| RouteCreateSession
| RouteUpdateSession (id : string)
| RouteStopSession (id : string)
| RouteGetMessages (sessionId : string)
| RouteSendMessage (sessionId : string)
| RouteGetTasks (sessionId : string)
| RouteGetTask (id : string)
| RouteRunTask (id : string)
| RouteCancelTask (id : string)
| RouteCloneRepository (sessionId : string)
| RouteGetApprovals (sessionId : string)
| RouteResolveApproval (id : string)
| RouteOutside.

(** A segment of a registered path: a literal, or a parameter [:id], which
    matches a segment that is not empty. *)
Inductive Segment : Type :=
| Lit (s : string)
| Par.

Fixpoint match_path (pattern : list Segment) (path : list string)
  : option (list string) :=
  match pattern, path with
  | [], [] => Some []
  | Lit s :: pattern', x :: path' =>
      if decide (x = s) then match_path pattern' path' else None
  | Par :: pattern', x :: path' =>
      if decide (x = EmptyString) then None
      else cons x <$> match_path pattern' path'
  | _, _ => None
  end.

Global Instance Method_eq_dec : EqDecision Method.
Proof. solve_decision. Defined.

Definition no_param (r : Route) (ps : list string) : Route := r.

Definition one_param (r : string -> Route) (ps : list string) : Route :=
  match ps with
  | p :: _ => r p
  | [] => RouteOutside
  end.

(** The routes in the order in which [registerRoutes] registers them.
    [RouteOutside] stands for the routes of the tools, artifacts, repository
    listing, GitHub and storage-provider sections, which read and write
    nothing of [World.t]. *)
Definition routes : list (Method * list Segment * (list string -> Route)) :=
  [ (GET, [Lit "api"; Lit "sessions"; Lit "current"], no_param RouteCurrentSession);
    (GET, [Lit "api"; Lit "sessions"; Par], one_param RouteGetSession);
    (POST, [Lit "api"; Lit "sessions"], no_param RouteCreateSession);
    (PATCH, [Lit "api"; Lit "sessions"; Par], one_param RouteUpdateSession);
    (POST, [Lit "api"; Lit "sessions"; Par; Lit "stop"], one_param RouteStopSession);
    (GET, [Lit "api"; Lit "sessions"; Par; Lit "messages"], one_param RouteGetMessages);
    (POST, [Lit "api"; Lit "sessions"; Par; Lit "messages"], one_param RouteSendMessage);
    (GET, [Lit "api"; Lit "sessions"; Par; Lit "tasks"], one_param RouteGetTasks);
    (GET, [Lit "api"; Lit "tasks"; Par], one_param RouteGetTask);
    (POST, [Lit "api"; Lit "tasks"; Par; Lit "run"], one_param RouteRunTask);
    (POST, [Lit "api"; Lit "tasks"; Par; Lit "cancel"], one_param RouteCancelTask);
    (GET, [Lit "api"; Lit "tools"], no_param RouteOutside);
    (POST, [Lit "api"; Lit "tools"], no_param RouteOutside);
    (GET, [Lit "api"; Lit "tools"; Par], no_param RouteOutside);
    (POST, [Lit "api"; Lit "tools"; Par; Lit "install"], no_param RouteOutside);
    (POST, [Lit "api"; Lit "tools"; Par; Lit "call"], no_param RouteOutside);
    (GET, [Lit "api"; Lit "sessions"; Par; Lit "artifacts"], no_param RouteOutside);
    (POST, [Lit "api"; Lit "sessions"; Par; Lit "artifacts"], no_param RouteOutside);
    (DELETE, [Lit "api"; Lit "artifacts"; Par], no_param RouteOutside);
    (GET, [Lit "api"; Lit "sessions"; Par; Lit "repositories"], no_param RouteOutside);
    (POST, [Lit "api"; Lit "sessions"; Par; Lit "repositories"],
       one_param RouteCloneRepository);
    (GET, [Lit "api"; Lit "github"; Lit "user"], no_param RouteOutside);
    (GET, [Lit "api"; Lit "github"; Lit "repos"], no_param RouteOutside);
    (GET, [Lit "api"; Lit "github"; Lit "repos"; Par; Par; Lit "branches"],
       no_param RouteOutside);
    (POST, [Lit "api"; Lit "github"; Lit "repos"; Par; Par; Lit "branches"],
       no_param RouteOutside);
    (POST, [Lit "api"; Lit "github"; Lit "repos"; Par; Par; Lit "pulls"],
       no_param RouteOutside);
    (GET, [Lit "api"; Lit "sessions"; Par; Lit "approvals"], one_param RouteGetApprovals);
    (POST, [Lit "api"; Lit "approvals"; Par; Lit "resolve"],
       one_param RouteResolveApproval);
    (GET, [Lit "api"; Lit "storage"; Lit "providers"], no_param RouteOutside) ].

(** The first registered route that matches the method and the path. *)
Fixpoint first_match (table : list (Method * list Segment * (list string -> Route)))
  (m : Method) (path : list string) : option Route :=
  match table with
  | [] => None
  | (m', pattern, r) :: table' =>
      match (if decide (m = m') then match_path pattern path else None) with
      | Some ps => Some (r ps)
      | None => first_match table' m path
      end
  end.

Definition match_route (m : Method) (path : list string) : option Route :=
  first_match routes m path.

Module Request.
Record t : Type := mk {
  method : Method;
  path : list string;
  body : ReqBody.t }.
End Request.

Definition serve (env : Env.t) (r : Route) (body : ReqBody.t)
  : ST World.t Response.t :=
  match r with
  | RouteCurrentSession => get_current_session env
  | RouteGetSession id => get_session id
  | RouteCreateSession => post_session env body
  | RouteUpdateSession id => patch_session env id body
  | RouteStopSession id => post_session_stop env id
  | RouteGetMessages sid => get_messages sid
  | RouteSendMessage sid => post_message env sid body
  | RouteGetTasks sid => get_tasks sid
  | RouteGetTask id => get_task id
  | RouteRunTask id => post_task_run env id
  | RouteCancelTask id => post_task_cancel env id
  | RouteCloneRepository sid => post_repository env sid body
  | RouteGetApprovals sid => get_approvals sid
  | RouteResolveApproval id => post_approval_resolve env id body
  | RouteOutside => ret (Response.mk 200 JsonNone)
  end.

(** One request served to the end; a request that no registered route
    matches is not answered by [registerRoutes] ([None]) and changes
    nothing. *)
Definition dispatch (env : Env.t) (req : Request.t) (w : World.t)
  : option Response.t * World.t :=
  match match_route (Request.method req) (Request.path req) with
  | None => (None, w)
  | Some r =>
      match serve env r (Request.body req) w with
      | (Ok res, w') => (Some res, w')
      | (Throw _, w') => (None, w')
      end
  end.

(** ** client/src/pages/Home.tsx: the requests behind the operator's buttons *)

(** [runTaskMutation] *)
Definition runTaskMutation (taskId : string) : Request.t :=
  Request.mk POST ["api"; "tasks"; taskId; "run"] ReqBody.empty.

(** [cancelTaskMutation] *)
Definition cancelTaskMutation (taskId : string) : Request.t :=
  Request.mk POST ["api"; "tasks"; taskId; "cancel"] ReqBody.empty.

(** [approvalMutation] *)
Definition approvalMutation (approvalId : string) (approved dontAskAgain : bool)
  : Request.t :=
  Request.mk POST ["api"; "approvals"; approvalId; "resolve"]
    (ReqBody.mk None approved dontAskAgain None SessionUpdates.empty None).

(** [emergencyStopMutation] *)
Definition emergencyStopMutation (sessionId : string) : Request.t :=
  Request.mk POST ["api"; "sessions"; sessionId; "stop"] ReqBody.empty.

(** [onRunTask={(taskId) => runTaskMutation.mutate(taskId)}] *)
Definition onRunTask (taskId : string) : Request.t := runTaskMutation taskId.

(** [onCancelTask={(taskId) => cancelTaskMutation.mutate(taskId)}] *)
Definition onCancelTask (taskId : string) : Request.t :=
  cancelTaskMutation taskId.

(** [onRetryTask={(taskId) => runTaskMutation.mutate(taskId)}] *)
Definition onRetryTask (taskId : string) : Request.t := runTaskMutation taskId.

(** [onReject={(approvalId) => approvalMutation.mutate({ approvalId,
    approved: false, dontAskAgain: false })}] *)
Definition onReject (approvalId : string) : Request.t :=
  approvalMutation approvalId false false.

(** [onApprove] *)
Definition onApprove (approvalId : string) (dontAskAgain : bool) : Request.t :=
  approvalMutation approvalId true dontAskAgain.

(** [onEmergencyStop] *)
Definition onEmergencyStop (sessionId : string) : Request.t :=
  emergencyStopMutation sessionId.

(** ** Executions *)

(** What the [WebSocketServer] and the sockets emit. *)
Inductive WsEvent : Type :=
| WsConnection (q_session q_user : option string)
| WsMessage (ws : nat) (message : option ClientData)
| WsClose (ws : nat)
| WsError (ws : nat)
| WsState (ws : nat) (st : ReadyState).

Definition ws_event (now : Z) (e : WsEvent) : ST StreamingService.t unit :=
  match e with
  | WsConnection q_session q_user =>
      bind wss_accept (fun ws => on_connection now ws q_session q_user)
  | WsMessage ws message => on_message now ws message
  | WsClose ws => on_close ws
  | WsError ws => on_error ws
  | WsState ws st => ws_set_state ws st
  end.

(** An operation on the streaming service: an event of the transport, or a
    call of [broadcast] by the server. *)
Inductive SvcOp : Type :=
| OpWs (now : Z) (e : WsEvent)
| OpBroadcast (sessionId : string) (event : StreamEvent.t).

Definition svc_step (s : StreamingService.t) (op : SvcOp) : StreamingService.t :=
  match op with
  | OpWs now e => snd (ws_event now e s)
  | OpBroadcast sessionId event => snd (broadcast sessionId event s)
  end.

Definition svc_run (ops : list SvcOp) (s : StreamingService.t)
  : StreamingService.t :=
  foldl svc_step s ops.

(** The states of the service that an execution reaches from start-up. *)
Definition svc_reachable (s : StreamingService.t) : Prop :=
  exists ops, s = svc_run ops StreamingService.empty.

(** The frames handed to socket [r] so far. *)
Definition sent_to (s : StreamingService.t) (r : nat) : list Frame :=
  match StreamingService.sockets s !! r with
  | Some w => WebSocket.sent w
  | None => []
  end.

(** The clients registered under a session. *)
Definition observers (s : StreamingService.t) (sessionId : string)
  : list WebSocketClient.t :=
  default [] (StreamingService.clients s !! sessionId).

Definition is_open (s : StreamingService.t) (r : nat) : Prop :=
  exists w, StreamingService.sockets s !! r = Some w
            /\ WebSocket.readyState w = OPEN.

(** An event of the whole server: a request served to the end, or an event
    of the transport. *)
Inductive Event : Type :=
| EvHttp (env : Env.t) (req : Request.t)
| EvWs (now : Z) (e : WsEvent).

Definition world_step (w : World.t) (ev : Event) : World.t :=
  match ev with
  | EvHttp env req => snd (dispatch env req w)
  | EvWs now e => snd (on_streamingService (ws_event now e) w)
  end.

Definition world_run (evs : list Event) (w : World.t) : World.t :=
  foldl world_step w evs.

(** The states between two requests, from an empty database. *)
Definition reachable (w : World.t) : Prop :=
  exists evs, w = world_run evs World.empty.

(** The primary key of a stored row is the key under which it is stored. *)
Definition tasks_keyed (d : Db.t) : Prop :=
  map_Forall (fun k t => Task.id t = k) (Db.tasks d).


(** ** The states that the run handler writes *)

(** The worlds after each [await storage.updateTask] of the loop. *)
Fixpoint run_loop_states (env : Env.t) (task : Task.t) (length : Z)
  (steps : list ActionStep.t) (i : Z) (w : World.t) : list World.t :=
  match steps with
  | [] => []
  | step :: steps' =>
      let w1 := snd (on_streamingService (sendTaskStep (Env.now env)
        (Task.sessionId task) (Task.id task) i length
        (action_name (ActionStep.action step))) w) in
      let w2 := snd (on_db (updateTask (Env.now env) (Task.id task)
        (currentStep_update (i + 1))) w1) in
      w2 :: run_loop_states env task length steps' (i + 1) w2
  end.

(** The worlds after each [await storage.updateTask] of
    [POST /api/tasks/:id/run]: after the task is set running, after each
    step of the loop, after the task is set completed. *)
Definition run_states (env : Env.t) (id : string) (w : World.t)
  : list World.t :=
  match Db.tasks (World.db w) !! id with
  | None => []
  | Some task =>
      let w0 := snd (on_db (updateTask (Env.now env) (Task.id task)
        running_update) w) in
      let w0' := snd (on_streamingService (sendTaskStart (Env.now env)
        (Task.sessionId task) (Task.id task) (Task.title task)) w0) in
      let plan := plan_of task in
      let loop := run_loop_states env task (Z.of_nat (length plan)) plan 0 w0' in
      let wn := List.last loop w0' in
      let wc := snd (on_db (updateTask (Env.now env) (Task.id task)
        (status_update "completed")) wn) in
      w0 :: loop ++ [wc]
  end.

(** The stored task, by primary key. *)
Definition task_of (w : World.t) (id : string) : option Task.t :=
  Db.tasks (World.db w) !! id.

Definition approval_of (w : World.t) (id : string) : option Approval.t :=
  Db.approvals (World.db w) !! id.

Definition session_of (w : World.t) (id : string) : option Session.t :=
  Db.sessions (World.db w) !! id.

(** The pending approvals of a session, as the approvals route lists them. *)
Definition pendingFor (w : World.t) (sessionId : string) : list Approval.t :=
  match fst (getPendingApprovals sessionId (World.db w)) with
  | Ok l => l
  | Throw _ => []
  end.

(** ** Notions used in the statements *)

(** A frame reaches an open socket and is dropped by any other. *)
Definition push (m : Frame) (w : WebSocket.t) : WebSocket.t :=
  if decide (WebSocket.readyState w = OPEN)
  then WebSocket.mk OPEN (WebSocket.sent w ++ [m]) (WebSocket.listeners w)
  else w.

(** The heap after a frame was offered to the sockets [refs] in turn. *)
Definition deliver_all (m : Frame) (refs : list nat)
  (h : gmap nat WebSocket.t) : gmap nat WebSocket.t :=
  foldl (fun h r => alter (push m) r h) h refs.

(** Every registered client names an allocated socket. *)
Definition sockets_allocated (s : StreamingService.t) : Prop :=
  forall sid cs c,
    StreamingService.clients s !! sid = Some cs -> c ∈ cs ->
    is_Some (StreamingService.sockets s !! WebSocketClient.ws c).

(** The invariant of the streaming service: a session lists a socket at
    most once, and only sockets whose listeners captured that session and
    that client; addresses are allocated in increasing order; the client
    captured by the listeners of a socket names that socket. *)
Definition svc_inv (s : StreamingService.t) : Prop :=
  (forall sid cs, StreamingService.clients s !! sid = Some cs ->
     NoDup (WebSocketClient.ws <$> cs)
     /\ forall c, c ∈ cs ->
          exists w, StreamingService.sockets s !! WebSocketClient.ws c = Some w
                    /\ WebSocket.listeners w = Some (sid, c))
  /\ (forall r w, StreamingService.sockets s !! r = Some w ->
        (r < StreamingService.nextSocket s)%nat)
  /\ (forall r w sid c, StreamingService.sockets s !! r = Some w ->
        WebSocket.listeners w = Some (sid, c) -> WebSocketClient.ws c = r).

(** Socket [r] is registered under session [sid]. *)
Definition subscribed (s : StreamingService.t) (sid : string) (r : nat) : Prop :=
  r ∈ (WebSocketClient.ws <$> observers s sid).

Global Instance subscribed_dec s sid r : Decision (subscribed s sid r).
Proof. unfold subscribed. apply _. Defined.

(** Socket [r] is registered under no session. *)
Definition unsubscribed (s : StreamingService.t) (r : nat) : Prop :=
  forall sid, ~ subscribed s sid r.

(** Socket [r] was accepted for session [sid]: its listeners captured it. *)
Definition owned_by (s : StreamingService.t) (sid : string) (r : nat) : Prop :=
  exists w c, StreamingService.sockets s !! r = Some w
              /\ WebSocket.listeners w = Some (sid, c).

(** A run with the publications to the sessions other than [sid] removed. *)
Definition concerns (sid : string) (op : SvcOp) : Prop :=
  match op with
  | OpBroadcast sid' _ => sid' = sid
  | OpWs _ _ => True
  end.

Global Instance concerns_dec sid op : Decision (concerns sid op).
Proof. destruct op; simpl; apply _. Defined.

Definition without_other_publications (sid : string) (ops : list SvcOp)
  : list SvcOp :=
  filter (concerns sid) ops.

(** Two sockets that differ at most in the frames sent to a socket of a
    session other than [sid]. *)
Definition ws_rel (sid : string) (w1 w2 : WebSocket.t) : Prop :=
  WebSocket.readyState w1 = WebSocket.readyState w2
  /\ WebSocket.listeners w1 = WebSocket.listeners w2
  /\ (fst <$> WebSocket.listeners w1 = Some sid ->
      WebSocket.sent w1 = WebSocket.sent w2).

(** Two states of the service that session [sid] cannot tell apart. *)
Definition svc_rel (sid : string) (s1 s2 : StreamingService.t) : Prop :=
  StreamingService.clients s1 = StreamingService.clients s2
  /\ StreamingService.nextSocket s1 = StreamingService.nextSocket s2
  /\ forall r, option_Forall2 (ws_rel sid)
       (StreamingService.sockets s1 !! r) (StreamingService.sockets s2 !! r).

(** The events built by the routes. *)
Definition log_line_event (now : Z) (sessionId : string) (taskId : option string)
  (message level : string) : StreamEvent.t :=
  StreamEvent.mk log_line sessionId (or_undefined taskId) now
    (DataLog message level).

Definition approval_resolved_event (now : Z) (sessionId approvalId status : string)
  : StreamEvent.t :=
  StreamEvent.mk approval_resolved sessionId None now
    (DataResolved approvalId status).

(** The world [w] with another streaming service, another database. *)
Definition with_service (s : StreamingService.t) (w : World.t) : World.t :=
  World.mk (World.db w) s (World.defaultSessionId w).

Definition with_db (d : Db.t) (w : World.t) : World.t :=
  World.mk d (World.streamingService w) (World.defaultSessionId w).

(** The world after [broadcast sid e]. *)
Definition published (sid : string) (e : StreamEvent.t) (w : World.t)
  : World.t :=
  with_service (snd (broadcast sid e (World.streamingService w))) w.


(** The decision that a resolve request carries. *)
Definition decision (body : ReqBody.t) : Resolution :=
  if ReqBody.approved body then approved else rejected.

(** The row written by [updateTask(id, { status: "cancelled" })]. *)
Definition cancel_row (now : Z) : Task.t -> Task.t :=
  apply_task_updates now (status_update "cancelled").

(** The table of tasks after the rows [ks] were cancelled in turn. *)
Definition cancel_all (now : Z) (ks : list string) (m : gmap string Task.t)
  : gmap string Task.t :=
  foldl (fun m k => alter (cancel_row now) k m) m ks.

(** The tasks that the stop route finds running in session [sid]. *)
Definition running_ids (d : Db.t) (sid : string) : list string :=
  Task.id <$> filter (fun t => Task.status t = "running")
    (merge_sort newer_first
       (filter (fun t => Task.sessionId t = sid) (rows (Db.tasks d)))).

Definition stop_event (now : Z) (sid : string) : StreamEvent.t :=
  log_line_event now sid None
    "Emergency stop triggered - all processes terminated" "warn".

(** The rows written by the run route: when the task is set running, after
    step [c - 1], when the task is set completed. *)
Definition start_row (now : Z) : Task.t -> Task.t :=
  apply_task_updates now running_update.

Definition step_row (now : Z) (c : Z) : Task.t -> Task.t :=
  apply_task_updates now (currentStep_update c).

Definition complete_row (now : Z) : Task.t -> Task.t :=
  apply_task_updates now (status_update "completed").

Definition task_complete_event (now : Z) (t : Task.t) : StreamEvent.t :=
  StreamEvent.mk task_complete (Task.sessionId t) (Some (Task.id t)) now
    (DataSuccess true).




(** The row of the task in the [j]-th state that a run writes, for a plan
    of [n] steps: running with [currentStep = j] for [j <= n], then
    completed. *)
Definition run_row (now : Z) (n j : nat) (t : Task.t) : Task.t :=
  if decide (j <= n)%nat
  then step_row now (Z.of_nat j) (start_row now t)
  else complete_row now (step_row now (Z.of_nat n) (start_row now t)).

(** The actions of the plan of a task, in order. *)
Definition plan_actions (t : Task.t) : list Action :=
  ActionStep.action <$> plan_of t.

(** ** States used as examples *)

(** One observer of session [S], whose peer has begun the closing
    handshake: the socket is [CLOSING] and its close event is still to come. *)
Definition svc_closing : StreamingService.t :=
  svc_run [OpWs 1 (WsConnection (Some "S") None);
           OpWs 2 (WsState 0 CLOSING)] StreamingService.empty.

(** Two observers of session [S] and one of session [T], all open. *)
Definition svc_three : StreamingService.t :=
  svc_run [OpWs 1 (WsConnection (Some "S") None);
           OpWs 2 (WsConnection (Some "T") None);
           OpWs 3 (WsConnection (Some "S") (Some "u"))] StreamingService.empty.

Definition hello : StreamEvent.t :=
  StreamEvent.mk log_line "S" None 5 (DataLog "hello" "info").

(** Two runs that differ only in a publication to session [T]. *)
Definition run_with_T : list SvcOp :=
  [OpWs 1 (WsConnection (Some "S") None);
   OpWs 2 (WsConnection (Some "T") None);
   OpBroadcast "T" (StreamEvent.mk stdout "T" (Some "t1") 3 (DataMessage "secret"));
   OpBroadcast "S" hello].

Definition run_without_T : list SvcOp :=
  [OpWs 1 (WsConnection (Some "S") None);
   OpWs 2 (WsConnection (Some "T") None);
   OpBroadcast "S" hello].

(** The environment of a request served at time [10], at time [20]. *)
Definition env10 : Env.t :=
  Env.mk 10 (fun n => match n with O => "u0" | 1%nat => "u1" | _ => "u2" end) "/w".

Definition env20 : Env.t :=
  Env.mk 20 (fun n => match n with O => "v0" | 1%nat => "v1" | _ => "v2" end) "/w".

(** A session [S] that neither allows destructive actions nor runs dry,
    watched by one observer. *)
Definition world_S : World.t :=
  let w1 := snd (on_db (createSession 1 "S"
    (InsertSession.mk None "s" None (Some false) (Some false) None)) World.empty) in
  snd (on_streamingService (ws_event 2 (WsConnection (Some "S") None)) w1).

(** [world_S] with a task [T] that failed at its second step. *)
Definition world_failed : World.t :=
  snd (on_db (createTask 3 "T"
    (InsertTask.mk "S" "two steps" None (Some "failed") (Some mock_plan)
       (Some (Some 1)) (Some (Some 2)) (Some "boom") None)) world_S).

(** [world_S] with a pending task [D] whose plan is [delete_file /x]. *)
Definition world_delete : World.t :=
  snd (on_db (createTask 3 "D"
    (InsertTask.mk "S" "delete" None None
       (Some [ActionStep.mk delete_file (Some "/x") None None])
       None (Some (Some 1)) None None)) world_S).

(** [world_S] with a task [R] that was stored as running. *)
Definition world_running : World.t :=
  snd (on_db (createTask 3 "R"
    (InsertTask.mk "S" "runs" None (Some "running") (Some mock_plan)
       (Some (Some 1)) (Some (Some 2)) None None)) world_S).

(** [world_S] with two pending approvals: [b], created at time [5], and
    [a], created at time [6]. *)
Definition world_approvals : World.t :=
  let w1 := snd (on_db (createApproval 5 "b"
    (InsertApproval.mk "S" None "delete_file" None None)) world_S) in
  snd (on_db (createApproval 6 "a"
    (InsertApproval.mk "S" None "git_push" None None)) w1).

Definition approve_body : ReqBody.t :=
  ReqBody.mk None true false None SessionUpdates.empty None.

Definition reject_body : ReqBody.t :=
  ReqBody.mk None false false None SessionUpdates.empty None.

(** A world reached through the routes: a session is created, then a
    message is sent to it, which stores the task [v2]. *)
Definition chat_events : list Event :=
  [ EvHttp env10 (Request.mk POST ["api"; "sessions"]
      (ReqBody.mk None false false
         (Some (InsertSession.mk None "s" None None None None))
         SessionUpdates.empty None));
    EvWs 15 (WsConnection (Some "u0") None);
    EvHttp env20 (Request.mk POST ["api"; "sessions"; "u0"; "messages"]
      (ReqBody.mk (Some "hi") false false None SessionUpdates.empty None)) ].

Definition world_chat : World.t := world_run chat_events World.empty.

(** ** Further notions of the streaming service *)

(** [getConnectedSessions()]: the keys of [clients].  A [Map] lists its keys
    in insertion order, which the finite map does not record: the list
    stands for the set of its members. *)
Definition getConnectedSessions (s : StreamingService.t) : list string :=
  (map_to_list (StreamingService.clients s)).*1.

(** No session is registered with an empty array of clients. *)
Definition clients_nonempty (s : StreamingService.t) : Prop :=
  forall sid cs, StreamingService.clients s !! sid = Some cs -> cs <> [].

(** The client captured by the listeners of a socket carries the session
    that they captured. *)
Definition listeners_session (s : StreamingService.t) : Prop :=
  forall r w sid c,
    StreamingService.sockets s !! r = Some w ->
    WebSocket.listeners w = Some (sid, c) -> WebSocketClient.sessionId c = sid.

(** The acknowledgement of a connection and the answer to a ping. *)
Definition connected_event (now : Z) (sid : string) : StreamEvent.t :=
  StreamEvent.mk session_start sid None now
    (DataMessage "Connected to streaming service").

Definition pong_event (now : Z) (sid : string) : StreamEvent.t :=
  StreamEvent.mk session_start sid None now DataPong.

(** The state of a socket; an address that is not allocated has none. *)
Definition state_of (s : StreamingService.t) (r : nat) : option ReadyState :=
  WebSocket.readyState <$> StreamingService.sockets s !! r.

(** ** Further notions of the routes *)

(** The events that the run route publishes: the start of the task, one
    [task_step] per step of the plan, from index [i] on, and the end. *)
Definition task_start_event (now : Z) (t : Task.t) : StreamEvent.t :=
  StreamEvent.mk task_start (Task.sessionId t) (Some (Task.id t)) now
    (DataTitle (Task.title t)).

Fixpoint step_events (now : Z) (t : Task.t) (len : Z)
  (steps : list ActionStep.t) (i : Z) : list StreamEvent.t :=
  match steps with
  | [] => []
  | step :: steps' =>
      StreamEvent.mk task_step (Task.sessionId t) (Some (Task.id t)) now
        (DataStep i len (action_name (ActionStep.action step)))
      :: step_events now t len steps' (i + 1)
  end.

Definition run_events (now : Z) (t : Task.t) : list StreamEvent.t :=
  task_start_event now t
  :: step_events now t (Z.of_nat (length (plan_of t))) (plan_of t) 0
  ++ [task_complete_event now t].

(** The tasks and the messages of a session, as their routes list them. *)
Definition tasksFor (w : World.t) (sessionId : string) : list Task.t :=
  match fst (getTasksBySession sessionId (World.db w)) with
  | Ok l => l
  | Throw _ => []
  end.

Definition messagesFor (w : World.t) (sessionId : string) : list Message.t :=
  match fst (getMessagesBySession sessionId (World.db w)) with
  | Ok l => l
  | Throw _ => []
  end.

Definition messages_keyed (d : Db.t) : Prop :=
  map_Forall (fun k m => Message.id m = k) (Db.messages d).

(** The reference of an approval to a task is absent or names a stored
    task. *)
Definition task_reference_ok (w : World.t) (taskId : option string) : Prop :=
  match taskId with
  | Some tid => is_Some (task_of w tid)
  | None => True
  end.

(** A request body without content: absent, or the empty string. *)
Definition no_content (body : ReqBody.t) : Prop :=
  ReqBody.content body = None \/ ReqBody.content body = Some EmptyString.




Definition received_event (env : Env.t) (sid content : string) : StreamEvent.t :=
  log_line_event (Env.now env) sid None
    ("Received message: " ++ dquote ++ substring 0 50 content
     ++ dquote ++ "...")%string "info".

(** *** client/src/pages/Home.tsx *)

(** [updateSessionMutation] *)
Definition updateSessionMutation (sessionId : string)
  (updates : SessionUpdates.t) : Request.t :=
  Request.mk PATCH ["api"; "sessions"; sessionId]
    (ReqBody.mk None false false None updates None).

(** [onDryRunToggle={(enabled) =>
    updateSessionMutation.mutate({ dryRunMode: enabled })}] *)
Definition onDryRunToggle (sessionId : string) (enabled : bool) : Request.t :=
  updateSessionMutation sessionId
    (SessionUpdates.mk None None None (Some enabled) None None).



(** ** The tools: shared/schema.ts, server/storage.ts, server/routes.ts *)

(** Row of [tools]; [isInstalled] and [createdAt] are nullable columns with
    a default, [schema] is an opaque JSON value, kept as text. *)
Module Tool.
Record t : Type := mk {
  id : string;
  name : string;
  type : string;
  description : option string;
  command : option string;
  apiEndpoint : option string;
  dockerImage : option string;
  schema : option string;
  isInstalled : option bool;
  installCommand : option string;
  version : option string;
  createdAt : option Z }.
End Tool.

(** [InsertTool]: [isInstalled] may be left out ([None]), in which case the
    column takes its default, or be [null] ([Some None]). *)
Module InsertTool.
Record t : Type := mk {
  name : string;
  type : string;
  description : option string;
  command : option string;
  apiEndpoint : option string;
  dockerImage : option string;
  schema : option string;
  isInstalled : option (option bool);
  installCommand : option string;
  version : option string }.
End InsertTool.

(** [Partial<InsertTool>] *)
Module ToolUpdates.
Record t : Type := mk {
  name : option string;
  type : option string;
  description : option (option string);
  command : option (option string);
  apiEndpoint : option (option string);
  dockerImage : option (option string);
  schema : option (option string);
  isInstalled : option (option bool);
  installCommand : option (option string);
  version : option (option string) }.
Definition empty : t := mk None None None None None None None None None None.
End ToolUpdates.

Global Instance ToolUpdates_eq_dec : EqDecision ToolUpdates.t.
Proof. solve_decision. Defined.

(** What the tools routes answer; the table [tools] is a finite map from
    primary key to row. *)
Inductive ToolsBody : Type :=
| JsonTools (tools : list Tool.t)
| JsonTool (tool : option Tool.t)
| JsonToolError (error : string)
| JsonToolCalled (tool : string) (args : option string) (result output : string).

Module ToolsResponse.
Record t : Type := mk {
  status : Z;
  body : ToolsBody }.
End ToolsResponse.

Section Tools.
Local Open Scope st_scope.

(** The order in which [orderBy(tools.name)] compares two names: the
    collation of the database. *)
Context (collation : string -> string -> Prop)
  `{!forall a b, Decision (collation a b)}.

Definition by_name (a b : Tool.t) : Prop := collation (Tool.name a) (Tool.name b).

Local Instance by_name_dec a b : Decision (by_name a b).
Proof. unfold by_name. apply _. Defined.

(** The constraint [unique()] on [tools.name]. *)
Definition name_free (name : string) (m : gmap string Tool.t) : Prop :=
  map_Forall (fun _ t => Tool.name t <> name) m.

Definition getTool (id : string) : ST (gmap string Tool.t) (option Tool.t) :=
  gets (fun m => m !! id).

Definition getAllTools : ST (gmap string Tool.t) (list Tool.t) :=
  gets (fun m => merge_sort by_name (rows m)).

Definition createTool (now : Z) (id : string) (ins : InsertTool.t)
  : ST (gmap string Tool.t) Tool.t :=
  let* old := gets (fun m => m !! id) in
  let* free := gets (fun m => bool_decide (name_free (InsertTool.name ins) m)) in
  match old, free with
  | Some _, _ => throw "duplicate key value violates unique constraint"
  | None, false => throw "duplicate key value violates unique constraint"
  | None, true =>
      let tool :=
        Tool.mk id (InsertTool.name ins) (InsertTool.type ins)
          (InsertTool.description ins) (InsertTool.command ins)
          (InsertTool.apiEndpoint ins) (InsertTool.dockerImage ins)
          (InsertTool.schema ins)
          (default (Some false) (InsertTool.isInstalled ins))
          (InsertTool.installCommand ins) (InsertTool.version ins)
          (Some now) in
      modify (insert id tool) ;;
      ret tool
  end.

(** [.set(updates)] on a row of [tools] *)
Definition apply_tool_updates (u : ToolUpdates.t) (t : Tool.t) : Tool.t :=
  Tool.mk (Tool.id t)
    (default (Tool.name t) (ToolUpdates.name u))
    (default (Tool.type t) (ToolUpdates.type u))
    (default (Tool.description t) (ToolUpdates.description u))
    (default (Tool.command t) (ToolUpdates.command u))
    (default (Tool.apiEndpoint t) (ToolUpdates.apiEndpoint u))
    (default (Tool.dockerImage t) (ToolUpdates.dockerImage u))
    (default (Tool.schema t) (ToolUpdates.schema u))
    (default (Tool.isInstalled t) (ToolUpdates.isInstalled u))
    (default (Tool.installCommand t) (ToolUpdates.installCommand u))
    (default (Tool.version t) (ToolUpdates.version u))
    (Tool.createdAt t).

(** [db.update(tools).set(updates).where(eq(tools.id, id)).returning()]:
    the query builder refuses an update without values, and the database
    refuses a name that another row holds. *)
Definition updateTool (id : string) (updates : ToolUpdates.t)
  : ST (gmap string Tool.t) (option Tool.t) :=
  if decide (updates = ToolUpdates.empty) then throw "No values to set"
  else
    let* hit := gets (fun m => m !! id) in
    let* free := gets (fun m =>
      match ToolUpdates.name updates with
      | Some name => bool_decide (name_free name (delete id m))
      | None => true
      end) in
    match hit, free with
    | Some _, false => throw "duplicate key value violates unique constraint"
    | _, _ =>
        modify (alter (apply_tool_updates updates) id) ;;
        gets (fun m => m !! id)
    end.

(** [try { ... } catch (error) { res.status(500).json({ error: error.message }) }] *)
Definition tools_handler (m : ST (gmap string Tool.t) ToolsResponse.t)
  : ST (gmap string Tool.t) ToolsResponse.t :=
  try_catch m (fun e => ret (ToolsResponse.mk 500 (JsonToolError e))).

(** [defaultTools] *)
Definition default_tool (name type description : string) (installed : bool)
  (command installCommand : option string) : InsertTool.t :=
  InsertTool.mk name type (Some description) command None None None
    (Some (Some installed)) installCommand None.

Definition defaultTools : list InsertTool.t :=
  [ default_tool "git" "shell" "Git version control" true (Some "git") None;
    default_tool "npm" "shell" "Node package manager" true (Some "npm") None;
    default_tool "python" "python" "Python interpreter" true (Some "python3") None;
    default_tool "curl" "shell" "HTTP client" true (Some "curl") None;
    default_tool "yt-dlp" "shell" "Video downloader" false None
      (Some "pip install yt-dlp");
    default_tool "ffmpeg" "shell" "Media processing" false None
      (Some "apt install ffmpeg") ].

(** [for (const tool of defaultTools) { await storage.createTool(tool) }];
    the insert of the [n]-th tool draws the [n]-th identifier. *)
Fixpoint create_tools (env : Env.t) (n : nat) (tools : list InsertTool.t)
  : ST (gmap string Tool.t) unit :=
  match tools with
  | [] => ret tt
  | tool :: tools' =>
      createTool (Env.now env) (Env.uuid env n) tool ;;
      create_tools env (S n) tools'
  end.

(** [GET /api/tools] *)
Definition get_tools (env : Env.t) : ST (gmap string Tool.t) ToolsResponse.t :=
  tools_handler (
    let* tools := getAllTools in
    if decide (length tools = 0%nat)
    then
      create_tools env 0 defaultTools ;;
      let* seededTools := getAllTools in
      ret (ToolsResponse.mk 200 (JsonTools seededTools))
    else ret (ToolsResponse.mk 200 (JsonTools tools))).



(** [{ isInstalled: true, version: "1.0.0" }] *)
Definition installed_update : ToolUpdates.t :=
  ToolUpdates.mk None None None None None None None (Some (Some true)) None
    (Some (Some "1.0.0")).

(** [POST /api/tools/:id/install] *)
Definition post_tool_install (id : string) : ST (gmap string Tool.t) ToolsResponse.t :=
  tools_handler (
    let* tool := getTool id in
    match tool with
    | None => ret (ToolsResponse.mk 404 (JsonToolError "Tool not found"))
    | Some tool =>
        let* updatedTool := updateTool (Tool.id tool) installed_update in
        ret (ToolsResponse.mk 200 (JsonTool updatedTool))
    end).

(** [POST /api/tools/:id/call]; [args] is the field of that name of the
    request body, an opaque JSON value, kept as text. *)
Definition post_tool_call (id : string) (args : option string)
  : ST (gmap string Tool.t) ToolsResponse.t :=
  tools_handler (
    let* tool := getTool id in
    match tool with
    | None => ret (ToolsResponse.mk 404 (JsonToolError "Tool not found"))
    | Some tool =>
        match Tool.isInstalled tool with
        | Some true =>
            ret (ToolsResponse.mk 200
                   (JsonToolCalled (Tool.name tool) args
                      "Tool executed successfully" EmptyString))
        | _ => ret (ToolsResponse.mk 400 (JsonToolError "Tool is not installed"))
        end
    end).

End Tools.

(** The rows that seeding inserts. *)
Definition seeded_tool (env : Env.t) (n : nat) (ins : InsertTool.t) : Tool.t :=
  Tool.mk (Env.uuid env n) (InsertTool.name ins) (InsertTool.type ins)
    (InsertTool.description ins) (InsertTool.command ins) None None None
    (default (Some false) (InsertTool.isInstalled ins))
    (InsertTool.installCommand ins) None (Some (Env.now env)).

Definition seeded_tools (env : Env.t) : gmap string Tool.t :=
  foldl (fun m '(n, ins) => <[Env.uuid env n := seeded_tool env n ins]> m) ∅
    (imap (fun n ins => (n, ins)) defaultTools).

Definition tools_keyed (m : gmap string Tool.t) : Prop :=
  map_Forall (fun k t => Tool.id t = k) m.

(** The identifiers drawn by the six inserts of a seeding differ. *)
Definition fresh_ids (env : Env.t) : Prop :=
  NoDup (Env.uuid env <$> seq 0 6).

(** A collation used as an example: the order of the code points. *)
Definition code_point_order (a b : string) : Prop := String.leb a b = true.

Global Instance code_point_order_dec a b : Decision (code_point_order a b).
Proof. unfold code_point_order. apply _. Defined.

(** An environment whose identifiers are the letters [a], [b], [c], ... *)
Definition env_letters : Env.t :=
  Env.mk 30 (fun n => String (ascii_of_nat (97 + n)) EmptyString) "/w".

(** ** server/storage-providers.ts *)

(** A [Map] with string keys, as JavaScript has it: the entries are kept in
    the order in which their keys were first set. *)
Module JsMap.
Fixpoint set {V} (k : string) (v : V) (m : list (string * V))
  : list (string * V) :=
  match m with
  | [] => [(k, v)]
  | (k', v') :: m' =>
      if decide (k' = k) then (k, v) :: m' else (k', v') :: set k v m'
  end.

Fixpoint get {V} (k : string) (m : list (string * V)) : option V :=
  match m with
  | [] => None
  | (k', v') :: m' => if decide (k' = k) then Some v' else get k m'
  end.

Definition has {V} (k : string) (m : list (string * V)) : bool :=
  bool_decide (is_Some (get k m)).

Definition keys {V} (m : list (string * V)) : list string := m.*1.
End JsMap.

(** The two classes that implement [StorageProvider]; only
    [S3StorageProvider] has the optional method [getPresignedUrl]. *)
Inductive ProviderClass : Type :=
| LocalStorageProvider (basePath : string)
| S3StorageProvider (bucket region : string).

Module StorageProvider.
Record t : Type := mk {
  name : string;
  class : ProviderClass }.
End StorageProvider.

(** [new LocalStorageProvider()] *)
Definition new_LocalStorageProvider : StorageProvider.t :=
  StorageProvider.mk "local" (LocalStorageProvider "./artifacts").

(** [new S3StorageProvider(bucket)] *)
Definition new_S3StorageProvider (bucket : string) : StorageProvider.t :=
  StorageProvider.mk "s3" (S3StorageProvider bucket "us-east-1").

(** [class StorageManager] *)
Module StorageManager.
Record t : Type := mk {
  providers : list (string * StorageProvider.t);
  defaultProvider : string }.
End StorageManager.

Section Providers.
Import StorageManager.
Local Open Scope st_scope.

Definition registerProvider (provider : StorageProvider.t)
  : ST StorageManager.t unit :=
  modify (fun s =>
    mk (JsMap.set (StorageProvider.name provider) provider (providers s))
       (defaultProvider s)).

Definition setDefaultProvider (name : string) : ST StorageManager.t unit :=
  let* known := gets (fun s => JsMap.has name (providers s)) in
  if known
  then modify (fun s => mk (providers s) name)
  else throw ("Provider " ++ name ++ " not registered")%string.

(** [getProvider(name?)]: [name || this.defaultProvider] takes the default
    for a name that is absent or empty. *)
Definition getProvider (name : option string)
  : ST StorageManager.t StorageProvider.t :=
  let* providerName := gets (fun s =>
    match name with
    | None | Some EmptyString => defaultProvider s
    | Some n => n
    end) in
  let* provider := gets (fun s => JsMap.get providerName (providers s)) in
  match provider with
  | None => throw ("Provider " ++ providerName ++ " not found")%string
  | Some provider => ret provider
  end.

Definition listProviders : ST StorageManager.t (list string) :=
  gets (fun s => JsMap.keys (providers s)).


(** [new StorageManager()] *)
Definition new_StorageManager : StorageManager.t :=
  snd (registerProvider new_LocalStorageProvider (mk [] "local")).

(** [GET /api/storage/providers]: the names, each with [connected: true]. *)
Definition get_storage_providers : ST StorageManager.t (Z * list (string * bool)) :=
  let* providers := listProviders in
  ret (200, (fun name => (name, true)) <$> providers).

End Providers.

(** A call on the storage manager that may change it. *)
Inductive ManagerOp : Type :=
| OpRegister (provider : StorageProvider.t)
| OpSetDefault (name : string).

Definition manager_step (s : StorageManager.t) (op : ManagerOp)
  : StorageManager.t :=
  match op with
  | OpRegister provider => snd (registerProvider provider s)
  | OpSetDefault name => snd (setDefaultProvider name s)
  end.

(** The states of the manager after its construction. *)
Definition manager_reachable (s : StorageManager.t) : Prop :=
  exists ops, s = foldl manager_step new_StorageManager ops.

(** Every provider is registered under its own name, once, and the default
    provider is registered. *)
Definition manager_inv (s : StorageManager.t) : Prop :=
  (forall k p, JsMap.get k (StorageManager.providers s) = Some p ->
     StorageProvider.name p = k)
  /\ NoDup (JsMap.keys (StorageManager.providers s))
  /\ is_Some (JsMap.get (StorageManager.defaultProvider s)
                (StorageManager.providers s))
  /\ "local" ∈ JsMap.keys (StorageManager.providers s).

(** ** server/github.ts *)

(** A JavaScript value that holds a string or is absent is truthy when it
    is a string that is not empty. *)
Definition truthy (v : option string) : bool :=
  match v with
  | Some (String _ _) => true
  | _ => false
  end.

(** [a || b] *)
Definition or_else (a b : option string) : option string :=
  if truthy a then a else b.

(** [connectionSettings.settings], as [getAccessToken] reads it:
    [expires_at] is the instant that [new Date(expires_at).getTime()]
    yields, absent when the field is missing, falsy or not a date;
    [oauth_access_token] is [oauth?.credentials?.access_token]. *)
Module ConnectionSettings.
Record t : Type := mk {
  expires_at : option Z;
  access_token : option string;
  oauth_access_token : option string }.
End ConnectionSettings.

(** An item of the answer of the connectors service. *)
Module Connection.
Record t : Type := mk {
  settings : option ConnectionSettings.t }.
End Connection.

(** What the environment supplies to one call: the clock, the variables of
    [process.env], and the answer of the connectors service to a request
    with a given URL and [X_REPLIT_TOKEN] header, which is the first item
    of the answer, if any, or a failure of the request. *)
Module GitHubEnv.
Record t : Type := mk {
  now : Z;
  REPLIT_CONNECTORS_HOSTNAME : option string;
  REPL_IDENTITY : option string;
  WEB_REPL_RENEWAL : option string;
  fetch : string -> string -> Outcome (option Connection.t) }.
End GitHubEnv.

Section GitHub.
Local Open Scope st_scope.

(** The condition of the first [if] of [getAccessToken]. *)
Definition cache_is_fresh (now : Z) (connectionSettings : option Connection.t)
  : bool :=
  match connectionSettings with
  | Some c =>
      match Connection.settings c with
      | Some st =>
          match ConnectionSettings.expires_at st with
          | Some t => bool_decide (now < t)
          | None => false
          end
      | None => false
      end
  | None => false
  end.

Definition xReplitToken (env : GitHubEnv.t) : option string :=
  if truthy (GitHubEnv.REPL_IDENTITY env)
  then Some ("repl " ++ default EmptyString (GitHubEnv.REPL_IDENTITY env))%string
  else if truthy (GitHubEnv.WEB_REPL_RENEWAL env)
  then Some ("depl " ++ default EmptyString (GitHubEnv.WEB_REPL_RENEWAL env))%string
  else None.

Definition connection_url (env : GitHubEnv.t) : string :=
  ("https://" ++ default "undefined" (GitHubEnv.REPLIT_CONNECTORS_HOSTNAME env)
   ++ "/api/v2/connection?include_secrets=true&connector_names=github")%string.

(** [connectionSettings?.settings?.access_token ||
     connectionSettings?.settings?.oauth?.credentials?.access_token] *)
Definition token_of (connectionSettings : option Connection.t) : option string :=
  match connectionSettings with
  | Some c =>
      match Connection.settings c with
      | Some st =>
          or_else (ConnectionSettings.access_token st)
            (ConnectionSettings.oauth_access_token st)
      | None => None
      end
  | None => None
  end.

(** [connectionSettings.settings.access_token] *)
Definition cached_token (connectionSettings : option Connection.t)
  : option string :=
  match connectionSettings with
  | Some c =>
      match Connection.settings c with
      | Some st => ConnectionSettings.access_token st
      | None => None
      end
  | None => None
  end.

(** [getAccessToken()]; the state is the module variable
    [connectionSettings], which is assigned only when the request to the
    connectors service has been answered. *)
Definition getAccessToken (env : GitHubEnv.t)
  : ST (option Connection.t) (option string) :=
  let* connectionSettings := gets (fun cs => cs) in
  if cache_is_fresh (GitHubEnv.now env) connectionSettings
  then ret (cached_token connectionSettings)
  else
    match xReplitToken env with
    | None => throw "X_REPLIT_TOKEN not found for repl/depl"
    | Some header =>
        match GitHubEnv.fetch env (connection_url env) header with
        | Throw e => throw e
        | Ok fetched =>
            modify (fun _ => fetched) ;;
            let accessToken := token_of fetched in
            if bool_decide (is_Some fetched) && truthy accessToken
            then ret accessToken
            else throw "GitHub not connected"
        end
    end.

(** [getCloneUrl(owner, repo)]; a token that is absent is printed as
    [undefined]. *)
Definition getCloneUrl (env : GitHubEnv.t) (owner repo : string)
  : ST (option Connection.t) string :=
  let* accessToken := getAccessToken env in
  ret ("https://" ++ default "undefined" accessToken ++ "@github.com/"
       ++ owner ++ "/" ++ repo ++ ".git")%string.

End GitHub.

(** An environment in which the connectors service answers with a
    connection that carries a token until the instant [100]. *)
Definition github_env (now : Z) : GitHubEnv.t :=
  GitHubEnv.mk now (Some "connectors") (Some "identity") None
    (fun _ _ => Ok (Some (Connection.mk (Some
       (ConnectionSettings.mk (Some 100) (Some "token") None))))).

(** An environment without identity, in which every request fails. *)
Definition github_offline (now : Z) : GitHubEnv.t :=
  GitHubEnv.mk now None None None (fun _ _ => Throw "fetch failed").

(** ** client/src/hooks/useWebSocket.ts *)

Inductive ConnectionStatus : Type := connected | disconnected | connecting.

(** The state of one use of the hook: the two state variables, the three
    refs, and what the browser holds for it: the socket objects it created,
    with their states, and the timers that are still to fire. *)
Module Hook.
Record t : Type := mk {
  status : ConnectionStatus;
  error : option string;
  wsRef : option nat;
  reconnectCountRef : nat;
  reconnectTimeoutRef : option nat;
  sockets : gmap nat ReadyState;
  nextSocket : nat;
  timers : gset nat;
  nextTimer : nat;
  outbox : list (nat * string) }.
Definition initial : t :=
  mk disconnected None None 0 None ∅ 0 ∅ 0 [].
End Hook.

Section UseWebSocket.
Import Hook.

(** [reconnectAttempts], 5 unless the caller gives it. *)
Context (reconnectAttempts : nat).

(** [wsRef.current?.readyState === WebSocket.OPEN] *)
Definition ref_is_open (h : Hook.t) : bool :=
  match wsRef h with
  | Some r => bool_decide (sockets h !! r = Some OPEN)
  | None => false
  end.

(** [connect()]; [constructed] tells whether [new WebSocket(wsUrl)] returns
    a socket or throws. *)
Definition connect (constructed : bool) (h : Hook.t) : Hook.t :=
  if ref_is_open h then h
  else if constructed
  then mk connecting None (Some (nextSocket h)) (reconnectCountRef h)
         (reconnectTimeoutRef h) (<[nextSocket h := CONNECTING]> (sockets h))
         (S (nextSocket h)) (timers h) (nextTimer h) (outbox h)
  else mk disconnected (Some "Failed to create WebSocket connection") (wsRef h)
         (reconnectCountRef h) (reconnectTimeoutRef h) (sockets h)
         (nextSocket h) (timers h) (nextTimer h) (outbox h).

(** [socket.onopen] *)
Definition onopen (h : Hook.t) : Hook.t :=
  mk connected None (wsRef h) 0 (reconnectTimeoutRef h) (sockets h)
    (nextSocket h) (timers h) (nextTimer h) (outbox h).

(** [socket.onclose] *)
Definition onclose (wasClean : bool) (h : Hook.t) : Hook.t :=
  if negb wasClean && bool_decide (reconnectCountRef h < reconnectAttempts)%nat
  then mk disconnected (error h) None (S (reconnectCountRef h))
         (Some (nextTimer h)) (sockets h) (nextSocket h)
         ({[nextTimer h]} ∪ timers h) (S (nextTimer h)) (outbox h)
  else mk disconnected (error h) None (reconnectCountRef h)
         (reconnectTimeoutRef h) (sockets h) (nextSocket h) (timers h)
         (nextTimer h) (outbox h).

(** [socket.onerror] *)
Definition onerror (h : Hook.t) : Hook.t :=
  mk disconnected (Some "WebSocket connection error") (wsRef h)
    (reconnectCountRef h) (reconnectTimeoutRef h) (sockets h) (nextSocket h)
    (timers h) (nextTimer h) (outbox h).

(** [disconnect()]: [close()] moves an open or connecting socket to
    [CLOSING]; its close event comes later. *)
Definition disconnect (h : Hook.t) : Hook.t :=
  let timers' :=
    match reconnectTimeoutRef h with
    | Some id => timers h ∖ {[id]}
    | None => timers h
    end in
  let sockets' :=
    match wsRef h with
    | Some r =>
        alter (fun st => match st with
                         | CLOSED => CLOSED
                         | _ => CLOSING
                         end) r (sockets h)
    | None => sockets h
    end in
  mk disconnected (error h) None (reconnectCountRef h) (reconnectTimeoutRef h)
    sockets' (nextSocket h) timers' (nextTimer h) (outbox h).

(** [send(data)] *)
Definition send (data : string) (h : Hook.t) : Hook.t :=
  match wsRef h with
  | Some r =>
      if ref_is_open h
      then mk (status h) (error h) (wsRef h) (reconnectCountRef h)
             (reconnectTimeoutRef h) (sockets h) (nextSocket h) (timers h)
             (nextTimer h) (outbox h ++ [(r, data)])
      else h
  | None => h
  end.

(** What happens to one use of the hook: calls of the functions that it
    returns, events of its sockets, and a timer that fires. *)
Inductive HookEvent : Type :=
| CallConnect (constructed : bool)
| CallDisconnect
| CallSend (data : string)
| SocketOpens (r : nat)
| SocketCloses (r : nat) (wasClean : bool)
| SocketFails (r : nat)
| TimerFires (id : nat) (constructed : bool).

Definition set_socket (r : nat) (st : ReadyState) (h : Hook.t) : Hook.t :=
  mk (status h) (error h) (wsRef h) (reconnectCountRef h)
    (reconnectTimeoutRef h) (<[r := st]> (sockets h)) (nextSocket h)
    (timers h) (nextTimer h) (outbox h).

Definition clear_timer (id : nat) (h : Hook.t) : Hook.t :=
  mk (status h) (error h) (wsRef h) (reconnectCountRef h)
    (reconnectTimeoutRef h) (sockets h) (nextSocket h) (timers h ∖ {[id]})
    (nextTimer h) (outbox h).

(** The browser opens a socket that is connecting, closes a socket that is
    not closed yet, and fires a timer that is pending; anything else does
    not happen. *)
Definition hook_step (h : Hook.t) (ev : HookEvent) : Hook.t :=
  match ev with
  | CallConnect constructed => connect constructed h
  | CallDisconnect => disconnect h
  | CallSend data => send data h
  | SocketOpens r =>
      if bool_decide (sockets h !! r = Some CONNECTING)
      then onopen (set_socket r OPEN h) else h
  | SocketCloses r wasClean =>
      match sockets h !! r with
      | Some CLOSED | None => h
      | Some _ => onclose wasClean (set_socket r CLOSED h)
      end
  | SocketFails r =>
      if bool_decide (is_Some (sockets h !! r)) then onerror h else h
  | TimerFires id constructed =>
      if bool_decide (id ∈ timers h)
      then connect constructed (clear_timer id h) else h
  end.

Definition hook_run (evs : list HookEvent) (h : Hook.t) : Hook.t :=
  foldl hook_step h evs.

(** A socket opens at this event. *)
Definition opens (ev : HookEvent) : Prop :=
  match ev with
  | SocketOpens _ => True
  | _ => False
  end.

End UseWebSocket.

(** ** Invariants of the whole server *)

(** A computation that keeps the property [I] of the state, whatever it
    returns. *)
Definition keeps (I : World.t -> Prop) {A} (m : ST World.t A) : Prop :=
  forall w, I w -> I (snd (m w)).

Global Instance StreamEventType_eq_dec : EqDecision StreamEventType.
Proof. solve_decision. Defined.

(** The types of the events that the routes and the connection handler
    build. *)
Definition published_kinds : list StreamEventType :=
  [session_start; log_line; task_start; task_step; task_complete;
   approval_resolved].

(** Every frame handed to a socket carries an event of these types. *)
Definition frames_ok (s : StreamingService.t) : Prop :=
  forall r w, StreamingService.sockets s !! r = Some w ->
    Forall (fun f => StreamEvent.type f ∈ published_kinds) (WebSocket.sent w).

Definition world_frames_ok (w : World.t) : Prop :=
  frames_ok (World.streamingService w).

(** The table of approvals is empty. *)
Definition no_approvals (w : World.t) : Prop :=
  Db.approvals (World.db w) = ∅.

(** * Properties *)

(** ** The state monad *)

Lemma bind_ok {S A B} (m : ST S A) (k : A -> ST S B) s a s' :
  m s = (Ok a, s') -> bind m k s = k a s'.
Proof. intros H. unfold bind. by rewrite H. Qed.

(** ** The heap of sockets *)

Lemma push_readyState m w :
  WebSocket.readyState (push m w) = WebSocket.readyState w.
Proof. unfold push. case_decide; simpl; congruence. Qed.

Lemma push_listeners m w :
  WebSocket.listeners (push m w) = WebSocket.listeners w.
Proof. unfold push. by case_decide. Qed.

Lemma push_open m w :
  WebSocket.readyState w = OPEN ->
  WebSocket.sent (push m w) = WebSocket.sent w ++ [m].
Proof. intros H. unfold push. by rewrite decide_True. Qed.

Lemma push_not_open m w :
  WebSocket.readyState w <> OPEN -> push m w = w.
Proof. intros H. unfold push. by rewrite decide_False. Qed.

Lemma deliver_all_cons m r refs h :
  deliver_all m (r :: refs) h = deliver_all m refs (alter (push m) r h).
Proof. reflexivity. Qed.

Lemma deliver_all_notin m refs h r :
  r ∉ refs -> deliver_all m refs h !! r = h !! r.
Proof.
  revert h. induction refs as [|r0 refs IH]; intros h Hr; [done|].
  apply not_elem_of_cons in Hr as [Hne Hr].
  rewrite deliver_all_cons, IH by done.
  by rewrite lookup_alter_ne.
Qed.

Lemma deliver_all_once m refs h r :
  NoDup refs -> r ∈ refs -> deliver_all m refs h !! r = push m <$> h !! r.
Proof.
  revert h. induction refs as [|r0 refs IH]; intros h Hnd Hr.
  - by apply elem_of_nil in Hr.
  - apply NoDup_cons in Hnd as [Hnotin Hnd].
    rewrite deliver_all_cons.
    destruct (decide (r = r0)) as [->|Hne].
    + rewrite deliver_all_notin by done. by rewrite lookup_alter_eq.
    + apply elem_of_cons in Hr as [?|Hr]; [done|].
      rewrite IH by done. by rewrite lookup_alter_ne.
Qed.

(** Delivery never allocates, frees, re-opens or re-wires a socket; it only
    appends copies of the frame. *)
Lemma deliver_all_shape m refs h r :
  match deliver_all m refs h !! r, h !! r with
  | Some w', Some w =>
      WebSocket.readyState w' = WebSocket.readyState w
      /\ WebSocket.listeners w' = WebSocket.listeners w
      /\ exists k, WebSocket.sent w' = WebSocket.sent w ++ replicate k m
  | None, None => True
  | _, _ => False
  end.
Proof.
  revert h. induction refs as [|r0 refs IH]; intros h.
  - simpl. destruct (h !! r) as [w|]; [|done].
    repeat split. exists 0%nat. simpl. by rewrite app_nil_r.
  - rewrite deliver_all_cons. specialize (IH (alter (push m) r0 h)).
    destruct (deliver_all m refs (alter (push m) r0 h) !! r) as [w'|].
    + destruct (decide (r = r0)) as [->|Hne].
      * rewrite lookup_alter_eq in IH.
        destruct (h !! r0) as [w|]; simpl in IH; [|done].
        destruct IH as (Hrs & Hl & k & Hk).
        rewrite push_readyState in Hrs. rewrite push_listeners in Hl.
        repeat split; [done..|].
        unfold push in Hk. case_decide; simpl in Hk.
        -- exists (S k). rewrite Hk, <- app_assoc. done.
        -- by exists k.
      * by rewrite lookup_alter_ne in IH.
    + destruct (decide (r = r0)) as [->|Hne].
      * rewrite lookup_alter_eq in IH. by destruct (h !! r0).
      * by rewrite lookup_alter_ne in IH.
Qed.

(** ** The operations of the streaming service *)

Lemma set_sockets_id s : set_sockets (fun h => h) s = s.
Proof. by destruct s. Qed.

Lemma ws_get_some s r w :
  StreamingService.sockets s !! r = Some w -> ws_get r s = (Ok w, s).
Proof. intros H. unfold ws_get. by rewrite H. Qed.

Lemma ws_get_none {A} s r (k : WebSocket.t -> ST StreamingService.t A) :
  StreamingService.sockets s !! r = None ->
  snd (bind (ws_get r) k s) = s.
Proof. intros H. unfold bind, ws_get. by rewrite H. Qed.

(** The guarded send of [sendToClient] and of the loop of [broadcast]. *)
Lemma guarded_send s r m :
  is_Some (StreamingService.sockets s !! r) ->
  bind (ws_get r) (fun w =>
    if decide (WebSocket.readyState w = OPEN) then ws_send r m else ret tt) s
  = (Ok tt, set_sockets (alter (push m) r) s).
Proof.
  intros [w Hw]. rewrite (bind_ok _ _ _ _ _ (ws_get_some _ _ _ Hw)).
  case_decide as Hopen.
  - unfold ws_send. rewrite (bind_ok _ _ _ _ _ (ws_get_some _ _ _ Hw)).
    rewrite Hopen. unfold modify. f_equal. unfold set_sockets. f_equal.
    apply map_eq. intros j. destruct (decide (r = j)) as [<-|Hne].
    + rewrite lookup_insert_eq, lookup_alter_eq, Hw. simpl.
      unfold push. by rewrite decide_True.
    + by rewrite lookup_insert_ne, lookup_alter_ne.
  - unfold ret. f_equal. rewrite <- (set_sockets_id s) at 1.
    unfold set_sockets. f_equal. symmetry. apply alter_id.
    intros x Hx. rewrite Hw in Hx. injection Hx as <-.
    by apply push_not_open.
Qed.

Lemma sendToClient_spec s c e :
  is_Some (StreamingService.sockets s !! WebSocketClient.ws c) ->
  sendToClient c e s
  = (Ok tt, set_sockets (alter (push (JSON_stringify e)) (WebSocketClient.ws c)) s).
Proof. intros H. unfold sendToClient. by apply guarded_send. Qed.

Lemma broadcast_loop_spec m cs s :
  Forall (fun c => is_Some (StreamingService.sockets s !! WebSocketClient.ws c)) cs ->
  for_of cs (fun client =>
    bind (ws_get (WebSocketClient.ws client)) (fun w =>
      if decide (WebSocket.readyState w = OPEN)
      then ws_send (WebSocketClient.ws client) m else ret tt)) s
  = (Ok tt, set_sockets (deliver_all m (WebSocketClient.ws <$> cs)) s).
Proof.
  revert s. induction cs as [|c cs IH]; intros s Hall.
  - simpl. unfold ret. by rewrite set_sockets_id.
  - apply Forall_cons in Hall as [Hc Hall]. simpl for_of.
    rewrite (bind_ok _ _ _ _ _ (guarded_send _ _ _ Hc)).
    rewrite IH.
    + reflexivity.
    + eapply Forall_impl; [exact Hall|]. intros c' Hc'. simpl.
      by apply lookup_alter_is_Some.
Qed.

(** [broadcast] returns normally and its whole effect is the delivery of the
    frame to the sockets of the session's clients. *)
Lemma broadcast_spec s sid e :
  sockets_allocated s ->
  broadcast sid e s
  = (Ok tt, set_sockets
      (deliver_all (JSON_stringify e) (WebSocketClient.ws <$> observers s sid)) s).
Proof.
  intros Halloc. unfold broadcast, bind at 1, gets.
  apply broadcast_loop_spec. apply Forall_forall. intros c Hc.
  unfold observers in Hc.
  destruct (StreamingService.clients s !! sid) as [cs|] eqn:Hcs; simpl in Hc.
  - exact (Halloc _ _ _ Hcs Hc).
  - by apply elem_of_nil in Hc.
Qed.

Lemma svc_inv_allocated s : svc_inv s -> sockets_allocated s.
Proof.
  intros (H1 & _ & _) sid cs c Hcs Hc.
  destruct (H1 _ _ Hcs) as [_ H]. destruct (H _ Hc) as (w & Hw & _). eauto.
Qed.

Lemma NoDup_fmap_filter {A B} (f : A -> B) (P : A -> Prop)
  `{forall x, Decision (P x)} (l : list A) :
  NoDup (f <$> l) -> NoDup (f <$> filter P l).
Proof.
  induction l as [|x l IH]; [done|]. rewrite fmap_cons, NoDup_cons.
  intros [Hx Hl]. rewrite filter_cons. case_decide; [|by apply IH].
  rewrite fmap_cons, NoDup_cons. split; [|by apply IH].
  intros Hin. apply Hx. apply list_elem_of_fmap in Hin as (y & -> & Hy).
  apply list_elem_of_filter in Hy as [_ Hy]. by apply list_elem_of_fmap_2.
Qed.

(** The invariant survives any rewriting of one socket that keeps its
    listeners. *)
Lemma svc_inv_alter f r s :
  (forall w, WebSocket.listeners (f w) = WebSocket.listeners w) ->
  svc_inv s -> svc_inv (set_sockets (alter f r) s).
Proof.
  intros Hf (H1 & H2 & H3). split; [|split]; simpl.
  - intros sid cs Hcs. destruct (H1 _ _ Hcs) as [Hnd Hin]. split; [done|].
    intros c Hc. destruct (Hin _ Hc) as (w & Hw & Hl).
    destruct (decide (r = WebSocketClient.ws c)) as [->|Hne].
    + exists (f w). rewrite lookup_alter_eq, Hw. split; [done|]. by rewrite Hf.
    + exists w. by rewrite lookup_alter_ne.
  - intros r' w' Hw'. destruct (decide (r = r')) as [->|Hne].
    + rewrite lookup_alter_eq in Hw'.
      destruct (StreamingService.sockets s !! r') as [w|] eqn:Hw; [|done].
      by eapply H2.
    + rewrite lookup_alter_ne in Hw' by done. by eapply H2.
  - intros r' w' sid c Hw' Hl. destruct (decide (r = r')) as [->|Hne].
    + rewrite lookup_alter_eq in Hw'.
      destruct (StreamingService.sockets s !! r') as [w|] eqn:Hw; [|done].
      simpl in Hw'. injection Hw' as <-. rewrite Hf in Hl. by eapply H3.
    + rewrite lookup_alter_ne in Hw' by done. by eapply H3.
Qed.

Lemma svc_inv_deliver_all m refs s :
  svc_inv s -> svc_inv (set_sockets (deliver_all m refs) s).
Proof.
  revert s. induction refs as [|r refs IH]; intros s Hs.
  - by rewrite set_sockets_id.
  - change (set_sockets (deliver_all m (r :: refs)) s)
      with (set_sockets (deliver_all m refs) (set_sockets (alter (push m) r) s)).
    apply IH, svc_inv_alter; [|done]. intros w. apply push_listeners.
Qed.

Lemma svc_inv_broadcast sid e s :
  svc_inv s -> svc_inv (snd (broadcast sid e s)).
Proof.
  intros Hs. rewrite broadcast_spec by by apply svc_inv_allocated.
  by apply svc_inv_deliver_all.
Qed.

(** Rewriting a socket found in the heap is an [alter]. *)
Lemma insert_as_alter (h : gmap nat WebSocket.t) r w f :
  h !! r = Some w -> <[r := f w]> h = alter f r h.
Proof.
  intros Hw. apply map_eq. intros j. destruct (decide (r = j)) as [<-|Hne].
  - by rewrite lookup_insert_eq, lookup_alter_eq, Hw.
  - by rewrite lookup_insert_ne, lookup_alter_ne.
Qed.

Lemma removeClient_spec sid c s :
  removeClient sid c s
  = (Ok tt,
     let filtered := filter (fun c' => WebSocketClient.ws c' <> WebSocketClient.ws c)
                       (observers s sid) in
     set_clients (if decide (0 < length filtered)%nat
                  then insert sid filtered else delete sid) s).
Proof.
  unfold removeClient, bind, gets, observers. simpl.
  by case_decide.
Qed.

Lemma removeClient_observers sid c s sid' :
  observers (snd (removeClient sid c s)) sid'
  = if decide (sid = sid')
    then filter (fun c' => WebSocketClient.ws c' <> WebSocketClient.ws c)
           (observers s sid)
    else observers s sid'.
Proof.
  rewrite removeClient_spec. unfold observers at 1. simpl.
  case_decide as Hlen; simpl.
  - case_decide as Hsid.
    + subst. by rewrite lookup_insert_eq.
    + by rewrite lookup_insert_ne.
  - case_decide as Hsid.
    + subst. rewrite lookup_delete_eq. simpl.
      destruct (filter _ _) as [|x l] eqn:Hf; [done|].
      simpl in Hlen. lia.
    + by rewrite lookup_delete_ne.
Qed.

Lemma removeClient_sockets sid c s :
  StreamingService.sockets (snd (removeClient sid c s))
  = StreamingService.sockets s.
Proof. rewrite removeClient_spec. reflexivity. Qed.

Lemma removeClient_nextSocket sid c s :
  StreamingService.nextSocket (snd (removeClient sid c s))
  = StreamingService.nextSocket s.
Proof. rewrite removeClient_spec. reflexivity. Qed.

Lemma clients_observers s sid cs :
  StreamingService.clients s !! sid = Some cs -> observers s sid = cs.
Proof. intros H. unfold observers. by rewrite H. Qed.

Lemma removeClient_clients_some sid c s sid' cs' :
  StreamingService.clients (snd (removeClient sid c s)) !! sid' = Some cs' ->
  exists cs, StreamingService.clients s !! sid' = Some cs
             /\ cs' = if decide (sid = sid')
                      then filter (fun c' => WebSocketClient.ws c'
                                             <> WebSocketClient.ws c) cs
                      else cs.
Proof.
  rewrite removeClient_spec. simpl. unfold observers.
  case_decide as Hlen; simpl; intros H.
  - destruct (decide (sid = sid')) as [<-|Hne].
    + rewrite lookup_insert_eq in H. injection H as <-.
      destruct (StreamingService.clients s !! sid) as [cs|] eqn:Hcs.
      * by exists cs.
      * simpl in Hlen. lia.
    + rewrite lookup_insert_ne in H by done. by exists cs'.
  - destruct (decide (sid = sid')) as [<-|Hne].
    + by rewrite lookup_delete_eq in H.
    + rewrite lookup_delete_ne in H by done. by exists cs'.
Qed.

Lemma svc_inv_removeClient sid c s :
  svc_inv s -> svc_inv (snd (removeClient sid c s)).
Proof.
  intros (H1 & H2 & H3). split; [|split].
  - intros sid' cs' Hcs'.
    apply removeClient_clients_some in Hcs' as (cs & Hcs & ->).
    destruct (H1 _ _ Hcs) as [Hnd Hin]. rewrite removeClient_sockets.
    case_decide.
    + split; [by apply NoDup_fmap_filter|].
      intros c' Hc'. apply list_elem_of_filter in Hc' as [_ Hc']. by apply Hin.
    + by split.
  - rewrite removeClient_sockets, removeClient_nextSocket. exact H2.
  - rewrite removeClient_sockets. exact H3.
Qed.

(** ** The events of the transport *)

Lemma ws_set_state_spec s r st :
  snd (ws_set_state r st s) = set_sockets (alter (with_state st) r) s.
Proof.
  unfold ws_set_state.
  destruct (StreamingService.sockets s !! r) as [w|] eqn:Hw.
  - rewrite (bind_ok _ _ _ _ _ (ws_get_some _ _ _ Hw)). unfold modify. simpl.
    unfold set_sockets. f_equal. by apply insert_as_alter.
  - rewrite ws_get_none by done. rewrite <- (set_sockets_id s) at 1.
    unfold set_sockets. f_equal. symmetry. apply alter_id. intros x Hx. congruence.
Qed.

Lemma on_error_spec s r :
  snd (on_error r s)
  = match StreamingService.sockets s !! r with
    | Some w =>
        match WebSocket.listeners w with
        | Some (sid, c) => snd (removeClient sid c s)
        | None => s
        end
    | None => s
    end.
Proof.
  unfold on_error.
  destruct (StreamingService.sockets s !! r) as [w|] eqn:Hw.
  - rewrite (bind_ok _ _ _ _ _ (ws_get_some _ _ _ Hw)).
    by destruct (WebSocket.listeners w) as [[sid c]|].
  - by rewrite ws_get_none.
Qed.

Lemma on_close_spec s r :
  snd (on_close r s)
  = match StreamingService.sockets s !! r with
    | Some w =>
        let s1 := set_sockets (alter (with_state CLOSED) r) s in
        match WebSocket.listeners w with
        | Some (sid, c) => snd (removeClient sid c s1)
        | None => s1
        end
    | None => s
    end.
Proof.
  unfold on_close.
  destruct (StreamingService.sockets s !! r) as [w|] eqn:Hw.
  - rewrite (bind_ok _ _ _ _ _ (ws_get_some _ _ _ Hw)).
    unfold bind at 1, modify. simpl.
    replace (set_sockets (insert r (with_state CLOSED w)) s)
      with (set_sockets (alter (with_state CLOSED) r) s)
      by (unfold set_sockets; f_equal; symmetry; by apply insert_as_alter).
    by destruct (WebSocket.listeners w) as [[sid c]|].
  - by rewrite ws_get_none.
Qed.

Lemma on_message_spec now s r message :
  snd (on_message now r message s)
  = match StreamingService.sockets s !! r with
    | Some w =>
        match WebSocket.listeners w, message with
        | Some (_, c), Some ping =>
            snd (sendToClient c
                   (StreamEvent.mk session_start (WebSocketClient.sessionId c)
                      None now DataPong) s)
        | _, _ => s
        end
    | None => s
    end.
Proof.
  unfold on_message.
  destruct (StreamingService.sockets s !! r) as [w|] eqn:Hw.
  - rewrite (bind_ok _ _ _ _ _ (ws_get_some _ _ _ Hw)).
    destruct (WebSocket.listeners w) as [[sid c]|]; [|done].
    destruct message as [[| |]|]; try done.
    unfold try_catch, handleClientMessage.
    by destruct (sendToClient _ _ s) as [[[]|e] s'].
  - by rewrite ws_get_none.
Qed.

(** The state after a connection was accepted and its handler has run. *)
Lemma on_connection_spec now s q_session q_user :
  let r := StreamingService.nextSocket s in
  let sid := sessionId_of_url q_session in
  let client := WebSocketClient.mk r sid (or_undefined q_user) in
  let ack := StreamEvent.mk session_start sid None now
               (DataMessage "Connected to streaming service") in
  snd (ws_event now (WsConnection q_session q_user) s)
  = StreamingService.mk
      (<[sid := observers s sid ++ [client]]> (StreamingService.clients s))
      (<[r := WebSocket.mk OPEN [JSON_stringify ack] (Some (sid, client))]>
         (StreamingService.sockets s))
      (S r).
Proof.
  intros r sid client ack. simpl.
  unfold on_connection, wss_accept, addClient, sendToClient, ws_send, ws_get.
  unfold bind, gets, modify, ret. simpl.
  rewrite !lookup_insert_eq. simpl. rewrite !lookup_insert_eq. simpl.
  unfold set_sockets, set_clients, observers.
  repeat (progress (simpl; rewrite ?lookup_insert_eq, ?insert_insert_eq)).
  reflexivity.
Qed.

(** ** The invariant holds in every reachable state of the service *)

Lemma observers_elem s sid c :
  c ∈ observers s sid ->
  exists cs, StreamingService.clients s !! sid = Some cs /\ c ∈ cs.
Proof.
  unfold observers. destruct (StreamingService.clients s !! sid) as [cs|]; simpl.
  - intros Hc. by exists cs.
  - intros Hc. by apply elem_of_nil in Hc.
Qed.

Lemma svc_inv_observer s sid c :
  svc_inv s -> c ∈ observers s sid ->
  exists w, StreamingService.sockets s !! WebSocketClient.ws c = Some w
            /\ WebSocket.listeners w = Some (sid, c)
            /\ (WebSocketClient.ws c < StreamingService.nextSocket s)%nat.
Proof.
  intros (H1 & H2 & _) Hc. apply observers_elem in Hc as (cs & Hcs & Hc).
  destruct (H1 _ _ Hcs) as [_ Hin]. destruct (Hin _ Hc) as (w & Hw & Hl).
  exists w. repeat split; [done..|]. by eapply H2.
Qed.

Lemma svc_inv_observers_NoDup s sid :
  svc_inv s -> NoDup (WebSocketClient.ws <$> observers s sid).
Proof.
  intros (H1 & _). unfold observers.
  destruct (StreamingService.clients s !! sid) as [cs|] eqn:Hcs; simpl.
  - by destruct (H1 _ _ Hcs).
  - constructor.
Qed.

Lemma svc_inv_empty : svc_inv StreamingService.empty.
Proof.
  split; [|split]; simpl.
  - intros sid cs H. by rewrite lookup_empty in H.
  - intros r w H. by rewrite lookup_empty in H.
  - intros r w sid c H. by rewrite lookup_empty in H.
Qed.

Lemma svc_inv_connection now q_session q_user s :
  svc_inv s -> svc_inv (snd (ws_event now (WsConnection q_session q_user) s)).
Proof.
  intros Hs. rewrite on_connection_spec.
  set (r := StreamingService.nextSocket s).
  set (sid := sessionId_of_url q_session).
  set (client := WebSocketClient.mk r sid (or_undefined q_user)).
  set (W := WebSocket.mk OPEN _ _).
  assert (Hfresh : forall sid' c, c ∈ observers s sid' -> WebSocketClient.ws c <> r).
  { intros sid' c Hc. destruct (svc_inv_observer _ _ _ Hs Hc) as (_ & _ & _ & Hlt).
    unfold r. lia. }
  split; [|split]; simpl.
  - intros sid' cs' Hcs'. destruct (decide (sid = sid')) as [<-|Hne].
    + rewrite lookup_insert_eq in Hcs'. injection Hcs' as <-. split.
      * rewrite fmap_app. apply NoDup_app. split; [by apply svc_inv_observers_NoDup|].
        split; [|apply NoDup_singleton].
        intros x Hx Hx'. apply list_elem_of_fmap in Hx as (c & -> & Hc).
        apply list_elem_of_singleton in Hx'. by eapply Hfresh.
      * intros c Hc. apply elem_of_app in Hc as [Hc|Hc].
        -- destruct (svc_inv_observer _ _ _ Hs Hc) as (w & Hw & Hl & _).
           exists w. rewrite lookup_insert_ne; [done|].
           intros Heq. by eapply Hfresh.
        -- apply list_elem_of_singleton in Hc as ->. exists W.
           by rewrite lookup_insert_eq.
    + rewrite lookup_insert_ne in Hcs' by done. split.
      * rewrite <- (clients_observers _ _ _ Hcs'). by apply svc_inv_observers_NoDup.
      * intros c Hc. rewrite <- (clients_observers _ _ _ Hcs') in Hc.
        destruct (svc_inv_observer _ _ _ Hs Hc) as (w & Hw & Hl & _).
        exists w. rewrite lookup_insert_ne; [done|].
        intros Heq. by eapply Hfresh.
  - intros r' w' Hw'. destruct (decide (r = r')) as [<-|Hne]; [lia|].
    rewrite lookup_insert_ne in Hw' by done.
    destruct Hs as (_ & H2 & _). specialize (H2 _ _ Hw'). unfold r. lia.
  - intros r' w' sid' c Hw' Hl. destruct (decide (r = r')) as [<-|Hne].
    + rewrite lookup_insert_eq in Hw'. injection Hw' as <-. simpl in Hl.
      by injection Hl as <- <-.
    + rewrite lookup_insert_ne in Hw' by done.
      destruct Hs as (_ & _ & H3). by eapply H3.
Qed.

Lemma svc_inv_ws_event now e s :
  svc_inv s -> svc_inv (snd (ws_event now e s)).
Proof.
  intros Hs. destruct e as [qs qu|r message|r|r|r st].
  - by apply svc_inv_connection.
  - simpl. rewrite on_message_spec.
    destruct (StreamingService.sockets s !! r) as [w|] eqn:Hw; [|done].
    destruct (WebSocket.listeners w) as [[sid c]|] eqn:Hl; [|done].
    destruct message as [[| |]|]; try done.
    destruct Hs as (H1 & H2 & H3). pose proof (H3 _ _ _ _ Hw Hl) as Hc.
    rewrite sendToClient_spec by (rewrite Hc, Hw; eauto).
    apply svc_inv_alter; [apply push_listeners|done].
  - simpl. rewrite on_close_spec.
    destruct (StreamingService.sockets s !! r) as [w|] eqn:Hw; [|done].
    assert (svc_inv (set_sockets (alter (with_state CLOSED) r) s)) as Hs1
      by (by apply svc_inv_alter).
    simpl. destruct (WebSocket.listeners w) as [[sid c]|]; [|done].
    by apply svc_inv_removeClient.
  - simpl. rewrite on_error_spec.
    destruct (StreamingService.sockets s !! r) as [w|] eqn:Hw; [|done].
    destruct (WebSocket.listeners w) as [[sid c]|]; [|done].
    by apply svc_inv_removeClient.
  - simpl. rewrite ws_set_state_spec. by apply svc_inv_alter.
Qed.

Lemma svc_inv_step s op : svc_inv s -> svc_inv (svc_step s op).
Proof.
  intros Hs. destruct op as [now e|sid event]; simpl.
  - by apply svc_inv_ws_event.
  - by apply svc_inv_broadcast.
Qed.

Lemma svc_inv_run ops s : svc_inv s -> svc_inv (svc_run ops s).
Proof.
  revert s. induction ops as [|op ops IH]; intros s Hs; [done|].
  simpl. apply IH. by apply svc_inv_step.
Qed.

Lemma svc_reachable_inv s : svc_reachable s -> svc_inv s.
Proof. intros [ops ->]. apply svc_inv_run, svc_inv_empty. Qed.

(** ** What a broadcast does to each socket *)

Lemma broadcast_ok s sid e :
  svc_inv s -> fst (broadcast sid e s) = Ok tt.
Proof. intros Hs. by rewrite broadcast_spec by by apply svc_inv_allocated. Qed.

Lemma broadcast_clients s sid e :
  svc_inv s ->
  StreamingService.clients (snd (broadcast sid e s)) = StreamingService.clients s.
Proof. intros Hs. by rewrite broadcast_spec by by apply svc_inv_allocated. Qed.

Lemma broadcast_observers s sid e sid' :
  svc_inv s -> observers (snd (broadcast sid e s)) sid' = observers s sid'.
Proof. intros Hs. unfold observers. by rewrite broadcast_clients. Qed.

Lemma broadcast_lookup s sid e r :
  svc_inv s ->
  StreamingService.sockets (snd (broadcast sid e s)) !! r
  = if decide (subscribed s sid r)
    then push (JSON_stringify e) <$> StreamingService.sockets s !! r
    else StreamingService.sockets s !! r.
Proof.
  intros Hs. rewrite broadcast_spec by by apply svc_inv_allocated. simpl.
  case_decide as Hsub.
  - apply deliver_all_once; [by apply svc_inv_observers_NoDup|done].
  - by apply deliver_all_notin.
Qed.

Lemma broadcast_sent_open s sid e r :
  svc_inv s -> subscribed s sid r -> is_open s r ->
  sent_to (snd (broadcast sid e s)) r = sent_to s r ++ [JSON_stringify e].
Proof.
  intros Hs Hsub (w & Hw & Hopen). unfold sent_to.
  rewrite broadcast_lookup, decide_True, Hw by done. simpl.
  by apply push_open.
Qed.

Lemma broadcast_sent_not_open s sid e r :
  svc_inv s -> ~ is_open s r ->
  sent_to (snd (broadcast sid e s)) r = sent_to s r.
Proof.
  intros Hs Hno. unfold sent_to. rewrite broadcast_lookup by done.
  case_decide; [|done].
  destruct (StreamingService.sockets s !! r) as [w|] eqn:Hw; [|done]. simpl.
  rewrite push_not_open; [done|]. intros Hopen. apply Hno. by exists w.
Qed.

Lemma broadcast_sent_other s sid e r :
  svc_inv s -> ~ subscribed s sid r ->
  sent_to (snd (broadcast sid e s)) r = sent_to s r.
Proof.
  intros Hs Hno. unfold sent_to. by rewrite broadcast_lookup, decide_False.
Qed.

Lemma broadcast_is_open s sid e r :
  svc_inv s -> is_open (snd (broadcast sid e s)) r <-> is_open s r.
Proof.
  intros Hs. unfold is_open. rewrite broadcast_lookup by done.
  case_decide; [|done].
  destruct (StreamingService.sockets s !! r) as [w|]; simpl.
  - split; intros (w' & Hw' & Ho); injection Hw' as <-.
    + exists w. split; [done|]. by rewrite push_readyState in Ho.
    + exists (push (JSON_stringify e) w). split; [done|].
      by rewrite push_readyState.
  - split; intros (w' & Hw' & _); done.
Qed.

Lemma broadcast_none s sid e :
  svc_inv s -> observers s sid = [] -> broadcast sid e s = (Ok tt, s).
Proof.
  intros Hs Hnone. rewrite broadcast_spec by by apply svc_inv_allocated.
  rewrite Hnone. simpl. by rewrite set_sockets_id.
Qed.

(** Publishing a list of events in order appends them in that order. *)
Lemma publish_in_order s sid es r :
  svc_inv s -> subscribed s sid r -> is_open s r ->
  sent_to (svc_run (OpBroadcast sid <$> es) s) r
  = sent_to s r ++ (JSON_stringify <$> es).
Proof.
  revert s. induction es as [|e es IH]; intros s Hs Hsub Hopen.
  - simpl. by rewrite app_nil_r.
  - simpl. rewrite IH.
    + rewrite broadcast_sent_open by done. by rewrite <- app_assoc.
    + by apply svc_inv_broadcast.
    + unfold subscribed. by rewrite broadcast_observers.
    + by apply broadcast_is_open.
Qed.

(** ** Unsubscribing *)

Lemma subscribed_inv s sid r :
  svc_inv s -> subscribed s sid r ->
  exists c w, c ∈ observers s sid /\ WebSocketClient.ws c = r
              /\ StreamingService.sockets s !! r = Some w
              /\ WebSocket.listeners w = Some (sid, c).
Proof.
  intros Hs Hsub. apply list_elem_of_fmap in Hsub as (c & -> & Hc).
  destruct (svc_inv_observer _ _ _ Hs Hc) as (w & Hw & Hl & _).
  by exists c, w.
Qed.

(** A socket is registered under one session only. *)
Lemma subscribed_unique s sid sid' r :
  svc_inv s -> subscribed s sid r -> subscribed s sid' r -> sid = sid'.
Proof.
  intros Hs H1 H2.
  destruct (subscribed_inv _ _ _ Hs H1) as (c1 & w1 & _ & _ & Hw1 & Hl1).
  destruct (subscribed_inv _ _ _ Hs H2) as (c2 & w2 & _ & _ & Hw2 & Hl2).
  congruence.
Qed.

Lemma subscribed_removeClient s sid c sid' r' :
  svc_inv s -> subscribed s sid (WebSocketClient.ws c) ->
  subscribed (snd (removeClient sid c s)) sid' r'
  <-> subscribed s sid' r' /\ r' <> WebSocketClient.ws c.
Proof.
  intros Hs Hsub. unfold subscribed at 1. rewrite removeClient_observers.
  case_decide as Hsid.
  - subst sid'. rewrite list_elem_of_fmap. split.
    + intros (c' & -> & Hc'). apply list_elem_of_filter in Hc' as [Hne Hc'].
      split; [|done]. by apply list_elem_of_fmap_2.
    + intros [Hr' Hne]. apply list_elem_of_fmap in Hr' as (c' & -> & Hc').
      exists c'. split; [done|]. by apply list_elem_of_filter.
  - split.
    + intros Hr'. split; [done|]. intros ->. apply Hsid.
      by eapply subscribed_unique.
    + by intros [Hr' _].
Qed.

(** The error listener removes exactly the socket that failed. *)
Lemma on_error_subscribed s sid r sid' r' :
  svc_inv s -> subscribed s sid r ->
  subscribed (snd (on_error r s)) sid' r' <-> subscribed s sid' r' /\ r' <> r.
Proof.
  intros Hs Hsub.
  destruct (subscribed_inv _ _ _ Hs Hsub) as (c & w & Hc & Hr & Hw & Hl).
  rewrite on_error_spec, Hw, Hl. subst r. by apply subscribed_removeClient.
Qed.

Lemma on_error_sockets s r :
  StreamingService.sockets (snd (on_error r s)) = StreamingService.sockets s.
Proof.
  rewrite on_error_spec.
  destruct (StreamingService.sockets s !! r) as [w|]; [|done].
  destruct (WebSocket.listeners w) as [[sid c]|]; [|done].
  apply removeClient_sockets.
Qed.

(** So does the close listener. *)
Lemma on_close_subscribed s sid r sid' r' :
  svc_inv s -> subscribed s sid r ->
  subscribed (snd (on_close r s)) sid' r' <-> subscribed s sid' r' /\ r' <> r.
Proof.
  intros Hs Hsub.
  destruct (subscribed_inv _ _ _ Hs Hsub) as (c & w & Hc & Hr & Hw & Hl).
  rewrite on_close_spec, Hw. simpl. rewrite Hl. subst r.
  apply (subscribed_removeClient (set_sockets (alter (with_state CLOSED)
                                                (WebSocketClient.ws c)) s)).
  - by apply svc_inv_alter.
  - done.
Qed.

(** No operation registers a socket that was allocated before it. *)
Lemma svc_step_observers s op sid c :
  svc_inv s -> c ∈ observers (svc_step s op) sid ->
  c ∈ observers s sid \/ WebSocketClient.ws c = StreamingService.nextSocket s.
Proof.
  intros Hs. destruct op as [now [qs qu|r message|r|r|r st]|sid' event]; unfold svc_step.
  - rewrite on_connection_spec. unfold observers at 1. simpl.
    destruct (decide (sessionId_of_url qs = sid)) as [<-|Hne].
    + rewrite lookup_insert_eq. simpl. intros Hc.
      apply elem_of_app in Hc as [Hc|Hc]; [by left|].
      apply list_elem_of_singleton in Hc as ->. by right.
    + rewrite lookup_insert_ne by done. by left.
  - cbn [ws_event]. rewrite on_message_spec.
    destruct (StreamingService.sockets s !! r) as [w|] eqn:Hw; [|by left].
    destruct (WebSocket.listeners w) as [[sid' c']|] eqn:Hl; [|by left].
    destruct message as [[| |]|]; try by left.
    destruct Hs as (H1 & H2 & H3). pose proof (H3 _ _ _ _ Hw Hl) as Hc.
    rewrite sendToClient_spec by (rewrite Hc, Hw; eauto). by left.
  - cbn [ws_event]. rewrite on_close_spec.
    destruct (StreamingService.sockets s !! r) as [w|] eqn:Hw; [|by left].
    simpl. destruct (WebSocket.listeners w) as [[sid' c']|]; [|by left].
    rewrite removeClient_observers. case_decide; [|by left].
    subst. intros Hc. apply list_elem_of_filter in Hc as [_ Hc]. by left.
  - cbn [ws_event]. rewrite on_error_spec.
    destruct (StreamingService.sockets s !! r) as [w|] eqn:Hw; [|by left].
    destruct (WebSocket.listeners w) as [[sid' c']|]; [|by left].
    rewrite removeClient_observers. case_decide; [|by left].
    subst. intros Hc. apply list_elem_of_filter in Hc as [_ Hc]. by left.
  - cbn [ws_event]. rewrite ws_set_state_spec. by left.
  - rewrite broadcast_observers by done. by left.
Qed.

Lemma svc_step_nextSocket s op :
  svc_inv s ->
  (StreamingService.nextSocket s <= StreamingService.nextSocket (svc_step s op))%nat.
Proof.
  intros Hs. destruct op as [now [qs qu|r message|r|r|r st]|sid' event]; unfold svc_step.
  - rewrite on_connection_spec. simpl. lia.
  - cbn [ws_event]. rewrite on_message_spec.
    destruct (StreamingService.sockets s !! r) as [w|] eqn:Hw; [|done].
    destruct (WebSocket.listeners w) as [[sid' c']|] eqn:Hl; [|done].
    destruct message as [[| |]|]; try done.
    destruct Hs as (H1 & H2 & H3). pose proof (H3 _ _ _ _ Hw Hl) as Hc.
    by rewrite sendToClient_spec by (rewrite Hc, Hw; eauto).
  - cbn [ws_event]. rewrite on_close_spec.
    destruct (StreamingService.sockets s !! r) as [w|] eqn:Hw; [|done].
    simpl. destruct (WebSocket.listeners w) as [[sid' c']|]; [|done].
    by rewrite removeClient_nextSocket.
  - cbn [ws_event]. rewrite on_error_spec.
    destruct (StreamingService.sockets s !! r) as [w|] eqn:Hw; [|done].
    destruct (WebSocket.listeners w) as [[sid' c']|]; [|done].
    by rewrite removeClient_nextSocket.
  - cbn [ws_event]. by rewrite ws_set_state_spec.
  - by rewrite broadcast_spec by by apply svc_inv_allocated.
Qed.

(** Once a socket is registered nowhere, it stays so. *)
Lemma unsubscribed_run ops s r :
  svc_inv s -> unsubscribed s r -> (r < StreamingService.nextSocket s)%nat ->
  unsubscribed (svc_run ops s) r.
Proof.
  revert s. induction ops as [|op ops IH]; intros s Hs Hun Hlt; [done|].
  simpl. apply IH.
  - by apply svc_inv_step.
  - intros sid Hsub. apply list_elem_of_fmap in Hsub as (c & Hr & Hc).
    apply svc_step_observers in Hc as [Hc|Hc]; [|lia|done].
    apply (Hun sid). subst r. by apply list_elem_of_fmap_2.
  - pose proof (svc_step_nextSocket s op Hs). lia.
Qed.

(** ** Frames are only ever appended *)

Lemma sent_to_alter s f r0 r :
  (forall w, exists l, WebSocket.sent (f w) = WebSocket.sent w ++ l) ->
  exists l, sent_to (set_sockets (alter f r0) s) r = sent_to s r ++ l.
Proof.
  intros Hf. unfold sent_to. simpl. destruct (decide (r0 = r)) as [<-|Hne].
  - rewrite lookup_alter_eq.
    destruct (StreamingService.sockets s !! r0) as [w|]; simpl; [apply Hf|].
    by exists [].
  - rewrite lookup_alter_ne by done. exists []. by rewrite app_nil_r.
Qed.

Lemma push_appends m w : exists l, WebSocket.sent (push m w) = WebSocket.sent w ++ l.
Proof.
  unfold push. case_decide; simpl; [by eexists|].
  exists []. by rewrite app_nil_r.
Qed.

Lemma with_state_appends st w :
  exists l, WebSocket.sent (with_state st w) = WebSocket.sent w ++ l.
Proof. exists []. simpl. by rewrite app_nil_r. Qed.

Lemma sent_to_same_sockets s s' r :
  StreamingService.sockets s' = StreamingService.sockets s ->
  exists l, sent_to s' r = sent_to s r ++ l.
Proof. intros H. exists []. unfold sent_to. by rewrite H, app_nil_r. Qed.

(** No operation removes or reorders the frames already handed to an
    allocated socket, and no operation frees a socket. *)
Lemma svc_step_sent s op r :
  svc_inv s -> is_Some (StreamingService.sockets s !! r) ->
  is_Some (StreamingService.sockets (svc_step s op) !! r)
  /\ exists l, sent_to (svc_step s op) r = sent_to s r ++ l.
Proof.
  intros Hs Hr.
  destruct op as [now [qs qu|r0 message|r0|r0|r0 st]|sid' event]; unfold svc_step.
  - rewrite on_connection_spec. unfold sent_to. simpl.
    destruct Hr as [w Hw]. destruct Hs as (_ & H2 & _).
    pose proof (H2 _ _ Hw) as Hlt.
    rewrite lookup_insert_ne by lia. rewrite Hw. split; [eauto|].
    exists []. by rewrite app_nil_r.
  - cbn [ws_event]. rewrite on_message_spec.
    destruct (StreamingService.sockets s !! r0) as [w|] eqn:Hw;
      [|split; [done|by apply sent_to_same_sockets]].
    destruct (WebSocket.listeners w) as [[sid c]|] eqn:Hl;
      [|split; [done|by apply sent_to_same_sockets]].
    destruct message as [[| |]|];
      try (split; [done|by apply sent_to_same_sockets]).
    destruct Hs as (H1 & H2 & H3). pose proof (H3 _ _ _ _ Hw Hl) as Hc.
    rewrite sendToClient_spec by (rewrite Hc, Hw; eauto). split.
    + simpl. by apply lookup_alter_is_Some.
    + apply sent_to_alter. intros w'. apply push_appends.
  - cbn [ws_event]. rewrite on_close_spec.
    destruct (StreamingService.sockets s !! r0) as [w|] eqn:Hw;
      [|split; [done|by apply sent_to_same_sockets]].
    assert (Hstep : is_Some (StreamingService.sockets
                      (set_sockets (alter (with_state CLOSED) r0) s) !! r)
                    /\ exists l, sent_to (set_sockets (alter (with_state CLOSED) r0) s) r
                                 = sent_to s r ++ l).
    { split; [simpl; by apply lookup_alter_is_Some|].
      apply sent_to_alter. intros w'. apply with_state_appends. }
    simpl. destruct (WebSocket.listeners w) as [[sid c]|]; [|done].
    unfold sent_to in *. by rewrite removeClient_sockets.
  - cbn [ws_event]. unfold sent_to. rewrite on_error_sockets. split; [done|].
    exists []. by rewrite app_nil_r.
  - cbn [ws_event]. rewrite ws_set_state_spec. split.
    + simpl. by apply lookup_alter_is_Some.
    + apply sent_to_alter. intros w'. apply with_state_appends.
  - rewrite broadcast_spec by by apply svc_inv_allocated.
    pose proof (deliver_all_shape (JSON_stringify event)
      (WebSocketClient.ws <$> observers s sid') (StreamingService.sockets s) r) as H.
    unfold sent_to. simpl. destruct Hr as [w Hw]. rewrite Hw in *.
    destruct (deliver_all _ _ _ !! r) as [w'|]; [|done].
    destruct H as (_ & _ & k & Hk). split; [eauto|]. eauto.
Qed.

Lemma svc_run_sent ops s r :
  svc_inv s -> is_Some (StreamingService.sockets s !! r) ->
  exists l, sent_to (svc_run ops s) r = sent_to s r ++ l.
Proof.
  revert s. induction ops as [|op ops IH]; intros s Hs Hr.
  - exists []. simpl. by rewrite app_nil_r.
  - destruct (svc_step_sent s op r Hs Hr) as [Hr' [l Hl]].
    destruct (IH (svc_step s op) (svc_inv_step _ _ Hs) Hr') as [l' Hl'].
    exists (l ++ l'). simpl. by rewrite Hl', Hl, app_assoc.
Qed.

(** * The claims about the event bus *)

(** C6, as the spec words it, fails: an observer that is still subscribed
    but whose socket is no longer open is passed over by [broadcast]. *)
Lemma broadcast_skips_closing_observer :
  svc_reachable svc_closing
  /\ subscribed svc_closing "S" 0%nat
  /\ ~ (forall r, subscribed svc_closing "S" r ->
          JSON_stringify hello ∈ sent_to (snd (broadcast "S" hello svc_closing)) r).
Proof.
  split; [by eexists|]. split; [vm_compute; by left|].
  intros H. specialize (H 0%nat). vm_compute in H.
  assert (Hin : 0%nat ∈ [0%nat]) by by left.
  specialize (H Hin). apply list_elem_of_singleton in H. discriminate H.
Qed.

(** C6 (amended): in every reachable state of the service, [broadcast]
    returns normally; every subscribed observer of the session whose socket
    is open receives the event, and a socket that is not open receives
    nothing; events published in a row arrive in that order, and no later
    operation removes or reorders what a socket was handed; with no
    subscriber the event is dropped and the state is unchanged; and once
    the close or error listener of an observer has run, no later
    publication reaches it. *)
Theorem broadcast_fan_out (s : StreamingService.t) (sid : string)
  (e : StreamEvent.t) :
  svc_reachable s ->
  fst (broadcast sid e s) = Ok tt
  /\ (forall r, subscribed s sid r -> is_open s r ->
        sent_to (snd (broadcast sid e s)) r = sent_to s r ++ [JSON_stringify e])
  /\ (forall r es, subscribed s sid r -> is_open s r ->
        sent_to (svc_run (OpBroadcast sid <$> es) s) r
        = sent_to s r ++ (JSON_stringify <$> es))
  /\ (forall r, ~ is_open s r ->
        sent_to (snd (broadcast sid e s)) r = sent_to s r)
  /\ (forall r later, is_Some (StreamingService.sockets s !! r) ->
        exists l, sent_to (svc_run later s) r = sent_to s r ++ l)
  /\ (observers s sid = [] -> broadcast sid e s = (Ok tt, s))
  /\ (forall r now unsub later sid' e',
        subscribed s sid r -> unsub = WsClose r \/ unsub = WsError r ->
        let s1 := svc_run later (svc_step s (OpWs now unsub)) in
        sent_to (snd (broadcast sid' e' s1)) r = sent_to s1 r).
Proof.
  intros Hreach. pose proof (svc_reachable_inv _ Hreach) as Hs.
  split; [by apply broadcast_ok|].
  split; [intros r; by apply broadcast_sent_open|].
  split; [intros r es; by apply publish_in_order|].
  split; [intros r; by apply broadcast_sent_not_open|].
  split; [intros r later; by apply svc_run_sent|].
  split; [by apply broadcast_none|].
  intros r now unsub later sid' e' Hsub Hunsub s1.
  assert (Hs0 : svc_inv (svc_step s (OpWs now unsub))) by by apply svc_inv_step.
  assert (Hgone : unsubscribed (svc_step s (OpWs now unsub)) r).
  { intros sid0 Hsub0. destruct Hunsub as [->| ->]; simpl in Hsub0.
    - apply (on_close_subscribed _ _ _ _ _ Hs Hsub) in Hsub0. by destruct Hsub0.
    - apply (on_error_subscribed _ _ _ _ _ Hs Hsub) in Hsub0. by destruct Hsub0. }
  assert (Hlt : (r < StreamingService.nextSocket (svc_step s (OpWs now unsub)))%nat).
  { destruct (subscribed_inv _ _ _ Hs Hsub) as (c & w & Hc & Hr & _).
    destruct (svc_inv_observer _ _ _ Hs Hc) as (_ & _ & _ & Hlt).
    pose proof (svc_step_nextSocket s (OpWs now unsub) Hs). lia. }
  apply broadcast_sent_other.
  - by apply svc_inv_run.
  - by apply unsubscribed_run.
Qed.

Lemma broadcast_fan_out_witness :
  svc_reachable svc_three
  /\ sent_to (snd (broadcast "S" hello svc_three)) 2%nat
     = sent_to svc_three 2%nat ++ [JSON_stringify hello].
Proof.
  assert (Hreach : svc_reachable svc_three) by by eexists.
  split; [exact Hreach|].
  destruct (broadcast_fan_out svc_three "S" hello Hreach) as (_ & H & _).
  apply H.
  - vm_compute. right. left.
  - eexists. split; [vm_compute; reflexivity|reflexivity].
Defined.

(** C7: a failing observer is isolated.  Whatever state the socket of an
    observer [r] is in, [broadcast] returns normally and every other open
    observer of the session receives the event; and the error listener of
    [r] returns normally and removes [r], and nothing else, from the
    observer lists. *)
Theorem delivery_failure_isolated (s : StreamingService.t) (sid : string)
  (r : nat) (e : StreamEvent.t) :
  svc_reachable s -> subscribed s sid r ->
  (forall now st,
     let s_f := svc_step s (OpWs now (WsState r st)) in
     fst (broadcast sid e s_f) = Ok tt
     /\ forall r', r' <> r -> subscribed s sid r' -> is_open s r' ->
          sent_to (snd (broadcast sid e s_f)) r'
          = sent_to s r' ++ [JSON_stringify e])
  /\ fst (on_error r s) = Ok tt
  /\ (forall sid' r',
        subscribed (snd (on_error r s)) sid' r'
        <-> subscribed s sid' r' /\ r' <> r)
  /\ StreamingService.sockets (snd (on_error r s)) = StreamingService.sockets s.
Proof.
  intros Hreach Hsub. pose proof (svc_reachable_inv _ Hreach) as Hs.
  split; [|split; [|split]].
  - intros now st s_f.
    assert (Hf : s_f = set_sockets (alter (with_state st) r) s)
      by apply ws_set_state_spec.
    assert (Hsf : svc_inv s_f) by by apply svc_inv_step.
    split; [by apply broadcast_ok|].
    intros r' Hne Hsub' (w' & Hw' & Hopen').
    rewrite (broadcast_sent_open s_f sid e r').
    + unfold sent_to. rewrite Hf. simpl. by rewrite lookup_alter_ne.
    + done.
    + rewrite Hf. exact Hsub'.
    + exists w'. rewrite Hf. simpl. by rewrite lookup_alter_ne.
  - destruct (subscribed_inv _ _ _ Hs Hsub) as (c & w & Hc & Hr & Hw & Hl).
    unfold on_error. rewrite (bind_ok _ _ _ _ _ (ws_get_some _ _ _ Hw)), Hl.
    by rewrite removeClient_spec.
  - intros sid' r'. by apply (on_error_subscribed s sid).
  - apply on_error_sockets.
Qed.

Lemma delivery_failure_isolated_witness :
  svc_reachable svc_three /\ subscribed svc_three "S" 0%nat
  /\ forall sid' r',
       subscribed (snd (on_error 0%nat svc_three)) sid' r'
       <-> subscribed svc_three sid' r' /\ r' <> 0%nat.
Proof.
  assert (Hreach : svc_reachable svc_three) by by eexists.
  assert (Hsub : subscribed svc_three "S" 0%nat) by (vm_compute; by left).
  split; [exact Hreach|]. split; [exact Hsub|].
  destruct (delivery_failure_isolated svc_three "S" 0%nat hello Hreach Hsub)
    as (_ & _ & H & _).
  exact H.
Defined.

(** ** Sessions cannot observe each other's publications *)

Lemma ws_rel_refl sid w : ws_rel sid w w.
Proof. by repeat split. Qed.

Lemma ws_rel_sym sid w1 w2 : ws_rel sid w1 w2 -> ws_rel sid w2 w1.
Proof.
  intros (H1 & H2 & H3). repeat split; [done..|].
  intros H. symmetry. apply H3. by rewrite H2.
Qed.

Lemma ws_rel_trans sid w1 w2 w3 :
  ws_rel sid w1 w2 -> ws_rel sid w2 w3 -> ws_rel sid w1 w3.
Proof.
  intros (H1 & H2 & H3) (H1' & H2' & H3'). repeat split; [congruence..|].
  intros Hsid. rewrite H3 by done. apply H3'. by rewrite <- H2.
Qed.

Lemma ws_rel_push sid m w1 w2 :
  ws_rel sid w1 w2 -> ws_rel sid (push m w1) (push m w2).
Proof.
  intros (H1 & H2 & H3). unfold push. rewrite <- H1.
  case_decide as Hopen; [|by repeat split].
  repeat split; simpl; [done|]. intros Hsid. by rewrite H3.
Qed.

Lemma ws_rel_with_state sid st w1 w2 :
  ws_rel sid w1 w2 -> ws_rel sid (with_state st w1) (with_state st w2).
Proof. intros (H1 & H2 & H3). by repeat split. Qed.

Lemma svc_rel_refl sid s : svc_rel sid s s.
Proof.
  repeat split. intros r. destruct (StreamingService.sockets s !! r).
  - constructor. apply ws_rel_refl.
  - constructor.
Qed.

Lemma svc_rel_sym sid s1 s2 : svc_rel sid s1 s2 -> svc_rel sid s2 s1.
Proof.
  intros (H1 & H2 & H3). repeat split; [done..|].
  intros r. destruct (H3 r); constructor. by apply ws_rel_sym.
Qed.

Lemma svc_rel_trans sid s1 s2 s3 :
  svc_rel sid s1 s2 -> svc_rel sid s2 s3 -> svc_rel sid s1 s3.
Proof.
  intros (H1 & H2 & H3) (H1' & H2' & H3'). repeat split; [congruence..|].
  intros r. specialize (H3 r). specialize (H3' r).
  destruct H3 as [w1 w2 H12|]; inversion H3' as [w2' w3 H23|]; subst;
    constructor. by eapply ws_rel_trans.
Qed.

Lemma svc_rel_observers sid s1 s2 sid' :
  svc_rel sid s1 s2 -> observers s1 sid' = observers s2 sid'.
Proof. intros (H1 & _). unfold observers. by rewrite H1. Qed.

Lemma svc_rel_lookup sid s1 s2 r :
  svc_rel sid s1 s2 ->
  (StreamingService.sockets s1 !! r = None
   /\ StreamingService.sockets s2 !! r = None)
  \/ (exists w1 w2, StreamingService.sockets s1 !! r = Some w1
                    /\ StreamingService.sockets s2 !! r = Some w2
                    /\ ws_rel sid w1 w2).
Proof.
  intros (_ & _ & H3). specialize (H3 r).
  destruct (StreamingService.sockets s1 !! r) as [w1|],
           (StreamingService.sockets s2 !! r) as [w2|];
    inversion H3; subst; [right|left]; eauto.
Qed.

Lemma svc_rel_alter_both sid f r s1 s2 :
  (forall w1 w2, ws_rel sid w1 w2 -> ws_rel sid (f w1) (f w2)) ->
  svc_rel sid s1 s2 ->
  svc_rel sid (set_sockets (alter f r) s1) (set_sockets (alter f r) s2).
Proof.
  intros Hf (H1 & H2 & H3). repeat split; [done..|]. simpl. intros r'.
  destruct (decide (r = r')) as [<-|Hne].
  - rewrite !lookup_alter_eq. destruct (H3 r); constructor. by apply Hf.
  - by rewrite !lookup_alter_ne.
Qed.

Lemma svc_rel_alter_left sid m r s1 s2 :
  (forall w, StreamingService.sockets s1 !! r = Some w ->
     fst <$> WebSocket.listeners w <> Some sid) ->
  svc_rel sid s1 s2 ->
  svc_rel sid (set_sockets (alter (push m) r) s1) s2.
Proof.
  intros Hown (H1 & H2 & H3). repeat split; [done..|]. simpl. intros r'.
  destruct (decide (r = r')) as [<-|Hne].
  - rewrite lookup_alter_eq. specialize (H3 r).
    destruct (StreamingService.sockets s1 !! r) as [w1|] eqn:Hw1;
      inversion H3 as [w1' w2 (Ha & Hb & Hc)|]; subst; constructor.
    specialize (Hown _ eq_refl).
    repeat split.
    + by rewrite push_readyState.
    + by rewrite push_listeners.
    + rewrite push_listeners. intros Hsid. by destruct Hown.
  - by rewrite lookup_alter_ne.
Qed.

Lemma svc_rel_deliver_both sid m refs s1 s2 :
  svc_rel sid s1 s2 ->
  svc_rel sid (set_sockets (deliver_all m refs) s1)
              (set_sockets (deliver_all m refs) s2).
Proof.
  revert s1 s2. induction refs as [|r refs IH]; intros s1 s2 Hrel.
  - by rewrite !set_sockets_id.
  - change (set_sockets (deliver_all m (r :: refs)) s1)
      with (set_sockets (deliver_all m refs) (set_sockets (alter (push m) r) s1)).
    change (set_sockets (deliver_all m (r :: refs)) s2)
      with (set_sockets (deliver_all m refs) (set_sockets (alter (push m) r) s2)).
    apply IH, svc_rel_alter_both; [|done]. intros w1 w2. apply ws_rel_push.
Qed.

Lemma svc_rel_deliver_left sid m refs s1 s2 :
  Forall (fun r => forall w, StreamingService.sockets s1 !! r = Some w ->
                     fst <$> WebSocket.listeners w <> Some sid) refs ->
  svc_rel sid s1 s2 ->
  svc_rel sid (set_sockets (deliver_all m refs) s1) s2.
Proof.
  revert s1. induction refs as [|r refs IH]; intros s1 Hown Hrel.
  - by rewrite set_sockets_id.
  - apply Forall_cons in Hown as [Hr Hown].
    change (set_sockets (deliver_all m (r :: refs)) s1)
      with (set_sockets (deliver_all m refs) (set_sockets (alter (push m) r) s1)).
    apply IH; [|by apply svc_rel_alter_left].
    eapply Forall_impl; [exact Hown|]. simpl. intros r' Hr' w Hw.
    destruct (decide (r = r')) as [<-|Hne].
    + rewrite lookup_alter_eq in Hw.
      destruct (StreamingService.sockets s1 !! r) as [w0|] eqn:Hw0; [|done].
      simpl in Hw. injection Hw as <-. rewrite push_listeners. by apply Hr'.
    + rewrite lookup_alter_ne in Hw by done. by apply Hr'.
Qed.

Lemma svc_rel_removeClient sid sid' c s1 s2 :
  svc_rel sid s1 s2 ->
  svc_rel sid (snd (removeClient sid' c s1)) (snd (removeClient sid' c s2)).
Proof.
  intros Hrel. pose proof (svc_rel_observers _ _ _ sid' Hrel) as Hobs.
  destruct Hrel as (H1 & H2 & H3).
  rewrite !removeClient_spec. simpl. rewrite <- Hobs.
  repeat split; simpl; [|done..]. by rewrite H1.
Qed.

(** A publication to another session is invisible. *)
Lemma svc_rel_broadcast_left sid sid' e s1 s2 :
  svc_inv s1 -> sid' <> sid -> svc_rel sid s1 s2 ->
  svc_rel sid (snd (broadcast sid' e s1)) s2.
Proof.
  intros Hs Hne Hrel. rewrite broadcast_spec by by apply svc_inv_allocated.
  apply svc_rel_deliver_left; [|done].
  apply Forall_forall. intros r Hr w Hw.
  apply list_elem_of_fmap in Hr as (c & -> & Hc).
  destruct (svc_inv_observer _ _ _ Hs Hc) as (w' & Hw' & Hl & _).
  rewrite Hw in Hw'. injection Hw' as <-. rewrite Hl. simpl. congruence.
Qed.

(** The same operation keeps indistinguishable states indistinguishable. *)
Lemma svc_rel_step sid op s1 s2 :
  svc_inv s1 -> svc_inv s2 -> svc_rel sid s1 s2 ->
  svc_rel sid (svc_step s1 op) (svc_step s2 op).
Proof.
  intros Hs1 Hs2 Hrel.
  destruct op as [now [qs qu|r message|r|r|r st]|sid' event]; unfold svc_step.
  - rewrite !on_connection_spec.
    pose proof (svc_rel_observers _ _ _ (sessionId_of_url qs) Hrel) as Hobs.
    destruct Hrel as (H1 & H2 & H3). rewrite <- Hobs, <- H1, <- H2.
    repeat split. simpl. intros r.
    destruct (decide (StreamingService.nextSocket s1 = r)) as [<-|Hne].
    + rewrite !lookup_insert_eq. constructor. apply ws_rel_refl.
    + by rewrite !lookup_insert_ne.
  - cbn [ws_event]. rewrite !on_message_spec.
    destruct (svc_rel_lookup _ _ _ r Hrel)
      as [[-> ->]|(w1 & w2 & Hw1 & Hw2 & Ha & Hb & Hc)]; [done|].
    rewrite Hw1, Hw2, <- Hb.
    destruct (WebSocket.listeners w1) as [[sid' c]|] eqn:Hl; [|done].
    destruct message as [[| |]|]; try done.
    destruct Hs1 as (_ & _ & H31). pose proof (H31 _ _ _ _ Hw1 Hl) as Hc1.
    rewrite !sendToClient_spec.
    + apply svc_rel_alter_both; [|done]. intros ? ?. apply ws_rel_push.
    + rewrite Hc1, Hw2. eauto.
    + rewrite Hc1, Hw1. eauto.
  - cbn [ws_event]. rewrite !on_close_spec.
    destruct (svc_rel_lookup _ _ _ r Hrel)
      as [[-> ->]|(w1 & w2 & Hw1 & Hw2 & Ha & Hb & Hc)]; [done|].
    rewrite Hw1, Hw2. simpl. rewrite <- Hb.
    assert (svc_rel sid (set_sockets (alter (with_state CLOSED) r) s1)
                        (set_sockets (alter (with_state CLOSED) r) s2)) as Hrel'.
    { apply svc_rel_alter_both; [|done]. intros ? ?. apply ws_rel_with_state. }
    destruct (WebSocket.listeners w1) as [[sid' c]|]; [|done].
    by apply svc_rel_removeClient.
  - cbn [ws_event]. rewrite !on_error_spec.
    destruct (svc_rel_lookup _ _ _ r Hrel)
      as [[-> ->]|(w1 & w2 & Hw1 & Hw2 & Ha & Hb & Hc)]; [done|].
    rewrite Hw1, Hw2, <- Hb.
    destruct (WebSocket.listeners w1) as [[sid' c]|]; [|done].
    by apply svc_rel_removeClient.
  - cbn [ws_event]. rewrite !ws_set_state_spec.
    apply svc_rel_alter_both; [|done]. intros ? ?. apply ws_rel_with_state.
  - rewrite !broadcast_spec by by apply svc_inv_allocated.
    rewrite <- (svc_rel_observers _ _ _ sid' Hrel).
    by apply svc_rel_deliver_both.
Qed.

Lemma svc_rel_run sid ops s1 s2 :
  svc_inv s1 -> svc_inv s2 -> svc_rel sid s1 s2 ->
  svc_rel sid (svc_run ops s1) (svc_run (without_other_publications sid ops) s2).
Proof.
  revert s1 s2. induction ops as [|op ops IH]; intros s1 s2 Hs1 Hs2 Hrel; [done|].
  unfold without_other_publications. rewrite filter_cons.
  case_decide as Hop.
  - simpl. apply IH; [by apply svc_inv_step..|]. by apply svc_rel_step.
  - simpl. apply IH; [by apply svc_inv_step|done|].
    destruct op as [now e|sid' event]; [done|]. simpl in Hop.
    by apply svc_rel_broadcast_left.
Qed.

(** C9: a broadcast is confined to its session.  Only a socket registered
    under [sid], hence accepted for [sid], can receive an event broadcast
    to [sid]; and two runs of the service that differ only in the events
    published to other sessions leave the same observers under [sid] and
    have handed the same frames, in the same order, to every socket that
    was accepted for [sid]. *)
Theorem broadcast_confined (sid : string) (ops1 ops2 : list SvcOp) :
  without_other_publications sid ops1 = without_other_publications sid ops2 ->
  let s1 := svc_run ops1 StreamingService.empty in
  let s2 := svc_run ops2 StreamingService.empty in
  (forall e r, sent_to (snd (broadcast sid e s1)) r <> sent_to s1 r ->
     subscribed s1 sid r /\ owned_by s1 sid r)
  /\ observers s1 sid = observers s2 sid
  /\ (forall r, owned_by s1 sid r -> sent_to s1 r = sent_to s2 r).
Proof.
  intros Heq s1 s2.
  assert (Hs1 : svc_inv s1) by apply svc_inv_run, svc_inv_empty.
  assert (Hs2 : svc_inv s2) by apply svc_inv_run, svc_inv_empty.
  assert (Hrel : svc_rel sid s1 s2).
  { eapply svc_rel_trans.
    - apply (svc_rel_run sid ops1 _ StreamingService.empty);
        [apply svc_inv_empty..|apply svc_rel_refl].
    - rewrite Heq. apply svc_rel_sym.
      apply (svc_rel_run sid ops2 _ StreamingService.empty);
        [apply svc_inv_empty..|apply svc_rel_refl]. }
  split; [|split].
  - intros e r Hchanged. destruct (decide (subscribed s1 sid r)) as [Hsub|Hno].
    + split; [done|].
      destruct (subscribed_inv _ _ _ Hs1 Hsub) as (c & w & _ & _ & Hw & Hl).
      by exists w, c.
    + destruct Hchanged. by apply broadcast_sent_other.
  - by apply (svc_rel_observers sid).
  - intros r (w & c & Hw & Hl). unfold sent_to.
    destruct (svc_rel_lookup _ _ _ r Hrel)
      as [[Hn _]|(w1 & w2 & Hw1 & Hw2 & _ & _ & Hsent)]; [congruence|].
    rewrite Hw1, Hw2. apply Hsent.
    rewrite Hw in Hw1. injection Hw1 as <-. by rewrite Hl.
Qed.

Lemma broadcast_confined_witness :
  without_other_publications "S" run_with_T
  = without_other_publications "S" run_without_T
  /\ sent_to (svc_run run_with_T StreamingService.empty) 0%nat
     = sent_to (svc_run run_without_T StreamingService.empty) 0%nat.
Proof.
  assert (Heq : without_other_publications "S" run_with_T
                = without_other_publications "S" run_without_T)
    by reflexivity.
  split; [exact Heq|].
  destruct (broadcast_confined "S" run_with_T run_without_T Heq) as (_ & _ & H).
  apply H. eexists _, _. split; vm_compute; reflexivity.
Defined.

(** * The storage and the routes *)

Lemma on_db_run {A} (m : ST Db.t A) w r d :
  m (World.db w) = (r, d) -> on_db m w = (r, with_db d w).
Proof. intros H. unfold on_db. by rewrite H. Qed.

Lemma on_service_broadcast w sid e :
  svc_inv (World.streamingService w) ->
  on_streamingService (broadcast sid e) w = (Ok tt, published sid e w).
Proof.
  intros Hs. unfold on_streamingService, published, with_service.
  pose proof (broadcast_ok _ sid e Hs) as Hok.
  destruct (broadcast sid e (World.streamingService w)) as [r s'].
  simpl in *. by subst.
Qed.

(** One [broadcast] of a handler, in a world whose service satisfies the
    invariant by [Hs]. *)
Ltac broadcast_step Hs :=
  match goal with
  | |- context [bind (on_streamingService (broadcast ?sid ?e)) _ ?W] =>
      rewrite (bind_ok _ _ _ _ _ (on_service_broadcast W sid e Hs))
  end.

Lemma published_inv sid e w :
  svc_inv (World.streamingService w) ->
  svc_inv (World.streamingService (published sid e w)).
Proof. intros Hs. simpl. by apply svc_inv_broadcast. Qed.

Lemma updateTask_spec now id u d :
  TaskUpdates.sessionId u = None ->
  updateTask now id u d
  = (Ok (apply_task_updates now u <$> Db.tasks d !! id),
     set_tasks (alter (apply_task_updates now u) id) d).
Proof.
  intros Hu. unfold updateTask, bind, gets, modify. rewrite Hu. simpl.
  rewrite andb_false_r. simpl. by rewrite lookup_alter_eq.
Qed.

Lemma resolveApproval_spec now id st d :
  resolveApproval now id st d
  = (Ok (resolved now st <$> Db.approvals d !! id),
     set_approvals (alter (resolved now st) id) d).
Proof.
  unfold resolveApproval, bind, gets, modify. simpl.
  by rewrite lookup_alter_eq.
Qed.

Lemma updateSession_spec now id u d :
  updateSession now id u d
  = (Ok (apply_session_updates now u <$> Db.sessions d !! id),
     set_sessions (alter (apply_session_updates now u) id) d).
Proof.
  unfold updateSession, bind, gets, modify. simpl.
  by rewrite lookup_alter_eq.
Qed.

Lemma alter_absorb {A} (f g h : A -> A) (m : gmap string A) i :
  (forall x, f (g x) = h x) -> alter f i (alter g i m) = alter h i m.
Proof.
  intros Hfg. apply map_eq. intros j. destruct (decide (i = j)) as [<-|Hne].
  - rewrite !lookup_alter_eq. destruct (m !! i); simpl; [|done]. by rewrite Hfg.
  - by rewrite !lookup_alter_ne.
Qed.

Lemma elem_of_rows {A} (m : gmap string A) (x : A) :
  x ∈ rows m <-> exists k, m !! k = Some x.
Proof.
  unfold rows. rewrite list_elem_of_fmap. split.
  - intros ([k y] & -> & Hin). exists k. by apply elem_of_map_to_list.
  - intros (k & Hk). exists (k, x). split; [done|]. by apply elem_of_map_to_list.
Qed.

(** * The claims about the routes *)

(** ** Cancel *)

(** C10: the cancel route sets the status of any stored task to cancelled,
    whatever its status was, and leaves its other columns as they were; it
    leaves the other tasks alone; only an unknown id is answered 404. *)
Theorem cancel_any_status (w : World.t) (env : Env.t) (id : string) :
  svc_reachable (World.streamingService w) ->
  match task_of w id with
  | Some t =>
      exists t' w',
        post_task_cancel env id w
        = (Ok (Response.mk 200 (JsonTask (Some t'))), w')
        /\ task_of w' id = Some t'
        /\ Task.status t' = "cancelled"
        /\ Task.plan t' = Task.plan t
        /\ Task.currentStep t' = Task.currentStep t
        /\ Task.totalSteps t' = Task.totalSteps t
        /\ Task.error t' = Task.error t
        /\ Task.retryCount t' = Task.retryCount t
        /\ Task.id t' = Task.id t
        /\ Task.sessionId t' = Task.sessionId t
        /\ (forall id', id' <> id -> task_of w' id' = task_of w id')
  | None =>
      post_task_cancel env id w
      = (Ok (Response.mk 404 (JsonError "Task not found")), w)
  end.
Proof.
  intros Hreach. pose proof (svc_reachable_inv _ Hreach) as Hs.
  unfold task_of, post_task_cancel, handler, try_catch.
  rewrite (bind_ok _ _ _ _ _ (on_db_run _ _ _ _
    (updateTask_spec (Env.now env) id (status_update "cancelled") _ eq_refl))).
  destruct (Db.tasks (World.db w) !! id) as [t|] eqn:Ht; simpl.
  - eexists _, _. split.
    + unfold sendLogLine.
      rewrite (bind_ok _ _ _ _ _ (on_service_broadcast (with_db _ w) _ _ Hs)).
      reflexivity.
    + simpl. rewrite lookup_alter_eq, Ht. repeat split.
      intros id' Hne. by rewrite lookup_alter_ne.
  - unfold ret. f_equal. unfold with_db, set_tasks. destruct w as [[] ? ?]. simpl in *.
    rewrite alter_id'; done.
Qed.

Lemma cancel_any_status_witness :
  svc_reachable (World.streamingService world_failed)
  /\ exists t' w',
       post_task_cancel env10 "T" world_failed
       = (Ok (Response.mk 200 (JsonTask (Some t'))), w')
       /\ Task.status t' = "cancelled"
       /\ Task.currentStep t' = Some 1.
Proof.
  assert (Hreach : svc_reachable (World.streamingService world_failed))
    by (exists [OpWs 2 (WsConnection (Some "S") None)]; reflexivity).
  split; [exact Hreach|].
  pose proof (cancel_any_status world_failed env10 "T" Hreach) as H.
  destruct (task_of world_failed "T") as [t|] eqn:Ht;
    [|vm_compute in Ht; discriminate].
  destruct H as (t' & w' & Hrun & _ & Hst & _ & Hcs & _).
  exists t', w'. repeat split; [done..|].
  rewrite Hcs. vm_compute in Ht. injection Ht as <-. reflexivity.
Defined.

(** ** Approvals *)

Lemma with_db_same w : with_db (World.db w) w = w.
Proof. by destruct w. Qed.

Lemma post_approval_resolve_some env id body w a :
  svc_inv (World.streamingService w) ->
  approval_of w id = Some a ->
  post_approval_resolve env id body w
  = (Ok (Response.mk 200
           (JsonApproval (resolved (Env.now env) (decision body) a))),
     published (Approval.sessionId a)
       (approval_resolved_event (Env.now env) (Approval.sessionId a)
          (Approval.id a) (resolution_name (decision body)))
       (with_db (set_approvals (alter (resolved (Env.now env) (decision body)) id)
                   (World.db w)) w)).
Proof.
  intros Hs Ha. unfold approval_of in Ha.
  unfold post_approval_resolve, handler, try_catch.
  rewrite (bind_ok _ _ _ _ _ (on_db_run _ _ _ _ (resolveApproval_spec _ _ _ _))).
  rewrite Ha. simpl. unfold sendApprovalResolved.
  rewrite (bind_ok _ _ _ _ _ (on_service_broadcast (with_db _ w) _ _ Hs)).
  reflexivity.
Qed.

Lemma post_approval_resolve_none env id body w :
  approval_of w id = None ->
  post_approval_resolve env id body w
  = (Ok (Response.mk 404 (JsonError "Approval not found")), w).
Proof.
  intros Ha. unfold approval_of in Ha.
  unfold post_approval_resolve, handler, try_catch.
  rewrite (bind_ok _ _ _ _ _ (on_db_run _ _ _ _ (resolveApproval_spec _ _ _ _))).
  rewrite Ha. simpl. unfold ret. f_equal.
  destruct w as [[] ? ?]. unfold with_db, set_approvals. simpl in *.
  by rewrite alter_id'.
Qed.

(** C2, as the spec words it, fails: a second resolve of the same approval
    is answered 200 like the first, replaces the status and [resolvedAt],
    and a second [approval_resolved] frame reaches the observer. *)
Lemma second_resolve_is_accepted :
  let (r1, w1) := post_approval_resolve env10 "b" approve_body world_approvals in
  let (r2, w2) := post_approval_resolve env20 "b" reject_body w1 in
  (Approval.status <$> approval_of w1 "b" = Some "approved"
   /\ Approval.resolvedAt <$> approval_of w1 "b" = Some (Some 10))
  /\ (exists a, r2 = Ok (Response.mk 200 (JsonApproval a)))
  /\ Approval.status <$> approval_of w2 "b" = Some "rejected"
  /\ Approval.resolvedAt <$> approval_of w2 "b" = Some (Some 20)
  /\ StreamEvent.type <$> sent_to (World.streamingService w1) 0%nat
     = [session_start; approval_resolved]
  /\ StreamEvent.type <$> sent_to (World.streamingService w2) 0%nat
     = [session_start; approval_resolved; approval_resolved].
Proof. vm_compute. repeat split; eauto. Qed.

(** C2 (amended): whatever the status of a stored approval, pending or
    already resolved, a resolve is answered 200; so two resolves in a row
    both succeed, the approval ends with the status and the [resolvedAt] of
    the second, and every open observer of the session has received two
    [approval_resolved] frames, in that order.  There is no conflict
    error. *)
Theorem resolve_twice (w : World.t) (env1 env2 : Env.t) (id : string)
  (body1 body2 : ReqBody.t) (a : Approval.t) :
  svc_reachable (World.streamingService w) ->
  approval_of w id = Some a ->
  let a1 := resolved (Env.now env1) (decision body1) a in
  let a2 := resolved (Env.now env2) (decision body2) a in
  let e1 := approval_resolved_event (Env.now env1) (Approval.sessionId a)
              (Approval.id a) (resolution_name (decision body1)) in
  let e2 := approval_resolved_event (Env.now env2) (Approval.sessionId a)
              (Approval.id a) (resolution_name (decision body2)) in
  exists w1 w2,
    post_approval_resolve env1 id body1 w
    = (Ok (Response.mk 200 (JsonApproval a1)), w1)
    /\ post_approval_resolve env2 id body2 w1
       = (Ok (Response.mk 200 (JsonApproval a2)), w2)
    /\ approval_of w2 id = Some a2
    /\ Approval.status a2 = resolution_name (decision body2)
    /\ Approval.resolvedAt a2 = Some (Env.now env2)
    /\ (forall r, subscribed (World.streamingService w) (Approval.sessionId a) r ->
          is_open (World.streamingService w) r ->
          sent_to (World.streamingService w2) r
          = sent_to (World.streamingService w) r
            ++ [JSON_stringify e1; JSON_stringify e2]).
Proof.
  intros Hreach Ha a1 a2 e1 e2.
  pose proof (svc_reachable_inv _ Hreach) as Hs.
  eexists _, _. split; [by apply post_approval_resolve_some|].
  assert (Ha1 : approval_of
    (published (Approval.sessionId a) e1
       (with_db (set_approvals (alter (resolved (Env.now env1) (decision body1)) id)
                   (World.db w)) w)) id = Some a1).
  { unfold approval_of in *. simpl. by rewrite lookup_alter_eq, Ha. }
  split.
  { rewrite (post_approval_resolve_some env2 id body2 _ a1);
      [reflexivity|by apply published_inv|exact Ha1]. }
  split.
  { unfold approval_of in *. simpl. rewrite !lookup_alter_eq, Ha. reflexivity. }
  split; [done|]. split; [done|].
  intros r Hsub Hopen. simpl.
  change (sent_to (svc_run (OpBroadcast (Approval.sessionId a) <$> [e1; e2])
                     (World.streamingService w)) r
          = sent_to (World.streamingService w) r
            ++ (JSON_stringify <$> [e1; e2])).
  by apply publish_in_order.
Qed.

Lemma resolve_twice_witness :
  svc_reachable (World.streamingService world_approvals)
  /\ exists a w1 w2,
       approval_of world_approvals "b" = Some a
       /\ post_approval_resolve env10 "b" approve_body world_approvals
          = (Ok (Response.mk 200 (JsonApproval (resolved 10 approved a))), w1)
       /\ post_approval_resolve env20 "b" reject_body w1
          = (Ok (Response.mk 200 (JsonApproval (resolved 20 rejected a))), w2).
Proof.
  assert (Hreach : svc_reachable (World.streamingService world_approvals))
    by (exists [OpWs 2 (WsConnection (Some "S") None)]; reflexivity).
  split; [exact Hreach|].
  destruct (approval_of world_approvals "b") as [a|] eqn:Ha;
    [|vm_compute in Ha; discriminate].
  destruct (resolve_twice world_approvals env10 env20 "b" approve_body
              reject_body a Hreach Ha) as (w1 & w2 & H1 & H2 & _).
  exists a, w1, w2. by repeat split.
Defined.

Lemma pendingFor_filter w sid :
  pendingFor w sid
  = filter (fun a => Approval.sessionId a = sid /\ Approval.status a = "pending")
      (rows (Db.approvals (World.db w))).
Proof. reflexivity. Qed.





(** ** Emergency stop *)

Lemma cancel_row_idem now t : cancel_row now (cancel_row now t) = cancel_row now t.
Proof. reflexivity. Qed.

Lemma cancel_all_lookup now ks m k :
  cancel_all now ks m !! k
  = if decide (k ∈ ks) then cancel_row now <$> m !! k else m !! k.
Proof.
  revert m. induction ks as [|k0 ks IH]; intros m.
  - destruct (decide (k ∈ [])) as [Hin|Hin]; [by apply elem_of_nil in Hin|done].
  - change (cancel_all now (k0 :: ks) m)
      with (cancel_all now ks (alter (cancel_row now) k0 m)).
    rewrite IH. destruct (decide (k = k0)) as [->|Hne].
    + rewrite lookup_alter_eq. rewrite (decide_True (P := k0 ∈ k0 :: ks)) by by left.
      case_decide; [|done]. destruct (m !! k0); simpl; [|done].
      by rewrite cancel_row_idem.
    + rewrite lookup_alter_ne by done.
      case_decide as Hin.
      * rewrite decide_True; [done|]. by right.
      * rewrite decide_False; [done|]. intros Hin'.
        apply elem_of_cons in Hin' as [?|?]; done.
Qed.

Lemma stop_loop_spec now l w :
  for_of l (fun task =>
    if decide (Task.status task = "running")
    then bind (on_db (updateTask now (Task.id task) (status_update "cancelled")))
           (fun _ => ret tt)
    else ret tt) w
  = (Ok tt,
     with_db (set_tasks
       (cancel_all now (Task.id <$> filter (fun t => Task.status t = "running") l))
       (World.db w)) w).
Proof.
  revert w. induction l as [|t l IH]; intros w.
  - simpl. unfold ret. f_equal. by destruct w as [[] ? ?].
  - simpl for_of. rewrite filter_cons. case_decide as Hrun.
    + rewrite (bind_ok _ _ _ _ _ (bind_ok _ _ _ _ _ (on_db_run _ _ _ _
        (updateTask_spec now (Task.id t) (status_update "cancelled") _ eq_refl)))).
      rewrite IH. by destruct w as [[] ? ?].
    + unfold bind at 1, ret at 1. by rewrite IH.
Qed.

Lemma running_ids_elem d sid k :
  tasks_keyed d ->
  k ∈ running_ids d sid
  <-> exists t, Db.tasks d !! k = Some t /\ Task.sessionId t = sid
                /\ Task.status t = "running".
Proof.
  intros Hkeyed. unfold running_ids. rewrite list_elem_of_fmap. split.
  - intros (t & -> & Ht). apply list_elem_of_filter in Ht as [Hrun Ht].
    rewrite merge_sort_Permutation in Ht.
    apply list_elem_of_filter in Ht as [Hsid Ht].
    apply elem_of_rows in Ht as (k & Hk).
    pose proof (Hkeyed _ _ Hk) as Hid. simpl in Hid. subst k. by exists t.
  - intros (t & Hk & Hsid & Hrun). exists t.
    pose proof (Hkeyed _ _ Hk) as Hid. simpl in Hid. split; [done|].
    apply list_elem_of_filter. split; [done|].
    rewrite merge_sort_Permutation. apply list_elem_of_filter. split; [done|].
    apply elem_of_rows. eauto.
Qed.

Lemma post_session_stop_some env sid w session0 :
  svc_inv (World.streamingService w) ->
  session_of w sid = Some session0 ->
  let session := apply_session_updates (Env.now env)
    (SessionUpdates.mk None None (Some "idle") None None None) session0 in
  post_session_stop env sid w
  = (Ok (Response.mk 200 (JsonStopped "Session stopped" session)),
     published sid (stop_event (Env.now env) sid)
       (with_db
          (set_tasks (cancel_all (Env.now env) (running_ids (World.db w) sid))
             (set_sessions
                (alter (apply_session_updates (Env.now env)
                   (SessionUpdates.mk None None (Some "idle") None None None)) sid)
                (World.db w))) w)).
Proof.
  intros Hs Hsession session. unfold session_of in Hsession.
  unfold post_session_stop, handler, try_catch.
  rewrite (bind_ok _ _ _ _ _ (on_db_run _ _ _ _ (updateSession_spec _ _ _ _))).
  rewrite Hsession. cbn [fmap option_fmap option_map].
  rewrite (bind_ok _ _ _ _ _ (on_db_run (getTasksBySession sid) _ _ _ eq_refl)).
  rewrite (bind_ok _ _ _ _ _ (stop_loop_spec _ _ _)).
  unfold sendLogLine. broadcast_step Hs.
  unfold ret. f_equal; by destruct w as [[] ? ?].
Qed.

Lemma post_session_stop_none env sid w :
  session_of w sid = None ->
  post_session_stop env sid w
  = (Ok (Response.mk 404 (JsonError "Session not found")), w).
Proof.
  intros Hsession. unfold session_of in Hsession.
  unfold post_session_stop, handler, try_catch.
  rewrite (bind_ok _ _ _ _ _ (on_db_run _ _ _ _ (updateSession_spec _ _ _ _))).
  rewrite Hsession. simpl. unfold ret. f_equal.
  destruct w as [[] ? ?]. unfold with_db, set_sessions. simpl in *.
  by rewrite alter_id'.
Qed.



(** ** Run *)

Lemma last_cons {A} (x : A) (l : list A) (d : A) :
  List.last (x :: l) d = List.last l x.
Proof.
  revert x d. induction l as [|y l IH]; intros x d; [done|].
  change (List.last (x :: y :: l) d) with (List.last (y :: l) d).
  rewrite IH. symmetry. apply IH.
Qed.

(** The loop of the run route returns normally; its [j]-th state has the
    row of the task rewritten with [currentStep = i + j + 1], and nothing
    else of the database changed. *)
Lemma run_loop_spec env task len steps i w :
  svc_inv (World.streamingService w) ->
  run_loop env task len steps i w
  = (Ok tt, List.last (run_loop_states env task len steps i w) w)
  /\ length (run_loop_states env task len steps i w) = length steps
  /\ forall j wj,
       run_loop_states env task len steps i w !! j = Some wj ->
       World.db wj
       = set_tasks (alter (step_row (Env.now env) (i + Z.of_nat j + 1)) (Task.id task))
           (World.db w)
       /\ svc_inv (World.streamingService wj).
Proof.
  revert i w. induction steps as [|step steps IH]; intros i w Hs.
  - split; [done|]. split; [done|]. intros j wj Hj. by destruct j.
  - simpl run_loop. unfold sendTaskStep. broadcast_step Hs.
    rewrite (bind_ok _ _ _ _ _ (on_db_run _ _ _ _
      (updateTask_spec (Env.now env) (Task.id task)
         (currentStep_update (i + 1)) _ eq_refl))).
    set (w2 := with_db _ (published _ _ w)).
    assert (Hs2 : svc_inv (World.streamingService w2)) by by apply svc_inv_broadcast.
    destruct (IH (i + 1) w2 Hs2) as (Hrun & Hlen & Hstates).
    assert (Hunfold : run_loop_states env task len (step :: steps) i w
                      = w2 :: run_loop_states env task len steps (i + 1) w2).
    { simpl. unfold sendTaskStep.
      rewrite (on_service_broadcast _ _ _ Hs). simpl.
      rewrite (on_db_run _ _ _ _
        (updateTask_spec (Env.now env) (Task.id task)
           (currentStep_update (i + 1)) _ eq_refl)).
      reflexivity. }
    rewrite Hunfold. split; [|split].
    + rewrite Hrun. by rewrite last_cons.
    + simpl. by rewrite Hlen.
    + intros [|j] wj Hj; simpl in Hj.
      * injection Hj as <-. split; [|done].
        replace (i + Z.of_nat 0 + 1) with (i + 1) by lia. reflexivity.
      * destruct (Hstates j wj Hj) as [Hdb Hsj]. split; [|done].
        rewrite Hdb. unfold set_tasks. simpl Db.tasks. f_equal.
        replace (i + Z.of_nat (S j) + 1) with (i + 1 + Z.of_nat j + 1) by lia.
        by apply alter_absorb.
Qed.

Lemma last_lookup {A} (l : list A) (d : A) :
  l <> [] -> l !! (length l - 1)%nat = Some (List.last l d).
Proof.
  revert d. induction l as [|x l IH]; intros d Hne; [done|].
  rewrite last_cons. destruct l as [|y l]; [done|].
  simpl length. replace (S (S (length l)) - 1)%nat with (S (length (y :: l) - 1))
    by (simpl; lia).
  simpl lookup. by apply IH.
Qed.

Lemma run_row_status now n j t :
  Task.status (run_row now n j t)
  = if decide (j <= n)%nat then "running" else "completed".
Proof. unfold run_row. by case_decide. Qed.

Lemma run_row_currentStep now n j t :
  Task.currentStep (run_row now n j t)
  = Some (if decide (j <= n)%nat then Z.of_nat j else Z.of_nat n).
Proof. unfold run_row. by case_decide. Qed.

Lemma run_row_columns now n j t :
  Task.id (run_row now n j t) = Task.id t
  /\ Task.sessionId (run_row now n j t) = Task.sessionId t
  /\ Task.plan (run_row now n j t) = Task.plan t
  /\ Task.totalSteps (run_row now n j t) = Task.totalSteps t
  /\ Task.error (run_row now n j t) = Task.error t
  /\ Task.retryCount (run_row now n j t) = Task.retryCount t.
Proof. unfold run_row. by case_decide. Qed.

(** The states that a run writes, and the answer of the route. *)
Lemma run_states_spec env id w t :
  tasks_keyed (World.db w) ->
  svc_inv (World.streamingService w) ->
  task_of w id = Some t ->
  let n := length (plan_of t) in
  length (run_states env id w) = S (S n)
  /\ (forall j wj, run_states env id w !! j = Some wj ->
        svc_inv (World.streamingService wj)
        /\ World.db wj
           = set_tasks (alter (run_row (Env.now env) n j) id) (World.db w))
  /\ post_task_run env id w
     = (Ok (Response.mk 200 (JsonTask (Some (start_row (Env.now env) t)))),
        published (Task.sessionId t) (task_complete_event (Env.now env) t)
          (List.last (run_states env id w) w)).
Proof.
  intros Hkeyed Hs Ht n. unfold task_of in Ht.
  pose proof (Hkeyed _ _ Ht) as Hid. simpl in Hid. subst id.
  set (now := Env.now env).
  set (w0 := with_db (set_tasks (alter (apply_task_updates now running_update)
                                   (Task.id t)) (World.db w)) w).
  set (e0 := StreamEvent.mk task_start (Task.sessionId t) (Some (Task.id t)) now
               (DataTitle (Task.title t))).
  set (w0' := published (Task.sessionId t) e0 w0).
  assert (Hs0' : svc_inv (World.streamingService w0')) by by apply svc_inv_broadcast.
  set (L := run_loop_states env t (Z.of_nat n) (plan_of t) 0 w0').
  destruct (run_loop_spec env t (Z.of_nat n) (plan_of t) 0 w0' Hs0')
    as (Hloop & Hlen & HL).
  fold L in Hloop, Hlen, HL. fold n in Hlen.
  set (wn := List.last L w0').
  set (wc := with_db (set_tasks
                (alter (apply_task_updates now (status_update "completed"))
                   (Task.id t)) (World.db wn)) wn).
  assert (Hstates : run_states env (Task.id t) w = w0 :: L ++ [wc]).
  { unfold run_states. rewrite Ht.
    rewrite (on_db_run _ _ _ _
      (updateTask_spec now (Task.id t) running_update _ eq_refl)).
    cbn [snd]. fold w0. unfold sendTaskStart. fold now. fold e0.
    rewrite (on_service_broadcast w0 _ _ Hs). cbn [snd]. fold w0'.
    fold n. fold L. fold wn.
    rewrite (on_db_run _ _ _ _
      (updateTask_spec now (Task.id t) (status_update "completed") _ eq_refl)).
    reflexivity. }
  assert (Hwn : svc_inv (World.streamingService wn)
                /\ World.db wn
                   = set_tasks (alter (run_row now n n) (Task.id t)) (World.db w)).
  { destruct (decide (L = [])) as [HLnil|HLne].
    - unfold wn. rewrite HLnil. simpl. split; [done|].
      rewrite HLnil in Hlen. simpl in Hlen. rewrite <- Hlen.
      unfold set_tasks. simpl. reflexivity.
    - pose proof (last_lookup L w0' HLne) as Hlast. fold wn in Hlast.
      destruct (HL _ _ Hlast) as [Hdb Hsn]. split; [done|].
      rewrite Hdb. unfold set_tasks. simpl Db.tasks. f_equal.
      rewrite Hlen.
      assert (Hn : (0 < n)%nat) by (destruct L; [done|simpl in Hlen; lia]).
      apply alter_absorb. intros x. unfold run_row.
      rewrite decide_True by lia.
      replace (0 + Z.of_nat (n - 1) + 1) with (Z.of_nat n) by lia.
      reflexivity. }
  destruct Hwn as [Hsn Hdbn].
  split; [|split].
  - rewrite Hstates. simpl. rewrite length_app. simpl. lia.
  - rewrite Hstates. intros [|j] wj Hj.
    + simpl in Hj. injection Hj as <-. by split.
    + simpl in Hj. destruct (decide (j < length L)%nat) as [Hlt|Hge].
      * rewrite lookup_app_l in Hj by done.
        destruct (HL _ _ Hj) as [Hdb Hsj]. split; [done|].
        rewrite Hdb. unfold set_tasks. simpl Db.tasks. f_equal.
        apply alter_absorb. intros x. unfold run_row.
        rewrite decide_True by lia.
        replace (0 + Z.of_nat j + 1) with (Z.of_nat (S j)) by lia.
        reflexivity.
      * rewrite lookup_app_r in Hj by lia.
        destruct (j - length L)%nat as [|k] eqn:Hk; [|by destruct k].
        simpl in Hj. injection Hj as <-. split; [done|].
        unfold wc. simpl World.db. rewrite Hdbn.
        unfold set_tasks. simpl Db.tasks. f_equal.
        apply alter_absorb. intros x. unfold run_row.
        rewrite decide_True by lia. rewrite decide_False by lia.
        reflexivity.
  - unfold post_task_run, handler, try_catch.
    rewrite (bind_ok _ _ _ _ _ (on_db_run (getTask (Task.id t)) _ _ _ eq_refl)).
    cbn [fst]. rewrite with_db_same. rewrite Ht.
    rewrite (bind_ok _ _ _ _ _ (on_db_run _ _ _ _
      (updateTask_spec now (Task.id t) running_update _ eq_refl))).
    rewrite Ht. cbn [fmap option_fmap option_map]. fold w0.
    unfold sendTaskStart. fold now. fold e0.
    rewrite (bind_ok _ _ _ _ _ (on_service_broadcast w0 _ _ Hs)). fold w0'.
    fold n. rewrite (bind_ok _ _ _ _ _ Hloop). fold wn.
    rewrite (bind_ok _ _ _ _ _ (on_db_run _ _ _ _
      (updateTask_spec now (Task.id t) (status_update "completed") _ eq_refl))).
    fold wc. unfold sendTaskComplete.
    rewrite (bind_ok _ _ _ _ _ (on_service_broadcast wc _ _ Hsn)).
    unfold ret. rewrite Hstates.
    rewrite last_cons. rewrite last_last. reflexivity.
Qed.

Lemma post_task_run_none env id w :
  task_of w id = None ->
  post_task_run env id w
  = (Ok (Response.mk 404 (JsonError "Task not found")), w).
Proof.
  intros Ht. unfold task_of in Ht. unfold post_task_run, handler, try_catch.
  rewrite (bind_ok _ _ _ _ _ (on_db_run (getTask id) _ _ _ eq_refl)).
  cbn [fst]. rewrite with_db_same. by rewrite Ht.
Qed.

(** The state that a run leaves behind. *)
Lemma post_task_run_some env id w t :
  tasks_keyed (World.db w) ->
  svc_inv (World.streamingService w) ->
  task_of w id = Some t ->
  exists w',
    post_task_run env id w
    = (Ok (Response.mk 200 (JsonTask (Some (start_row (Env.now env) t)))), w')
    /\ svc_inv (World.streamingService w')
    /\ World.db w'
       = set_tasks (alter (run_row (Env.now env) (length (plan_of t))
                             (S (length (plan_of t)))) id) (World.db w).
Proof.
  intros Hkeyed Hs Ht.
  destruct (run_states_spec env id w t Hkeyed Hs Ht) as (Hlen & Hstates & Hrun).
  eexists. split; [exact Hrun|].
  assert (Hne : run_states env id w <> []) by (intros E; by rewrite E in Hlen).
  pose proof (last_lookup _ w Hne) as Hlast. rewrite Hlen in Hlast.
  replace (S (S (length (plan_of t))) - 1)%nat with (S (length (plan_of t)))
    in Hlast by lia.
  destruct (Hstates _ _ Hlast) as [Hsl Hdb].
  split; [by apply svc_inv_broadcast|]. exact Hdb.
Qed.

Lemma post_approval_resolve_tasks env id body w :
  svc_inv (World.streamingService w) ->
  Db.tasks (World.db (snd (post_approval_resolve env id body w)))
  = Db.tasks (World.db w).
Proof.
  intros Hs. destruct (approval_of w id) as [a|] eqn:Ha.
  - by rewrite (post_approval_resolve_some env id body w a).
  - by rewrite post_approval_resolve_none.
Qed.

(** C1, as the spec words it, fails: the session allows no destructive
    action and does not run dry, the plan of the task is one [delete_file]
    step, and yet the run creates no approval and completes the task. *)
Lemma run_deletes_without_approval :
  let w' := snd (post_task_run env10 "D" world_delete) in
  (Session.allowDestructive <$> session_of world_delete "S" = Some false
   /\ Session.dryRunMode <$> session_of world_delete "S" = Some false
   /\ plan_actions <$> task_of world_delete "D" = Some [delete_file])
  /\ pendingFor w' "S" = []
  /\ ~ (exists a, pendingFor w' "S" = [a] /\ Approval.action a = "delete_file")
  /\ Task.status <$> task_of w' "D" = Some "completed"
  /\ Task.currentStep <$> task_of w' "D" = Some (Some 1)
  /\ Task.error <$> task_of w' "D" = Some (@None string).
Proof.
  split; [by vm_compute|]. split; [by vm_compute|].
  split; [|by vm_compute].
  intros (a & Ha & _). vm_compute in Ha. discriminate Ha.
Qed.

(** C1 (amended): whatever the actions of its plan and whatever the flags
    of its session, the run of a stored task creates no approval and does
    not wait: it is answered 200, the approvals are as they were, and the
    task is completed with [currentStep] at the length of the plan and its
    error as it was.  Resolving an approval, rejected or approved, leaves
    every task as it is. *)
Theorem run_never_gates (w : World.t) (env : Env.t) (id : string) (t : Task.t) :
  tasks_keyed (World.db w) ->
  svc_reachable (World.streamingService w) ->
  task_of w id = Some t ->
  exists w',
    post_task_run env id w
    = (Ok (Response.mk 200 (JsonTask (Some (start_row (Env.now env) t)))), w')
    /\ Db.approvals (World.db w') = Db.approvals (World.db w)
    /\ (forall sid, pendingFor w' sid = pendingFor w sid)
    /\ (exists t', task_of w' id = Some t'
          /\ Task.status t' = "completed"
          /\ Task.currentStep t' = Some (Z.of_nat (length (plan_of t)))
          /\ Task.error t' = Task.error t)
    /\ (forall env' aid body,
          Db.tasks (World.db (snd (post_approval_resolve env' aid body w')))
          = Db.tasks (World.db w')).
Proof.
  intros Hkeyed Hreach Ht. pose proof (svc_reachable_inv _ Hreach) as Hs.
  destruct (post_task_run_some env id w t Hkeyed Hs Ht) as (w' & Hrun & Hs' & Hdb).
  exists w'. split; [exact Hrun|]. split; [by rewrite Hdb|].
  split; [intros sid; unfold pendingFor; by rewrite Hdb|]. split.
  - unfold task_of in *. rewrite Hdb. simpl. rewrite lookup_alter_eq, Ht. simpl.
    eexists. split; [reflexivity|].
    rewrite run_row_status, run_row_currentStep.
    rewrite !decide_False by lia.
    split; [done|]. split; [done|]. apply run_row_columns.
  - intros env' aid body. by apply post_approval_resolve_tasks.
Qed.

Lemma run_never_gates_witness :
  tasks_keyed (World.db world_delete)
  /\ svc_reachable (World.streamingService world_delete)
  /\ exists t w',
       task_of world_delete "D" = Some t
       /\ snd (post_task_run env10 "D" world_delete) = w'
       /\ Db.approvals (World.db w') = Db.approvals (World.db world_delete).
Proof.
  assert (Hkeyed : tasks_keyed (World.db world_delete))
    by (apply (bool_decide_unpack _); vm_compute; reflexivity).
  assert (Hreach : svc_reachable (World.streamingService world_delete))
    by (exists [OpWs 2 (WsConnection (Some "S") None)]; reflexivity).
  split; [exact Hkeyed|]. split; [exact Hreach|].
  destruct (task_of world_delete "D") as [t|] eqn:Ht;
    [|vm_compute in Ht; discriminate].
  destruct (run_never_gates world_delete env10 "D" t Hkeyed Hreach Ht)
    as (w' & Hrun & Happ & _).
  exists t, w'. split; [done|]. split; [by rewrite Hrun|]. exact Happ.
Defined.

(** ** Retry *)

Lemma match_route_run id :
  id <> EmptyString ->
  match_route POST ["api"; "tasks"; id; "run"] = Some (RouteRunTask id).
Proof.
  intros Hid. destruct id as [|c id']; [done|]. by vm_compute.
Qed.

Lemma dispatch_retry env id w :
  id <> EmptyString ->
  dispatch env (onRetryTask id) w
  = match post_task_run env id w with
    | (Ok res, w') => (Some res, w')
    | (Throw _, w') => (None, w')
    end.
Proof.
  intros Hid. unfold dispatch, onRetryTask, runTaskMutation.
  cbn [Request.method Request.path Request.body].
  by rewrite match_route_run.
Qed.

(** C5, as the spec words it, fails: the retry of a task that failed at its
    second step writes [currentStep = 0] first, not the recorded [1], never
    changes [retryCount], and the observer is sent the step event of index
    [0] again. *)
Lemma retry_restarts_from_zero :
  let w' := snd (dispatch env10 (onRetryTask "T") world_failed) in
  (Task.status <$> task_of world_failed "T" = Some "failed"
   /\ Task.currentStep <$> task_of world_failed "T" = Some (Some 1)
   /\ Task.retryCount <$> task_of world_failed "T" = Some (Some 0))
  /\ (fmap (fun wj => (Task.status <$> task_of wj "T",
                        Task.currentStep <$> task_of wj "T",
                        Task.retryCount <$> task_of wj "T"))
        (run_states env10 "T" world_failed)
      = [(Some "running", Some (Some 0), Some (Some 0));
         (Some "running", Some (Some 1), Some (Some 0));
         (Some "running", Some (Some 2), Some (Some 0));
         (Some "completed", Some (Some 2), Some (Some 0))])
  /\ Task.retryCount <$> task_of w' "T" = Some (Some 0)
  /\ StreamEvent.data <$> sent_to (World.streamingService w') 0%nat
     = [DataMessage "Connected to streaming service";
        DataTitle "two steps";
        DataStep 0 2 "check_tool";
        DataStep 1 2 "shell_exec";
        DataSuccess true].
Proof. by vm_compute. Qed.

(** C5 (amended): the retry button sends the run request.  For a stored
    task, failed or not, the request is answered 200 with the task set
    running at [currentStep = 0]; the run then writes [currentStep] [1] to
    the length of the plan, one step after the other, and completes the
    task; [retryCount] is the same in every state written and at the end. *)
Theorem retry_is_run (w : World.t) (env : Env.t) (id : string) (t : Task.t) :
  tasks_keyed (World.db w) ->
  svc_reachable (World.streamingService w) ->
  id <> EmptyString ->
  task_of w id = Some t ->
  let n := length (plan_of t) in
  dispatch env (onRetryTask id) w = dispatch env (onRunTask id) w
  /\ exists t0 w',
      dispatch env (onRetryTask id) w
      = (Some (Response.mk 200 (JsonTask (Some t0))), w')
      /\ Task.status t0 = "running"
      /\ Task.currentStep t0 = Some 0
      /\ Task.retryCount t0 = Task.retryCount t
      /\ length (run_states env id w) = S (S n)
      /\ (forall j wj, run_states env id w !! j = Some wj ->
            exists tj, task_of wj id = Some tj
              /\ Task.retryCount tj = Task.retryCount t
              /\ Task.currentStep tj = Some (Z.of_nat (j `min` n))
              /\ Task.status tj
                 = if decide (j <= n)%nat then "running" else "completed")
      /\ (exists t', task_of w' id = Some t'
            /\ Task.status t' = "completed"
            /\ Task.currentStep t' = Some (Z.of_nat n)
            /\ Task.retryCount t' = Task.retryCount t).
Proof.
  intros Hkeyed Hreach Hid Ht n. pose proof (svc_reachable_inv _ Hreach) as Hs.
  split; [done|].
  destruct (run_states_spec env id w t Hkeyed Hs Ht) as (Hlen & Hstates & _).
  destruct (post_task_run_some env id w t Hkeyed Hs Ht) as (w' & Hrun & Hs' & Hdb).
  exists (start_row (Env.now env) t), w'.
  split; [by rewrite dispatch_retry, Hrun|].
  split; [done|]. split; [done|]. split; [done|]. split; [exact Hlen|]. split.
  - intros j wj Hj. destruct (Hstates j wj Hj) as [_ Hdbj].
    exists (run_row (Env.now env) n j t). unfold task_of in *. rewrite Hdbj. simpl.
    rewrite lookup_alter_eq, Ht. split; [done|].
    split; [apply run_row_columns|]. split; [|apply run_row_status].
    rewrite run_row_currentStep. case_decide; do 2 f_equal; lia.
  - exists (run_row (Env.now env) n (S n) t). unfold task_of in *. rewrite Hdb.
    simpl. rewrite lookup_alter_eq, Ht. split; [done|].
    rewrite run_row_status, run_row_currentStep, !decide_False by lia.
    split; [done|]. split; [done|]. apply run_row_columns.
Qed.

Lemma retry_is_run_witness :
  tasks_keyed (World.db world_failed)
  /\ svc_reachable (World.streamingService world_failed)
  /\ exists t t0 w',
       task_of world_failed "T" = Some t
       /\ dispatch env10 (onRetryTask "T") world_failed
          = (Some (Response.mk 200 (JsonTask (Some t0))), w')
       /\ Task.currentStep t0 = Some 0
       /\ Task.retryCount t0 = Task.retryCount t.
Proof.
  assert (Hkeyed : tasks_keyed (World.db world_failed))
    by (apply (bool_decide_unpack _); vm_compute; reflexivity).
  assert (Hreach : svc_reachable (World.streamingService world_failed))
    by (exists [OpWs 2 (WsConnection (Some "S") None)]; reflexivity).
  assert (Hid : "T" <> EmptyString) by discriminate.
  split; [exact Hkeyed|]. split; [exact Hreach|].
  destruct (task_of world_failed "T") as [t|] eqn:Ht;
    [|vm_compute in Ht; discriminate].
  destruct (retry_is_run world_failed env10 "T" t Hkeyed Hreach Hid Ht)
    as (_ & t0 & w' & Hrun & _ & Hcs & Hrc & _).
  exists t, t0, w'. split; [reflexivity|]. split; [exact Hrun|].
  split; [exact Hcs|exact Hrc].
Defined.

(** ** The invariant of the states between two requests *)



































(** ** The steps of a run *)





(** * Further properties of the streaming service *)

Lemma svc_reachable_ind (P : StreamingService.t -> Prop) :
  P StreamingService.empty ->
  (forall s op, svc_reachable s -> P s -> P (svc_step s op)) ->
  forall s, svc_reachable s -> P s.
Proof.
  intros H0 Hstep s [ops ->].
  induction ops as [|op ops IH] using rev_ind; [exact H0|].
  unfold svc_run. rewrite foldl_app. simpl.
  apply Hstep; [by exists ops|exact IH].
Qed.

Lemma filter_all {A} (P : A -> Prop) `{forall x, Decision (P x)} (l : list A) :
  Forall P l -> filter P l = l.
Proof.
  induction 1 as [|x l Hx Hl IH]; [done|].
  rewrite filter_cons. destruct (decide (P x)); [by rewrite IH|done].
Qed.

(** Removing the one entry of a key from a list without repeated keys. *)
Lemma length_filter_remove_one {A B} `{EqDecision B} (f : A -> B)
  (l : list A) (x : A) :
  NoDup (f <$> l) -> x ∈ l ->
  S (length (filter (fun y => f y <> f x) l)) = length l.
Proof.
  induction l as [|a l IH]; intros Hnd Hx; [by apply elem_of_nil in Hx|].
  rewrite fmap_cons in Hnd. apply NoDup_cons in Hnd as [Ha Hnd].
  rewrite filter_cons. destruct (decide (f a <> f x)) as [Hne|Heq].
  - simpl. f_equal. apply IH; [done|].
    apply elem_of_cons in Hx as [->|Hx]; done.
  - apply dec_stable in Heq. simpl. f_equal. rewrite filter_all; [done|].
    apply Forall_forall. intros y Hy Hyx. apply Ha. rewrite Heq, <- Hyx.
    by apply list_elem_of_fmap_2.
Qed.

(** ** Two more invariants of the reachable states *)

Lemma clients_nonempty_removeClient sid c s :
  clients_nonempty s -> clients_nonempty (snd (removeClient sid c s)).
Proof.
  intros Hne sid' cs'. rewrite removeClient_spec. cbn [snd].
  case_decide as Hlen; simpl.
  - rewrite lookup_insert_Some. intros [[<- <-]|[_ H]]; [|by eapply Hne].
    intros Heq. rewrite Heq in Hlen. simpl in Hlen. lia.
  - rewrite lookup_delete_Some. intros [_ H]. by eapply Hne.
Qed.

Lemma clients_nonempty_step s op :
  svc_inv s -> clients_nonempty s -> clients_nonempty (svc_step s op).
Proof.
  intros Hs Hne.
  destruct op as [now [qs qu|r message|r|r|r st]|sid' event]; unfold svc_step.
  - rewrite on_connection_spec. intros sid cs. simpl.
    rewrite lookup_insert_Some. intros [[_ <-]|[_ H]]; [|by eapply Hne].
    by destruct (observers s (sessionId_of_url qs)).
  - cbn [ws_event]. rewrite on_message_spec.
    destruct (StreamingService.sockets s !! r) as [w|] eqn:Hw; [|done].
    destruct (WebSocket.listeners w) as [[sid' c']|] eqn:Hl; [|done].
    destruct message as [[| |]|]; try done.
    destruct Hs as (H1 & H2 & H3). pose proof (H3 _ _ _ _ Hw Hl) as Hc.
    by rewrite sendToClient_spec by (rewrite Hc, Hw; eauto).
  - cbn [ws_event]. rewrite on_close_spec.
    destruct (StreamingService.sockets s !! r) as [w|] eqn:Hw; [|done].
    cbn zeta. destruct (WebSocket.listeners w) as [[sid' c']|]; [|done].
    by apply clients_nonempty_removeClient.
  - cbn [ws_event]. rewrite on_error_spec.
    destruct (StreamingService.sockets s !! r) as [w|] eqn:Hw; [|done].
    destruct (WebSocket.listeners w) as [[sid' c']|]; [|done].
    by apply clients_nonempty_removeClient.
  - cbn [ws_event]. by rewrite ws_set_state_spec.
  - intros sid cs. rewrite broadcast_clients by done. apply Hne.
Qed.

Lemma svc_reachable_clients_nonempty s : svc_reachable s -> clients_nonempty s.
Proof.
  revert s. apply svc_reachable_ind; [done|].
  intros s op Hr. apply clients_nonempty_step. by apply svc_reachable_inv.
Qed.

Lemma listeners_session_alter f r s :
  (forall w, WebSocket.listeners (f w) = WebSocket.listeners w) ->
  listeners_session s -> listeners_session (set_sockets (alter f r) s).
Proof.
  intros Hf Hs r' w' sid c. simpl.
  destruct (decide (r = r')) as [<-|Hne].
  - rewrite lookup_alter_eq.
    destruct (StreamingService.sockets s !! r) as [w|] eqn:Hw; [|done].
    simpl. intros [= <-]. rewrite Hf. by eapply Hs.
  - rewrite lookup_alter_ne by done. apply Hs.
Qed.

Lemma listeners_session_deliver_all m refs s :
  listeners_session s -> listeners_session (set_sockets (deliver_all m refs) s).
Proof.
  intros Hs r w' sid c Hw' Hl. simpl in Hw'.
  pose proof (deliver_all_shape m refs (StreamingService.sockets s) r) as Hsh.
  rewrite Hw' in Hsh.
  destruct (StreamingService.sockets s !! r) as [w|] eqn:Hw; [|done].
  destruct Hsh as (_ & Hl' & _). rewrite Hl' in Hl. by eapply Hs.
Qed.

Lemma listeners_session_step s op :
  svc_inv s -> listeners_session s -> listeners_session (svc_step s op).
Proof.
  intros Hs Hls.
  destruct op as [now [qs qu|r message|r|r|r st]|sid' event]; unfold svc_step.
  - rewrite on_connection_spec. intros r' w' sid c. simpl.
    destruct (decide (StreamingService.nextSocket s = r')) as [<-|Hne].
    + rewrite lookup_insert_eq. intros [= <-]. simpl. by intros [= <- <-].
    + rewrite lookup_insert_ne by done. apply Hls.
  - cbn [ws_event]. rewrite on_message_spec.
    destruct (StreamingService.sockets s !! r) as [w|] eqn:Hw; [|done].
    destruct (WebSocket.listeners w) as [[sid' c']|] eqn:Hl; [|done].
    destruct message as [[| |]|]; try done.
    destruct Hs as (H1 & H2 & H3). pose proof (H3 _ _ _ _ Hw Hl) as Hc.
    rewrite sendToClient_spec by (rewrite Hc, Hw; eauto).
    apply listeners_session_alter; [apply push_listeners|done].
  - cbn [ws_event]. rewrite on_close_spec.
    destruct (StreamingService.sockets s !! r) as [w|] eqn:Hw; [|done].
    cbn zeta. destruct (WebSocket.listeners w) as [[sid' c']|].
    + intros r' w' sid c. rewrite removeClient_sockets.
      by apply listeners_session_alter.
    + by apply listeners_session_alter.
  - cbn [ws_event]. rewrite on_error_spec.
    destruct (StreamingService.sockets s !! r) as [w|] eqn:Hw; [|done].
    destruct (WebSocket.listeners w) as [[sid' c']|]; [|done].
    intros r' w' sid c. rewrite removeClient_sockets. apply Hls.
  - cbn [ws_event]. rewrite ws_set_state_spec. by apply listeners_session_alter.
  - rewrite broadcast_spec by by apply svc_inv_allocated.
    by apply listeners_session_deliver_all.
Qed.

Lemma svc_reachable_listeners_session s :
  svc_reachable s -> listeners_session s.
Proof.
  revert s. apply svc_reachable_ind; [done|].
  intros s op Hr. apply listeners_session_step. by apply svc_reachable_inv.
Qed.

Lemma elem_of_getConnectedSessions s sid :
  sid ∈ getConnectedSessions s <-> is_Some (StreamingService.clients s !! sid).
Proof.
  unfold getConnectedSessions. rewrite list_elem_of_fmap. split.
  - intros ([k cs] & -> & H). apply elem_of_map_to_list in H. by exists cs.
  - intros [cs H]. exists (sid, cs). split; [done|]. by apply elem_of_map_to_list.
Qed.

Lemma set_clients_same f s :
  f (StreamingService.clients s) = StreamingService.clients s ->
  set_clients f s = s.
Proof. destruct s as [cl so n]. unfold set_clients. simpl. by intros ->. Qed.

Lemma set_sockets_same f s :
  f (StreamingService.sockets s) = StreamingService.sockets s ->
  set_sockets f s = s.
Proof. destruct s as [cl so n]. unfold set_sockets. simpl. by intros ->. Qed.

(** ** The connection handler *)

(** X1. A connection registers one client under the session named by the
    URL (under [default] when the URL names none), never under the empty
    session id; the new socket is open and has received the acknowledgement
    and nothing else; no other session and no other socket is touched. *)
Theorem connection_registers_and_acknowledges s now q_session q_user :
  let s' := svc_step s (OpWs now (WsConnection q_session q_user)) in
  let r := StreamingService.nextSocket s in
  let sid := sessionId_of_url q_session in
  (sid = "default" \/ q_session = Some sid)
  /\ sid <> EmptyString
  /\ observers s' sid
     = observers s sid ++ [WebSocketClient.mk r sid (or_undefined q_user)]
  /\ getClientCount sid s' = S (getClientCount sid s)
  /\ (forall sid', sid' <> sid -> observers s' sid' = observers s sid')
  /\ state_of s' r = Some OPEN
  /\ sent_to s' r = [JSON_stringify (connected_event now sid)]
  /\ (forall r', r' <> r ->
        sent_to s' r' = sent_to s r' /\ state_of s' r' = state_of s r').
Proof.
  intros s' r sid. subst s'. unfold svc_step. rewrite on_connection_spec.
  fold r sid. unfold observers at 1, getClientCount, state_of, sent_to. simpl.
  split; [destruct q_session as [[|a q]|]; by eauto|].
  split; [by destruct q_session as [[|a q]|]|].
  rewrite !lookup_insert_eq. simpl. split; [done|].
  split; [rewrite length_app; simpl; unfold observers; lia|].
  split; [intros sid' Hne; unfold observers; simpl;
          by rewrite lookup_insert_ne by done|].
  split; [done|]. split; [done|].
  intros r' Hne. unfold sent_to, state_of. simpl.
  by rewrite !lookup_insert_ne by done.
Qed.

(** ** Messages of a client *)

(** X2. A ping is answered with one pong frame, stamped with the session of
    the socket, on the socket that sent it when that socket is open, and
    with nothing otherwise; no other socket receives anything and no
    registration changes.  Any other message, and a text that is not JSON,
    leaves the service as it was. *)
Theorem ping_is_answered_to_the_sender s now sid r :
  svc_reachable s -> subscribed s sid r ->
  let s' := svc_step s (OpWs now (WsMessage r (Some ping))) in
  (is_open s r ->
     sent_to s' r = sent_to s r ++ [JSON_stringify (pong_event now sid)])
  /\ (~ is_open s r -> s' = s)
  /\ (forall r', r' <> r -> sent_to s' r' = sent_to s r')
  /\ StreamingService.clients s' = StreamingService.clients s
  /\ forall m, m <> Some ping -> svc_step s (OpWs now (WsMessage r m)) = s.
Proof.
  intros Hr Hsub s'. subst s'. pose proof (svc_reachable_inv _ Hr) as Hs.
  destruct (subscribed_inv _ _ _ Hs Hsub) as (c & w & Hc & Hrc & Hw & Hl).
  pose proof (svc_reachable_listeners_session _ Hr _ _ _ _ Hw Hl) as Hsid.
  unfold svc_step. cbn [ws_event]. rewrite !on_message_spec, Hw, Hl.
  rewrite sendToClient_spec by (rewrite Hrc, Hw; eauto).
  rewrite Hrc, Hsid. cbn [snd]. fold (pong_event now sid).
  split; [|split; [|split; [|split]]].
  - intros (w' & Hw' & Hopen). unfold sent_to. simpl.
    rewrite lookup_alter_eq, Hw. simpl. rewrite Hw in Hw'. injection Hw' as <-.
    by rewrite push_open.
  - intros Hno. apply set_sockets_same, alter_id. intros w' Hw'.
    apply push_not_open. intros Hopen. apply Hno. by exists w'.
  - intros r' Hne. unfold sent_to. simpl. by rewrite lookup_alter_ne by done.
  - done.
  - intros m Hm. rewrite on_message_spec, Hw, Hl.
    by destruct m as [[| |]|].
Qed.

Lemma ping_is_answered_to_the_sender_witness :
  sent_to (svc_step svc_three (OpWs 9 (WsMessage 0%nat (Some ping)))) 0%nat
  = sent_to svc_three 0%nat ++ [JSON_stringify (pong_event 9 "S")].
Proof.
  assert (svc_reachable svc_three) as Hr by (eexists; reflexivity).
  assert (subscribed svc_three "S" 0%nat) as Hsub
    by (apply (bool_decide_unpack _); vm_compute; reflexivity).
  apply (ping_is_answered_to_the_sender svc_three 9 "S" 0%nat Hr Hsub).
  eexists. split; [vm_compute; reflexivity|reflexivity].
Defined.

(** ** The close listener *)

(** X3. When a registered socket closes, its session counts one client
    less, the socket is registered nowhere, it is closed and keeps its
    frames, the other sessions keep their clients, and a session whose last
    client it was is no longer listed as connected. *)
Theorem close_unregisters_the_socket s now sid r :
  svc_reachable s -> subscribed s sid r ->
  let s' := svc_step s (OpWs now (WsClose r)) in
  S (getClientCount sid s') = getClientCount sid s
  /\ (forall sid', sid' <> sid -> observers s' sid' = observers s sid')
  /\ unsubscribed s' r
  /\ state_of s' r = Some CLOSED
  /\ sent_to s' r = sent_to s r
  /\ (getClientCount sid s = 1%nat -> sid ∉ getConnectedSessions s').
Proof.
  intros Hr Hsub s'. pose proof (svc_reachable_inv _ Hr) as Hs.
  destruct (subscribed_inv _ _ _ Hs Hsub) as (c & w & Hc & Hrc & Hw & Hl).
  assert (Hcount : S (getClientCount sid s') = getClientCount sid s).
  { subst s'. unfold svc_step. cbn [ws_event]. rewrite on_close_spec, Hw.
    cbn zeta. rewrite Hl. unfold getClientCount.
    change (default [] (StreamingService.clients ?x !! sid))
      with (observers x sid).
    rewrite removeClient_observers. rewrite decide_True by done.
    change (observers (set_sockets _ s) sid) with (observers s sid).
    apply (length_filter_remove_one WebSocketClient.ws); [|done].
    by apply svc_inv_observers_NoDup. }
  split; [exact Hcount|]. subst s'. unfold svc_step in *. cbn [ws_event] in *.
  split; [|split; [|split; [|split]]].
  - intros sid' Hne. rewrite on_close_spec, Hw. cbn zeta. rewrite Hl.
    rewrite removeClient_observers. by rewrite decide_False by done.
  - intros sid' Hsub'. apply (on_close_subscribed s sid r sid' r Hs Hsub) in Hsub'.
    by destruct Hsub'.
  - rewrite on_close_spec, Hw. cbn zeta. rewrite Hl.
    unfold state_of. rewrite removeClient_sockets. simpl.
    by rewrite lookup_alter_eq, Hw.
  - rewrite on_close_spec, Hw. cbn zeta. rewrite Hl.
    unfold sent_to. rewrite removeClient_sockets. simpl.
    by rewrite lookup_alter_eq, Hw.
  - intros H1 Hin. rewrite H1 in Hcount. injection Hcount as Hcount.
    apply elem_of_getConnectedSessions in Hin as [cs Hcs].
    assert (clients_nonempty (snd (on_close r s))) as Hne.
    { apply (clients_nonempty_step s (OpWs now (WsClose r)) Hs).
      by apply svc_reachable_clients_nonempty. }
    apply (Hne _ _ Hcs). unfold getClientCount in Hcount. rewrite Hcs in Hcount.
    by destruct cs.
Qed.

Lemma close_unregisters_the_socket_witness :
  S (getClientCount "S" (svc_step svc_three (OpWs 9 (WsClose 2%nat))))
  = getClientCount "S" svc_three.
Proof.
  assert (svc_reachable svc_three) as Hr by (eexists; reflexivity).
  assert (subscribed svc_three "S" 2%nat) as Hsub
    by (apply (bool_decide_unpack _); vm_compute; reflexivity).
  apply (close_unregisters_the_socket svc_three 9 "S" 2%nat Hr Hsub).
Defined.

(** ** Sessions and their clients *)

(** X4. In every state that the service reaches, the sessions listed by
    [getConnectedSessions] are exactly those whose client count is
    positive: no session stays registered with an empty array. *)
Theorem connected_sessions_have_clients s sid :
  svc_reachable s ->
  sid ∈ getConnectedSessions s <-> (0 < getClientCount sid s)%nat.
Proof.
  intros Hr. rewrite elem_of_getConnectedSessions. unfold getClientCount.
  split.
  - intros [cs Hcs]. rewrite Hcs. simpl.
    pose proof (svc_reachable_clients_nonempty _ Hr _ _ Hcs).
    destruct cs; [done|simpl; lia].
  - destruct (StreamingService.clients s !! sid) as [cs|]; [by eauto|].
    simpl. lia.
Qed.

Lemma connected_sessions_have_clients_witness :
  "T" ∈ getConnectedSessions svc_three
  <-> (0 < getClientCount "T" svc_three)%nat.
Proof.
  apply (connected_sessions_have_clients svc_three "T").
  eexists; reflexivity.
Defined.

(** X5. Removing a client whose socket is not registered under the session
    changes nothing, and removing a client twice is the same as removing it
    once, as when the error and the close listener of a socket both run. *)
Theorem removeClient_is_idempotent s sid c :
  svc_reachable s ->
  (~ subscribed s sid (WebSocketClient.ws c) -> removeClient sid c s = (Ok tt, s))
  /\ removeClient sid c (snd (removeClient sid c s)) = removeClient sid c s.
Proof.
  intros Hr.
  assert (Hnoop : forall s0, clients_nonempty s0 ->
            ~ subscribed s0 sid (WebSocketClient.ws c) ->
            removeClient sid c s0 = (Ok tt, s0)).
  { intros s0 Hne Hsub. rewrite removeClient_spec. f_equal. cbn zeta.
    rewrite filter_all.
    - unfold observers. destruct (StreamingService.clients s0 !! sid) as [cs|] eqn:Hcs.
      + simpl. rewrite decide_True.
        * apply set_clients_same. by apply insert_id.
        * specialize (Hne _ _ Hcs). destruct cs; [done|simpl; lia].
      + simpl. apply set_clients_same. by apply delete_id.
    - apply Forall_forall. intros c' Hc' Heq. apply Hsub. rewrite <- Heq.
      by apply list_elem_of_fmap_2. }
  pose proof (svc_reachable_clients_nonempty _ Hr) as Hne.
  split; [by apply Hnoop|].
  rewrite (Hnoop (snd (removeClient sid c s))).
  - by rewrite removeClient_spec.
  - by apply clients_nonempty_removeClient.
  - intros Hsub. apply list_elem_of_fmap in Hsub as (c' & Heq & Hc').
    rewrite removeClient_observers, decide_True in Hc' by done.
    apply list_elem_of_filter in Hc' as [Hc' _]. by apply Hc'.
Qed.

Lemma removeClient_is_idempotent_witness :
  removeClient "S" (WebSocketClient.mk 1 "T" None)
    (snd (removeClient "S" (WebSocketClient.mk 1 "T" None) svc_three))
  = removeClient "S" (WebSocketClient.mk 1 "T" None) svc_three.
Proof.
  apply (removeClient_is_idempotent svc_three "S" (WebSocketClient.mk 1 "T" None)).
  eexists; reflexivity.
Defined.

(** * Further properties of the routes *)

Lemma on_db_service {A} (m : ST Db.t A) w :
  World.streamingService (snd (on_db m w)) = World.streamingService w.
Proof. unfold on_db. by destruct (m (World.db w)). Qed.

Lemma on_streamingService_service {A} (m : ST StreamingService.t A) w :
  World.streamingService (snd (on_streamingService m w))
  = snd (m (World.streamingService w)).
Proof. unfold on_streamingService. by destruct (m (World.streamingService w)). Qed.

Lemma svc_run_snoc ops op s : svc_run (ops ++ [op]) s = svc_step (svc_run ops s) op.
Proof. unfold svc_run. by rewrite foldl_app. Qed.

Lemma svc_run_app ops1 ops2 s :
  svc_run (ops1 ++ ops2) s = svc_run ops2 (svc_run ops1 s).
Proof. unfold svc_run. by rewrite foldl_app. Qed.

(** Publications to one session leave the sockets of the others alone. *)
Lemma publish_elsewhere s sid es r :
  svc_inv s -> ~ subscribed s sid r ->
  sent_to (svc_run (OpBroadcast sid <$> es) s) r = sent_to s r.
Proof.
  revert s. induction es as [|e es IH]; intros s Hs Hno; [done|].
  simpl. rewrite IH.
  - by apply broadcast_sent_other.
  - by apply svc_inv_broadcast.
  - unfold subscribed. by rewrite broadcast_observers.
Qed.

Lemma publish_clients s sid es :
  svc_inv s ->
  StreamingService.clients (svc_run (OpBroadcast sid <$> es) s)
  = StreamingService.clients s.
Proof.
  revert s. induction es as [|e es IH]; intros s Hs; [done|].
  simpl. rewrite IH by by apply svc_inv_broadcast. by apply broadcast_clients.
Qed.

(** ** The events of a run *)

Lemma run_loop_states_service env t len steps i w :
  World.streamingService (List.last (run_loop_states env t len steps i w) w)
  = svc_run (OpBroadcast (Task.sessionId t)
               <$> step_events (Env.now env) t len steps i)
      (World.streamingService w).
Proof.
  revert i w. induction steps as [|step steps IH]; intros i w; [done|].
  cbn [run_loop_states step_events]. rewrite last_cons, IH.
  rewrite on_db_service, on_streamingService_service. reflexivity.
Qed.

Lemma run_states_service env id w t :
  task_of w id = Some t ->
  World.streamingService (List.last (run_states env id w) w)
  = svc_run (OpBroadcast (Task.sessionId t)
               <$> (task_start_event (Env.now env) t
                    :: step_events (Env.now env) t
                         (Z.of_nat (length (plan_of t))) (plan_of t) 0))
      (World.streamingService w).
Proof.
  intros Ht. unfold task_of in Ht. unfold run_states. rewrite Ht.
  rewrite last_cons, last_last, on_db_service, run_loop_states_service.
  rewrite on_streamingService_service, on_db_service. reflexivity.
Qed.

(** X6. A run of a stored task publishes, to the session of the task and in
    this order, the start of the task, one step event per step of the plan
    with its index and action, and the completion: every open observer of
    the session receives exactly these frames, and no socket outside the
    session receives anything. *)
Theorem run_publishes_start_steps_completion (w : World.t) (env : Env.t)
  (id : string) (t : Task.t) :
  tasks_keyed (World.db w) ->
  svc_reachable (World.streamingService w) ->
  task_of w id = Some t ->
  let s := World.streamingService w in
  let s' := World.streamingService (snd (post_task_run env id w)) in
  let es := run_events (Env.now env) t in
  s' = svc_run (OpBroadcast (Task.sessionId t) <$> es) s
  /\ length es = (length (plan_of t) + 2)%nat
  /\ (forall r, subscribed s (Task.sessionId t) r -> is_open s r ->
        sent_to s' r = sent_to s r ++ (JSON_stringify <$> es))
  /\ (forall r, ~ subscribed s (Task.sessionId t) r -> sent_to s' r = sent_to s r)
  /\ StreamingService.clients s' = StreamingService.clients s.
Proof.
  intros Hkeyed Hreach Ht s s' es. pose proof (svc_reachable_inv _ Hreach) as Hs.
  destruct (run_states_spec env id w t Hkeyed Hs Ht) as (_ & _ & Hrun).
  assert (Hs' : s' = svc_run (OpBroadcast (Task.sessionId t) <$> es) s).
  { subst s' es. rewrite Hrun. cbn [snd]. unfold published, with_service.
    cbn [World.streamingService]. rewrite (run_states_service env id w t Ht).
    unfold run_events. rewrite app_comm_cons, fmap_app, svc_run_app.
    reflexivity. }
  split; [exact Hs'|]. split.
  { subst es. unfold run_events. simpl. rewrite length_app. simpl.
    assert (forall steps len i,
              length (step_events (Env.now env) t len steps i) = length steps) as ->.
    { induction steps as [|x steps IH]; intros len i; [done|].
      simpl. by rewrite IH. }
    lia. }
  rewrite Hs'. split; [|split].
  - intros r Hsub Hopen. by apply publish_in_order.
  - intros r Hno. by apply publish_elsewhere.
  - by apply publish_clients.
Qed.

Lemma run_publishes_start_steps_completion_witness :
  StreamEvent.type <$> sent_to
    (World.streamingService (snd (post_task_run env10 "T" world_failed))) 0%nat
  = (StreamEvent.type <$> sent_to (World.streamingService world_failed) 0%nat)
    ++ [task_start; task_step; task_step; task_complete].
Proof.
  assert (Hkeyed : tasks_keyed (World.db world_failed))
    by (apply (bool_decide_unpack _); vm_compute; reflexivity).
  assert (Hreach : svc_reachable (World.streamingService world_failed))
    by (exists [OpWs 2 (WsConnection (Some "S") None)]; reflexivity).
  destruct (task_of world_failed "T") as [t|] eqn:Ht;
    [|vm_compute in Ht; discriminate].
  destruct (run_publishes_start_steps_completion world_failed env10 "T" t
              Hkeyed Hreach Ht) as (_ & _ & Hsent & _).
  rewrite (Hsent 0%nat).
  - rewrite fmap_app. f_equal. vm_compute in Ht. injection Ht as <-. reflexivity.
  - apply (bool_decide_unpack _). vm_compute in Ht. injection Ht as <-.
    vm_compute. reflexivity.
  - eexists. split; [vm_compute; reflexivity|reflexivity].
Defined.

(** ** Identifiers that name no row *)

Lemma get_task_none id w :
  task_of w id = None ->
  get_task id w = (Ok (Response.mk 404 (JsonError "Task not found")), w).
Proof.
  intros Ht. unfold task_of in Ht. unfold get_task, handler, try_catch.
  rewrite (bind_ok _ _ _ _ _ (on_db_run (getTask id) _ _ _ eq_refl)).
  cbn [fst]. rewrite with_db_same. by rewrite Ht.
Qed.

Lemma get_session_none id w :
  session_of w id = None ->
  get_session id w = (Ok (Response.mk 404 (JsonError "Session not found")), w).
Proof.
  intros Hs. unfold session_of in Hs. unfold get_session, handler, try_catch.
  rewrite (bind_ok _ _ _ _ _ (on_db_run (getSession id) _ _ _ eq_refl)).
  cbn [fst]. rewrite with_db_same. by rewrite Hs.
Qed.

Lemma patch_session_none env id body w :
  session_of w id = None ->
  patch_session env id body w
  = (Ok (Response.mk 404 (JsonError "Session not found")), w).
Proof.
  intros Hsession. unfold session_of in Hsession.
  unfold patch_session, handler, try_catch.
  rewrite (bind_ok _ _ _ _ _ (on_db_run _ _ _ _ (updateSession_spec _ _ _ _))).
  rewrite Hsession. simpl. unfold ret. f_equal.
  destruct w as [[] ? ?]. unfold with_db, set_sessions. simpl in *.
  by rewrite alter_id'.
Qed.

(** X7. A request that names a task, an approval or a session that is not
    stored is answered 404 and leaves the database and the streaming
    service as they were: nothing is written and nothing is published by
    the run, task, resolve, stop, update and session routes. *)
Theorem unknown_ids_are_not_found (env : Env.t) (id : string)
  (body : ReqBody.t) (w : World.t) :
  task_of w id = None -> approval_of w id = None -> session_of w id = None ->
  post_task_run env id w
  = (Ok (Response.mk 404 (JsonError "Task not found")), w)
  /\ get_task id w = (Ok (Response.mk 404 (JsonError "Task not found")), w)
  /\ post_approval_resolve env id body w
     = (Ok (Response.mk 404 (JsonError "Approval not found")), w)
  /\ post_session_stop env id w
     = (Ok (Response.mk 404 (JsonError "Session not found")), w)
  /\ patch_session env id body w
     = (Ok (Response.mk 404 (JsonError "Session not found")), w)
  /\ get_session id w
     = (Ok (Response.mk 404 (JsonError "Session not found")), w).
Proof.
  intros Ht Ha Hs.
  split; [by apply post_task_run_none|].
  split; [by apply get_task_none|].
  split; [by apply post_approval_resolve_none|].
  split; [by apply post_session_stop_none|].
  split; [by apply patch_session_none|by apply get_session_none].
Qed.

Lemma unknown_ids_are_not_found_witness :
  post_task_run env10 "T" world_S
  = (Ok (Response.mk 404 (JsonError "Task not found")), world_S).
Proof.
  apply (unknown_ids_are_not_found env10 "T" ReqBody.empty world_S);
    reflexivity.
Defined.

(** ** Inserts *)


Lemma createMessage_throws now id ins d :
  Db.sessions d !! InsertMessage.sessionId ins = None ->
  exists e, createMessage now id ins d = (Throw e, d).
Proof.
  intros Hs. unfold createMessage, bind, gets. rewrite Hs.
  destruct (Db.messages d !! id); by eexists.
Qed.


Lemma createApproval_ok now id ins w s :
  approval_of w id = None ->
  session_of w (InsertApproval.sessionId ins) = Some s ->
  task_reference_ok w (InsertApproval.taskId ins) ->
  let a := Approval.mk id (InsertApproval.sessionId ins)
             (InsertApproval.taskId ins) (InsertApproval.action ins)
             (InsertApproval.details ins)
             (default "pending" (InsertApproval.status ins)) now None in
  on_db (createApproval now id ins) w
  = (Ok a, with_db (set_approvals (insert id a) (World.db w)) w).
Proof.
  intros Hid Hs Ht a. apply on_db_run.
  unfold approval_of, session_of, task_reference_ok, task_of in *.
  unfold createApproval, bind, gets. rewrite Hid, Hs.
  destruct (InsertApproval.taskId ins) as [tid|]; [|done].
  by rewrite bool_decide_eq_true_2.
Qed.

Lemma elem_of_pendingFor w sid x :
  x ∈ pendingFor w sid
  <-> (exists k, approval_of w k = Some x)
      /\ Approval.sessionId x = sid /\ Approval.status x = "pending".
Proof.
  rewrite pendingFor_filter, list_elem_of_filter, elem_of_rows.
  unfold approval_of. tauto.
Qed.

(** X8. An approval inserted without a status is stored as pending and
    unresolved, and from then on the approvals route of its session lists
    it, beside the approvals listed before; once the resolve route has
    answered for it, whatever the decision, no session lists it any more
    and the other pending approvals are listed as before. *)
Theorem approval_is_pending_until_resolved (w : World.t) (now : Z)
  (id : string) (ins : InsertApproval.t) (env : Env.t) (body : ReqBody.t) :
  svc_reachable (World.streamingService w) ->
  approval_of w id = None ->
  is_Some (session_of w (InsertApproval.sessionId ins)) ->
  task_reference_ok w (InsertApproval.taskId ins) ->
  InsertApproval.status ins = None ->
  exists a w1 w2,
    on_db (createApproval now id ins) w = (Ok a, w1)
    /\ Approval.id a = id
    /\ Approval.status a = "pending"
    /\ Approval.resolvedAt a = None
    /\ Approval.createdAt a = now
    /\ approval_of w1 id = Some a
    /\ (forall sid x,
          x ∈ pendingFor w1 sid
          <-> x ∈ pendingFor w sid
              \/ (x = a /\ sid = InsertApproval.sessionId ins))
    /\ post_approval_resolve env id body w1
       = (Ok (Response.mk 200
                (JsonApproval (resolved (Env.now env) (decision body) a))), w2)
    /\ (forall sid x, x ∈ pendingFor w2 sid <-> x ∈ pendingFor w sid).
Proof.
  intros Hreach Hid [s Hs] Ht Hst.
  pose proof (svc_reachable_inv _ Hreach) as Hinv.
  pose proof (createApproval_ok now id ins w s Hid Hs Ht) as Hcreate.
  cbn zeta in Hcreate. rewrite Hst in Hcreate. cbn [default] in Hcreate.
  set (a := Approval.mk id _ _ _ _ "pending" now None) in Hcreate.
  set (w1 := with_db _ w) in Hcreate.
  assert (Ha1 : approval_of w1 id = Some a)
    by (unfold approval_of, w1; simpl; by rewrite lookup_insert_eq).
  assert (Hinv1 : svc_inv (World.streamingService w1)) by exact Hinv.
  pose proof (post_approval_resolve_some env id body w1 a Hinv1 Ha1) as Hres.
  eexists a, w1, _. split; [exact Hcreate|].
  do 5 (split; [done|]). split; [|split; [exact Hres|]].
  - intros sid x. rewrite !elem_of_pendingFor. unfold approval_of, w1. simpl.
    split.
    + intros ((k & Hk) & Hsid & Hp). destruct (decide (k = id)) as [->|Hne].
      * rewrite lookup_insert_eq in Hk. injection Hk as <-. right.
        split; [done|]. by rewrite <- Hsid.
      * rewrite lookup_insert_ne in Hk by done. left. eauto.
    + intros [((k & Hk) & Hsid & Hp)|[-> ->]].
      * split; [|done]. exists k. rewrite lookup_insert_ne; [done|].
        intros <-. unfold approval_of in Hid. congruence.
      * split; [|done]. exists id. by rewrite lookup_insert_eq.
  - intros sid x. rewrite !elem_of_pendingFor. unfold approval_of, w1. simpl.
    split.
    + intros ((k & Hk) & Hsid & Hp). destruct (decide (k = id)) as [->|Hne].
      * rewrite lookup_alter_eq, lookup_insert_eq in Hk. simpl in Hk.
        injection Hk as <-. simpl in Hp. by destruct (decision body).
      * rewrite lookup_alter_ne, lookup_insert_ne in Hk by done. eauto.
    + intros ((k & Hk) & Hsid & Hp). split; [|done]. exists k.
      assert (k <> id) by (intros ->; unfold approval_of in Hid; congruence).
      by rewrite lookup_alter_ne, lookup_insert_ne.
Qed.

Lemma approval_is_pending_until_resolved_witness :
  exists a w1 w2,
    on_db (createApproval 7 "c"
             (InsertApproval.mk "S" None "git_push" None None)) world_approvals
    = (Ok a, w1)
    /\ post_approval_resolve env10 "c" reject_body w1
       = (Ok (Response.mk 200 (JsonApproval (resolved 10 rejected a))), w2)
    /\ (forall sid x,
          x ∈ pendingFor w2 sid <-> x ∈ pendingFor world_approvals sid).
Proof.
  assert (Hreach : svc_reachable (World.streamingService world_approvals))
    by (exists [OpWs 2 (WsConnection (Some "S") None)]; reflexivity).
  destruct (approval_is_pending_until_resolved world_approvals 7 "c"
              (InsertApproval.mk "S" None "git_push" None None) env10 reject_body
              Hreach) as (a & w1 & w2 & H1 & _ & _ & _ & _ & _ & _ & H2 & H3).
  - reflexivity.
  - eexists. vm_compute. reflexivity.
  - exact I.
  - reflexivity.
  - exists a, w1, w2. split; [exact H1|]. split; [exact H2|exact H3].
Defined.

(** ** The message route *)

(** X9. A message without content is answered 400, and a message to a
    session that is not stored is answered with an error: in both cases
    nothing is stored, no task is created and nothing is published. *)
Theorem rejected_message_leaves_no_trace (env : Env.t) (sid : string)
  (body : ReqBody.t) (w : World.t) :
  no_content body \/ session_of w sid = None ->
  exists st e,
    post_message env sid body w = (Ok (Response.mk st (JsonError e)), w)
    /\ (no_content body -> st = 400 /\ e = "Content is required")
    /\ (~ no_content body -> st = 500).
Proof.
  intros Hcase. unfold post_message, handler, try_catch, no_content in *.
  destruct (ReqBody.content body) as [[|a c]|] eqn:Hc.
  - exists 400, "Content is required". split; [done|]. split; [done|].
    intros Hn. exfalso. apply Hn. by right.
  - destruct Hcase as [[?|?]|Hs]; [done|done|].
    destruct (createMessage_throws (Env.now env) (Env.uuid env 0%nat)
                (InsertMessage.mk sid "user" (String a c)) (World.db w) Hs)
      as [e He].
    exists 500, e. unfold bind at 1. rewrite (on_db_run _ _ _ _ He).
    rewrite with_db_same. split; [done|]. split; [|done].
    by intros [?|?].
  - exists 400, "Content is required". split; [done|]. split; [done|].
    intros Hn. exfalso. apply Hn. by left.
Qed.

Lemma rejected_message_leaves_no_trace_witness :
  exists e,
    post_message env10 "nobody"
      (ReqBody.mk (Some "hi") false false None SessionUpdates.empty None)
      world_S
    = (Ok (Response.mk 500 (JsonError e)), world_S).
Proof.
  destruct (rejected_message_leaves_no_trace env10 "nobody"
              (ReqBody.mk (Some "hi") false false None SessionUpdates.empty None)
              world_S) as (st & e & Hrun & _ & H500).
  - right. reflexivity.
  - exists e. rewrite Hrun. rewrite H500; [reflexivity|].
    unfold no_content. simpl. by intros [?|?].
Defined.






(** ** Listing the tasks and the messages of a session *)

Global Instance newer_first_total : Total newer_first.
Proof. intros a b. unfold newer_first. lia. Qed.

Global Instance newer_first_trans : Transitive newer_first.
Proof. intros a b c. unfold newer_first. lia. Qed.

Global Instance older_first_total : Total older_first.
Proof. intros a b. unfold older_first. lia. Qed.

Global Instance older_first_trans : Transitive older_first.
Proof. intros a b c. unfold older_first. lia. Qed.

Lemma rows_keys_NoDup {A} (key : A -> string) (m : gmap string A) :
  map_Forall (fun k a => key a = k) m -> NoDup (key <$> rows m).
Proof.
  intros Hkeyed. unfold rows. rewrite <- list_fmap_compose.
  rewrite (list_fmap_ext _ fst (map_to_list m)).
  - apply NoDup_fst_map_to_list.
  - intros i [k a] Hin. simpl. apply list_elem_of_lookup_2 in Hin.
    apply elem_of_map_to_list in Hin. by apply Hkeyed in Hin.
Qed.

(** A query [where column = v orderBy R] on a table keyed by [key]. *)
Lemma ordered_query {A} (R : A -> A -> Prop) `{forall a b, Decision (R a b)}
  `{!Total R, !Transitive R} (P : A -> Prop) `{forall a, Decision (P a)}
  (key : A -> string) (m : gmap string A) :
  map_Forall (fun k a => key a = k) m ->
  let l := merge_sort R (filter P (rows m)) in
  StronglySorted R l
  /\ (forall a, a ∈ l <-> m !! key a = Some a /\ P a)
  /\ NoDup (key <$> l).
Proof.
  intros Hkeyed l. split; [apply StronglySorted_merge_sort; apply _|]. split.
  - intros a. unfold l. rewrite merge_sort_Permutation.
    rewrite list_elem_of_filter, elem_of_rows. split.
    + intros [HP (k & Hk)]. split; [|done].
      pose proof (Hkeyed _ _ Hk) as Hid. simpl in Hid. by rewrite Hid.
    + intros [Ha HP]. split; [done|]. eauto.
  - unfold l. rewrite merge_sort_Permutation.
    apply NoDup_fmap_filter. by apply rows_keys_NoDup.
Qed.

(** X12. The tasks route answers 200 with exactly the stored tasks of the
    session, each once, the newest first, and changes nothing. *)
Theorem tasks_are_listed_newest_first (w : World.t) (sid : string) :
  tasks_keyed (World.db w) ->
  get_tasks sid w = (Ok (Response.mk 200 (JsonTasks (tasksFor w sid))), w)
  /\ StronglySorted newer_first (tasksFor w sid)
  /\ (forall t, t ∈ tasksFor w sid
        <-> task_of w (Task.id t) = Some t /\ Task.sessionId t = sid)
  /\ NoDup (Task.id <$> tasksFor w sid).
Proof.
  intros Hkeyed. split.
  - unfold get_tasks, handler, try_catch, bind, on_db, getTasksBySession,
      gets, ret. simpl. by destruct w.
  - apply (ordered_query newer_first (fun t => Task.sessionId t = sid) Task.id
             (Db.tasks (World.db w)) Hkeyed).
Qed.

Lemma tasks_are_listed_newest_first_witness :
  StronglySorted newer_first (tasksFor world_chat "u0")
  /\ NoDup (Task.id <$> tasksFor world_chat "u0").
Proof.
  assert (Hkeyed : tasks_keyed (World.db world_chat))
    by (apply (bool_decide_unpack _); vm_compute; reflexivity).
  destruct (tasks_are_listed_newest_first world_chat "u0" Hkeyed)
    as (_ & Hsorted & _ & Hnodup).
  split; [exact Hsorted|exact Hnodup].
Defined.

(** X13. The messages route answers 200 with exactly the stored messages of
    the session, each once, the oldest first, and changes nothing. *)
Theorem messages_are_listed_oldest_first (w : World.t) (sid : string) :
  messages_keyed (World.db w) ->
  get_messages sid w
  = (Ok (Response.mk 200 (JsonMessages (messagesFor w sid))), w)
  /\ StronglySorted older_first (messagesFor w sid)
  /\ (forall m, m ∈ messagesFor w sid
        <-> Db.messages (World.db w) !! Message.id m = Some m
            /\ Message.sessionId m = sid)
  /\ NoDup (Message.id <$> messagesFor w sid).
Proof.
  intros Hkeyed. split.
  - unfold get_messages, handler, try_catch, bind, on_db, getMessagesBySession,
      gets, ret. simpl. by destruct w.
  - apply (ordered_query older_first (fun m => Message.sessionId m = sid)
             Message.id (Db.messages (World.db w)) Hkeyed).
Qed.

Lemma messages_are_listed_oldest_first_witness :
  StronglySorted older_first (messagesFor world_chat "u0")
  /\ length (messagesFor world_chat "u0") = 2%nat.
Proof.
  assert (Hkeyed : messages_keyed (World.db world_chat))
    by (apply (bool_decide_unpack _); vm_compute; reflexivity).
  destruct (messages_are_listed_oldest_first world_chat "u0" Hkeyed)
    as (_ & Hsorted & _ & _).
  split; [exact Hsorted|]. vm_compute. reflexivity.
Defined.

(** ** Updating a session *)

Lemma patch_session_some env id body w s :
  session_of w id = Some s ->
  patch_session env id body w
  = (Ok (Response.mk 200 (JsonSession
           (apply_session_updates (Env.now env) (ReqBody.sessionUpdates body) s))),
     with_db (set_sessions
       (alter (apply_session_updates (Env.now env) (ReqBody.sessionUpdates body)) id)
       (World.db w)) w).
Proof.
  intros Hs. unfold session_of in Hs. unfold patch_session, handler, try_catch.
  rewrite (bind_ok _ _ _ _ _ (on_db_run _ _ _ _ (updateSession_spec _ _ _ _))).
  by rewrite Hs.
Qed.

Lemma match_route_patch id :
  id <> EmptyString ->
  match_route PATCH ["api"; "sessions"; id] = Some (RouteUpdateSession id).
Proof. intros Hid. destruct id as [|c id']; [done|]. by vm_compute. Qed.

(** X14. The dry-run switch of the operator, for a stored session, is
    answered 200 with the session in the chosen mode: only [dryRunMode] and
    [updatedAt] of that session change, and the other sessions, the tasks,
    the messages, the approvals and the streaming service are as they were;
    in particular nothing is published to the observers. *)
Theorem dry_run_toggle_changes_one_flag (env : Env.t) (sid : string)
  (enabled : bool) (w : World.t) (s : Session.t) :
  sid <> EmptyString ->
  session_of w sid = Some s ->
  exists s' w',
    dispatch env (onDryRunToggle sid enabled) w
    = (Some (Response.mk 200 (JsonSession s')), w')
    /\ session_of w' sid = Some s'
    /\ Session.dryRunMode s' = enabled
    /\ Session.updatedAt s' = Env.now env
    /\ Session.allowDestructive s' = Session.allowDestructive s
    /\ Session.status s' = Session.status s
    /\ Session.name s' = Session.name s
    /\ Session.workspaceDir s' = Session.workspaceDir s
    /\ Session.userId s' = Session.userId s
    /\ Session.id s' = Session.id s
    /\ Session.createdAt s' = Session.createdAt s
    /\ (forall id, id <> sid -> session_of w' id = session_of w id)
    /\ Db.tasks (World.db w') = Db.tasks (World.db w)
    /\ Db.messages (World.db w') = Db.messages (World.db w)
    /\ Db.approvals (World.db w') = Db.approvals (World.db w)
    /\ World.streamingService w' = World.streamingService w.
Proof.
  intros Hid Hs. unfold dispatch, onDryRunToggle, updateSessionMutation.
  cbn [Request.method Request.path Request.body].
  rewrite (match_route_patch sid Hid). cbn [serve].
  rewrite (patch_session_some env sid _ w s Hs).
  eexists _, _. split; [reflexivity|]. unfold session_of. simpl.
  rewrite lookup_alter_eq. unfold session_of in Hs. rewrite Hs.
  split; [reflexivity|]. do 9 (split; [reflexivity|]).
  split; [|done]. intros id Hne. by rewrite lookup_alter_ne.
Qed.

Lemma dry_run_toggle_changes_one_flag_witness :
  exists s' w',
    dispatch env10 (onDryRunToggle "S" true) world_delete
    = (Some (Response.mk 200 (JsonSession s')), w')
    /\ Session.dryRunMode s' = true
    /\ Db.tasks (World.db w') = Db.tasks (World.db world_delete).
Proof.
  destruct (session_of world_delete "S") as [s|] eqn:Hs;
    [|vm_compute in Hs; discriminate].
  destruct (dry_run_toggle_changes_one_flag env10 "S" true world_delete s)
    as (s' & w' & Hrun & _ & Hdry & _ & _ & _ & _ & _ & _ & _ & _ & _ & Ht & _).
  - discriminate.
  - exact Hs.
  - exists s', w'. split; [exact Hrun|]. split; [exact Hdry|exact Ht].
Defined.

(** ** The default session *)





(** ** The routing table *)




(** ** Emergency stop, twice *)

Lemma cancel_all_keyed now ks (m : gmap string Task.t) :
  map_Forall (fun k t => Task.id t = k) m ->
  map_Forall (fun k t => Task.id t = k) (cancel_all now ks m).
Proof.
  intros Hkeyed k t. rewrite cancel_all_lookup. case_decide; [|apply Hkeyed].
  destruct (m !! k) as [t0|] eqn:Hk; [|done]. simpl. intros [= <-].
  by apply (Hkeyed _ _ Hk).
Qed.

(** X17. After an emergency stop of a stored session, a second stop of the
    same session finds no running task: it is answered 200, leaves every
    task as the first stop left it, and publishes the stop line once more. *)
Theorem stop_twice_cancels_once (w : World.t) (env1 env2 : Env.t)
  (sid : string) :
  tasks_keyed (World.db w) ->
  svc_reachable (World.streamingService w) ->
  is_Some (session_of w sid) ->
  let w1 := snd (post_session_stop env1 sid w) in
  let w2 := snd (post_session_stop env2 sid w1) in
  running_ids (World.db w1) sid = []
  /\ (exists session,
        fst (post_session_stop env2 sid w1)
        = Ok (Response.mk 200 (JsonStopped "Session stopped" session)))
  /\ Db.tasks (World.db w2) = Db.tasks (World.db w1)
  /\ (forall r, subscribed (World.streamingService w) sid r ->
        is_open (World.streamingService w) r ->
        sent_to (World.streamingService w2) r
        = sent_to (World.streamingService w) r
          ++ [JSON_stringify (stop_event (Env.now env1) sid);
              JSON_stringify (stop_event (Env.now env2) sid)]).
Proof.
  intros Hkeyed Hreach [session0 Hsession] w1 w2.
  pose proof (svc_reachable_inv _ Hreach) as Hs.
  pose proof (post_session_stop_some env1 sid w session0 Hs Hsession) as Hrun1.
  cbn zeta in Hrun1.
  set (idle := apply_session_updates (Env.now env1)
                 (SessionUpdates.mk None None (Some "idle") None None None)) in *.
  assert (Hw1 : w1 = published sid (stop_event (Env.now env1) sid)
            (with_db (set_tasks (cancel_all (Env.now env1)
                                   (running_ids (World.db w) sid))
                        (set_sessions (alter idle sid) (World.db w))) w))
    by (unfold w1; by rewrite Hrun1).
  assert (Hkeyed1 : tasks_keyed (World.db w1))
    by (rewrite Hw1; simpl; by apply cancel_all_keyed).
  assert (Hs1 : svc_inv (World.streamingService w1))
    by (rewrite Hw1; by apply svc_inv_broadcast).
  assert (Hsession1 : session_of w1 sid = Some (idle session0)).
  { rewrite Hw1. unfold session_of. simpl. unfold session_of in Hsession.
    by rewrite lookup_alter_eq, Hsession. }
  assert (Hnone : running_ids (World.db w1) sid = []).
  { apply elem_of_nil_inv. intros k Hk.
    apply (running_ids_elem _ _ _ Hkeyed1) in Hk as (t' & Hk & Hsid & Hrunning).
    rewrite Hw1 in Hk. simpl in Hk. rewrite cancel_all_lookup in Hk.
    case_decide as Hin.
    - destruct (Db.tasks (World.db w) !! k) as [t|]; [|done].
      simpl in Hk. injection Hk as <-. done.
    - apply Hin. apply (running_ids_elem _ _ _ Hkeyed). eauto. }
  pose proof (post_session_stop_some env2 sid w1 _ Hs1 Hsession1) as Hrun2.
  cbn zeta in Hrun2. rewrite Hnone in Hrun2.
  split; [exact Hnone|]. split; [eexists; by rewrite Hrun2|].
  split; [unfold w2; by rewrite Hrun2|].
  intros r Hsub Hopen. unfold w2. rewrite Hrun2. cbn [snd].
  change (World.streamingService (published sid ?e ?W))
    with (snd (broadcast sid e (World.streamingService W))).
  cbn [with_db World.streamingService].
  rewrite broadcast_sent_open; [|done|..].
  - rewrite Hw1.
    change (World.streamingService (published sid ?e ?W))
      with (snd (broadcast sid e (World.streamingService W))).
    cbn [with_db World.streamingService].
    rewrite broadcast_sent_open by done. by rewrite <- app_assoc.
  - rewrite Hw1. unfold subscribed.
    change (World.streamingService (published sid ?e ?W))
      with (snd (broadcast sid e (World.streamingService W))).
    by rewrite broadcast_observers.
  - rewrite Hw1.
    change (World.streamingService (published sid ?e ?W))
      with (snd (broadcast sid e (World.streamingService W))).
    by apply broadcast_is_open.
Qed.

Lemma stop_twice_cancels_once_witness :
  Db.tasks (World.db (snd (post_session_stop env20 "S"
                             (snd (post_session_stop env10 "S" world_running)))))
  = Db.tasks (World.db (snd (post_session_stop env10 "S" world_running))).
Proof.
  assert (Hkeyed : tasks_keyed (World.db world_running))
    by (apply (bool_decide_unpack _); vm_compute; reflexivity).
  assert (Hreach : svc_reachable (World.streamingService world_running))
    by (exists [OpWs 2 (WsConnection (Some "S") None)]; reflexivity).
  apply (stop_twice_cancels_once world_running env10 env20 "S" Hkeyed Hreach).
  eexists. vm_compute. reflexivity.
Defined.

(** * The tools *)

Section ToolsProperties.
Context (collation : string -> string -> Prop)
  `{!forall a b, Decision (collation a b)}.

Lemma createTool_ok now id ins (m : gmap string Tool.t) :
  m !! id = None -> name_free (InsertTool.name ins) m ->
  let tool := Tool.mk id (InsertTool.name ins) (InsertTool.type ins)
                (InsertTool.description ins) (InsertTool.command ins)
                (InsertTool.apiEndpoint ins) (InsertTool.dockerImage ins)
                (InsertTool.schema ins)
                (default (Some false) (InsertTool.isInstalled ins))
                (InsertTool.installCommand ins) (InsertTool.version ins)
                (Some now) in
  createTool now id ins m = (Ok tool, <[id := tool]> m).
Proof.
  intros Hid Hfree tool. unfold createTool, bind, gets.
  by rewrite Hid, bool_decide_eq_true_2.
Qed.


Lemma getAllTools_length (m : gmap string Tool.t) :
  length (merge_sort (by_name collation) (rows m)) = size m.
Proof.
  rewrite merge_sort_Permutation. unfold rows. rewrite length_fmap.
  apply length_map_to_list.
Qed.

Lemma get_tools_nonempty env (m : gmap string Tool.t) :
  m <> ∅ ->
  get_tools collation env m
  = (Ok (ToolsResponse.mk 200
           (JsonTools (merge_sort (by_name collation) (rows m)))), m).
Proof.
  intros Hne. unfold get_tools, tools_handler, try_catch, getAllTools.
  unfold bind at 1. unfold gets at 1. rewrite decide_False; [done|].
  rewrite getAllTools_length. by intros ?%map_size_empty_inv.
Qed.

Lemma seeding env :
  fresh_ids env ->
  create_tools env 0 defaultTools ∅ = (Ok tt, seeded_tools env)
  /\ size (seeded_tools env) = 6%nat
  /\ tools_keyed (seeded_tools env)
  /\ Tool.name <$> rows (seeded_tools env)
     ≡ₚ ["ffmpeg"; "yt-dlp"; "curl"; "python"; "npm"; "git"].
Proof.
  intros Hfresh. unfold fresh_ids in Hfresh. simpl in Hfresh.
  repeat (apply NoDup_cons in Hfresh as [? Hfresh]).
  repeat match goal with
         | H : _ ∉ _ :: _ |- _ => apply not_elem_of_cons in H as [? ?]
         end.
  assert (Hnone : forall (m : gmap string Tool.t) k k' t,
            k <> k' -> m !! k' = None -> <[k := t]> m !! k' = None)
    by (intros; by rewrite lookup_insert_ne).
  unfold seeded_tools, defaultTools. cbn [imap foldl compose].
  unfold create_tools.
  repeat (match goal with
          | |- context [bind (createTool ?now ?id ?ins) _ ?m] =>
              rewrite (bind_ok _ _ _ _ _ (createTool_ok now id ins m
                ltac:(repeat (apply Hnone; [done|]); apply lookup_empty)
                ltac:(unfold name_free;
                      repeat (apply map_Forall_insert_2; [done|]);
                      apply map_Forall_empty)))
          end; cbn zeta).
  split; [reflexivity|]. split; [|split].
  - rewrite !map_size_insert_None, map_size_empty;
      [done|repeat (apply Hnone; [done|]); apply lookup_empty..].
  - unfold tools_keyed. repeat (apply map_Forall_insert_2; [done|]).
    apply map_Forall_empty.
  - unfold rows.
    repeat (rewrite map_to_list_insert
              by (repeat (apply Hnone; [done|]); apply lookup_empty);
            rewrite !fmap_cons; cbn [snd]).
    by rewrite map_to_list_empty.
Qed.

(** X18. The tools route seeds an empty table with the six default tools,
    under fresh identifiers, and answers with them; a table that holds
    any tool is never seeded again, so that a second request answers with
    the same six tools and inserts nothing. *)
Theorem tools_are_seeded_once (env env' : Env.t) (m : gmap string Tool.t) :
  fresh_ids env ->
  let listed (m : gmap string Tool.t) :=
    ToolsResponse.mk 200 (JsonTools (merge_sort (by_name collation) (rows m))) in
  get_tools collation env ∅ = (Ok (listed (seeded_tools env)), seeded_tools env)
  /\ get_tools collation env' (seeded_tools env)
     = (Ok (listed (seeded_tools env)), seeded_tools env)
  /\ (m <> ∅ -> get_tools collation env m = (Ok (listed m), m))
  /\ size (seeded_tools env) = 6%nat
  /\ tools_keyed (seeded_tools env)
  /\ Tool.name <$> rows (seeded_tools env)
     ≡ₚ ["ffmpeg"; "yt-dlp"; "curl"; "python"; "npm"; "git"].
Proof.
  intros Hfresh listed.
  destruct (seeding env Hfresh) as (Hseed & Hsize & Hkeyed & Hnames).
  split; [|split; [|split; [|done]]].
  - unfold get_tools, tools_handler, try_catch, getAllTools.
    unfold bind at 1. unfold gets at 1. rewrite decide_True
      by (by rewrite getAllTools_length).
    by rewrite (bind_ok _ _ _ _ _ Hseed).
  - apply get_tools_nonempty. intros Hempty. rewrite Hempty in Hsize.
    by rewrite map_size_empty in Hsize.
  - apply get_tools_nonempty.
Qed.

End ToolsProperties.

Lemma tools_are_seeded_once_witness :
  size (seeded_tools env_letters) = 6%nat
  /\ get_tools code_point_order env10 (seeded_tools env_letters)
     = (Ok (ToolsResponse.mk 200
              (JsonTools (merge_sort (by_name code_point_order)
                            (rows (seeded_tools env_letters))))),
        seeded_tools env_letters).
Proof.
  assert (Hfresh : fresh_ids env_letters)
    by (apply (bool_decide_unpack _); vm_compute; reflexivity).
  destruct (tools_are_seeded_once code_point_order env_letters env10 ∅ Hfresh)
    as (_ & Hagain & _ & Hsize & _).
  split; [exact Hsize|exact Hagain].
Defined.

Lemma updateTool_installed id (m : gmap string Tool.t) :
  updateTool id installed_update m
  = (Ok (apply_tool_updates installed_update <$> m !! id),
     alter (apply_tool_updates installed_update) id m).
Proof.
  unfold updateTool. rewrite decide_False by done.
  unfold bind, gets, modify. cbn [ToolUpdates.name installed_update].
  destruct (m !! id) as [t|] eqn:Hid; by rewrite lookup_alter_eq, Hid.
Qed.

(** X19. Installing a stored tool is answered 200 with the tool marked as
    installed in version 1.0.0; nothing else of the tool and no other tool
    changes, and from then on a call of the tool is answered 200. *)
Theorem install_then_call (m : gmap string Tool.t) (id : string) (tool : Tool.t)
  (args : option string) :
  tools_keyed m ->
  m !! id = Some tool ->
  let tool' := apply_tool_updates installed_update tool in
  let m' := snd (post_tool_install id m) in
  post_tool_install id m
  = (Ok (ToolsResponse.mk 200 (JsonTool (Some tool'))), <[id := tool']> m)
  /\ Tool.isInstalled tool' = Some true
  /\ Tool.version tool' = Some "1.0.0"
  /\ Tool.name tool' = Tool.name tool
  /\ Tool.command tool' = Tool.command tool
  /\ Tool.installCommand tool' = Tool.installCommand tool
  /\ (forall id', id' <> id -> m' !! id' = m !! id')
  /\ post_tool_call id args m'
     = (Ok (ToolsResponse.mk 200
              (JsonToolCalled (Tool.name tool) args "Tool executed successfully"
                 EmptyString)), m').
Proof.
  intros Hkeyed Hid tool' m'.
  pose proof (Hkeyed _ _ Hid) as Hkey. simpl in Hkey.
  assert (Hrun : post_tool_install id m
                 = (Ok (ToolsResponse.mk 200 (JsonTool (Some tool'))),
                    <[id := tool']> m)).
  { unfold post_tool_install, tools_handler, try_catch, getTool.
    unfold bind at 1. unfold gets at 1. rewrite Hid, Hkey.
    rewrite (bind_ok _ _ _ _ _ (updateTool_installed id m)). rewrite Hid.
    unfold ret. cbn [fmap option_fmap option_map]. f_equal.
    apply map_eq. intros k. destruct (decide (id = k)) as [<-|Hne].
    - by rewrite lookup_alter_eq, lookup_insert_eq, Hid.
    - by rewrite lookup_alter_ne, lookup_insert_ne. }
  split; [exact Hrun|]. do 5 (split; [reflexivity|]).
  subst m'. rewrite Hrun. cbn [snd]. split.
  - intros id' Hne. by rewrite lookup_insert_ne.
  - unfold post_tool_call, tools_handler, try_catch, getTool, bind, gets.
    by rewrite lookup_insert_eq.
Qed.

Lemma install_then_call_witness :
  exists tool,
    seeded_tools env_letters !! "e" = Some tool
    /\ Tool.isInstalled tool = Some false
    /\ post_tool_call "e" None
         (snd (post_tool_install "e" (seeded_tools env_letters)))
       = (Ok (ToolsResponse.mk 200
                (JsonToolCalled (Tool.name tool) None "Tool executed successfully"
                   EmptyString)),
          snd (post_tool_install "e" (seeded_tools env_letters))).
Proof.
  assert (Hkeyed : tools_keyed (seeded_tools env_letters))
    by (apply (bool_decide_unpack _); vm_compute; reflexivity).
  destruct (seeded_tools env_letters !! "e") as [tool|] eqn:Htool;
    [|vm_compute in Htool; discriminate].
  exists tool. split; [reflexivity|].
  split; [vm_compute in Htool; by injection Htool as <-|].
  apply (install_then_call (seeded_tools env_letters) "e" tool None Hkeyed Htool).
Defined.

(** X20. A call of a tool never changes the table of tools; it is answered
    200 exactly when the tool is stored and marked as installed, 404 when
    no tool has the identifier, and 400 when the tool is stored without
    being installed. *)
Theorem call_needs_an_installed_tool (m : gmap string Tool.t) (id : string)
  (args : option string) :
  exists res,
    post_tool_call id args m = (Ok res, m)
    /\ (ToolsResponse.status res = 200
        <-> exists tool, m !! id = Some tool /\ Tool.isInstalled tool = Some true)
    /\ (ToolsResponse.status res = 404 <-> m !! id = None)
    /\ (ToolsResponse.status res = 400
        <-> exists tool, m !! id = Some tool /\ Tool.isInstalled tool <> Some true).
Proof.
  unfold post_tool_call, tools_handler, try_catch, getTool, bind, gets.
  destruct (m !! id) as [tool|] eqn:Hid.
  - destruct (Tool.isInstalled tool) as [[|]|] eqn:Hin; eexists;
      (split; [reflexivity|]); simpl.
    + split; [split; [by eauto|done]|]. split; [done|].
      split; [done|]. intros (t & [= <-] & Hno). congruence.
    + split; [split; [done|intros (t & [= <-] & ?); congruence]|].
      split; [done|]. split; [|done]. intros _. exists tool.
      split; [done|congruence].
    + split; [split; [done|intros (t & [= <-] & ?); congruence]|].
      split; [done|]. split; [|done]. intros _. exists tool.
      split; [done|congruence].
  - eexists. split; [reflexivity|]. simpl.
    split; [split; [done|by intros (t & ? & _)]|]. split; [done|].
    split; [done|by intros (t & ? & _)].
Qed.



(** * The storage manager *)

Lemma JsMap_get_set {V} (k k' : string) (v : V) (m : list (string * V)) :
  JsMap.get k' (JsMap.set k v m)
  = if decide (k = k') then Some v else JsMap.get k' m.
Proof.
  induction m as [|[k0 v0] m IH]; simpl.
  - by destruct (decide (k = k')).
  - destruct (decide (k0 = k)) as [->|Hne]; simpl.
    + by destruct (decide (k = k')).
    + rewrite IH. destruct (decide (k0 = k')) as [->|?]; [|done].
      by rewrite decide_False.
Qed.

Lemma JsMap_get_keys {V} (k : string) (m : list (string * V)) :
  is_Some (JsMap.get k m) <-> k ∈ JsMap.keys m.
Proof.
  unfold JsMap.keys. induction m as [|[k0 v0] m IH]; simpl.
  - split; [by intros [? ?]|by intros ?%elem_of_nil].
  - rewrite elem_of_cons. destruct (decide (k0 = k)) as [->|Hne].
    + split; [by left|by eauto].
    + rewrite IH. split; [by right|]. by intros [?|?].
Qed.

Lemma JsMap_keys_set {V} (k : string) (v : V) (m : list (string * V)) :
  JsMap.keys (JsMap.set k v m)
  = if decide (k ∈ JsMap.keys m) then JsMap.keys m else JsMap.keys m ++ [k].
Proof.
  unfold JsMap.keys. induction m as [|[k0 v0] m IH]; cbn [JsMap.set].
  - case_decide as Hin; [by apply elem_of_nil in Hin|done].
  - destruct (decide (k0 = k)) as [->|Hne]; cbv iota; rewrite !fmap_cons; cbn [fst].
    + destruct (decide (k ∈ k :: m.*1)) as [_|Hnin]; [done|].
      exfalso. apply Hnin. by left.
    + rewrite IH. destruct (decide (k ∈ m.*1)) as [Hin|Hnin];
        destruct (decide (k ∈ k0 :: m.*1)) as [Hin'|Hnin']; try done.
      * exfalso. apply Hnin'. by right.
      * apply elem_of_cons in Hin' as [?|?]; congruence.
Qed.

Lemma manager_inv_new : manager_inv new_StorageManager.
Proof.
  split; [|split; [|split]]; simpl.
  - intros k p. case_decide; [|done]. by intros [= <-].
  - apply NoDup_singleton.
  - by eexists.
  - by left.
Qed.

Lemma manager_inv_step s op : manager_inv s -> manager_inv (manager_step s op).
Proof.
  intros (Hname & Hnodup & Hdef & Hlocal). destruct op as [p|name]; simpl.
  - split; [|split; [|split]]; simpl.
    + intros k q. rewrite JsMap_get_set. case_decide; [|by apply Hname].
      by intros [= <-].
    + rewrite JsMap_keys_set. case_decide as Hin; [done|].
      apply NoDup_app. split; [done|]. split; [|apply NoDup_singleton].
      intros x Hx ->%list_elem_of_singleton. done.
    + rewrite JsMap_get_set. case_decide; [by eexists|done].
    + rewrite JsMap_keys_set. case_decide; [done|].
      apply elem_of_app. by left.
  - unfold setDefaultProvider, bind, gets, JsMap.has.
    case_bool_decide as Hknown; simpl; by repeat split.
Qed.

Lemma manager_reachable_inv s : manager_reachable s -> manager_inv s.
Proof.
  intros [ops ->]. induction ops as [|op ops IH] using rev_ind.
  - apply manager_inv_new.
  - rewrite foldl_app. simpl. by apply manager_inv_step.
Qed.

(** X22. Whatever providers have been registered and whatever defaults have
    been chosen, with or without success, since the manager was built, the
    default provider is registered: asking for a provider without a name,
    or with the empty name, is answered with the provider registered under
    the default name; the local provider is still listed, and no name is
    listed twice. *)
Theorem default_provider_is_always_registered (s : StorageManager.t) :
  manager_reachable s ->
  (exists p,
     getProvider None s = (Ok p, s)
     /\ getProvider (Some EmptyString) s = (Ok p, s)
     /\ StorageProvider.name p = StorageManager.defaultProvider s)
  /\ (exists names,
        listProviders s = (Ok names, s) /\ "local" ∈ names /\ NoDup names
        /\ get_storage_providers s
           = (Ok (200, (fun name => (name, true)) <$> names), s)).
Proof.
  intros Hr. destruct (manager_reachable_inv s Hr)
    as (Hname & Hnodup & [p Hdef] & Hlocal).
  split; [|by eexists]. exists p.
  unfold getProvider, bind, gets, ret. rewrite Hdef.
  split; [done|]. split; [done|]. by apply Hname.
Qed.

Lemma default_provider_is_always_registered_witness :
  exists p,
    getProvider None
      (foldl manager_step new_StorageManager
         [OpRegister (new_S3StorageProvider "bucket"); OpSetDefault "s3";
          OpSetDefault "gcs"])
    = (Ok p,
       foldl manager_step new_StorageManager
         [OpRegister (new_S3StorageProvider "bucket"); OpSetDefault "s3";
          OpSetDefault "gcs"])
    /\ StorageProvider.name p = "s3".
Proof.
  destruct (default_provider_is_always_registered
              (foldl manager_step new_StorageManager
                 [OpRegister (new_S3StorageProvider "bucket"); OpSetDefault "s3";
                  OpSetDefault "gcs"])) as [(p & Hget & _ & Hname) _].
  - by eexists.
  - exists p. split; [exact Hget|]. rewrite Hname. by vm_compute.
Defined.

(** X23. After a provider with a name that is not empty is registered, a
    request for that name is answered with it, whatever was registered
    under the name before; the other names are answered as before; the
    name keeps its place in the list of providers if it was listed, and
    is listed last otherwise. *)
Theorem registered_provider_is_found (s : StorageManager.t)
  (p : StorageProvider.t) :
  StorageProvider.name p <> EmptyString ->
  let s' := snd (registerProvider p s) in
  getProvider (Some (StorageProvider.name p)) s' = (Ok p, s')
  /\ (forall n, n <> StorageProvider.name p -> n <> EmptyString ->
        fst (getProvider (Some n) s') = fst (getProvider (Some n) s))
  /\ fst (listProviders s')
     = Ok (if decide (StorageProvider.name p ∈ JsMap.keys (StorageManager.providers s))
           then JsMap.keys (StorageManager.providers s)
           else JsMap.keys (StorageManager.providers s) ++ [StorageProvider.name p])
  /\ StorageManager.defaultProvider s' = StorageManager.defaultProvider s.
Proof.
  intros Hne s'. subst s'. simpl. split; [|split; [|split]].
  - unfold getProvider, bind, gets, ret. simpl.
    destruct (StorageProvider.name p) as [|a n] eqn:Hn; [done|].
    by rewrite JsMap_get_set, decide_True.
  - intros n Hn Hn'. unfold getProvider, bind, gets, ret. simpl.
    destruct n as [|a n]; [done|].
    rewrite JsMap_get_set, decide_False by done.
    by destruct (JsMap.get _ _).
  - unfold listProviders, gets. simpl. by rewrite JsMap_keys_set.
  - done.
Qed.

Lemma registered_provider_is_found_witness :
  getProvider (Some "s3")
    (snd (registerProvider (new_S3StorageProvider "b") new_StorageManager))
  = (Ok (new_S3StorageProvider "b"),
     snd (registerProvider (new_S3StorageProvider "b") new_StorageManager)).
Proof.
  apply (registered_provider_is_found new_StorageManager (new_S3StorageProvider "b")).
  discriminate.
Defined.

(** X24. Choosing a default that is not registered is refused and changes
    nothing; choosing a registered one makes it the provider that answers
    the requests that name no provider, and leaves the registrations as
    they were. *)
Theorem default_must_be_registered (s : StorageManager.t) (name : string) :
  match JsMap.get name (StorageManager.providers s) with
  | None =>
      setDefaultProvider name s
      = (Throw ("Provider " ++ name ++ " not registered")%string, s)
  | Some p =>
      exists s',
        setDefaultProvider name s = (Ok tt, s')
        /\ getProvider None s' = (Ok p, s')
        /\ StorageManager.providers s' = StorageManager.providers s
  end.
Proof.
  unfold setDefaultProvider, bind, gets, JsMap.has.
  destruct (JsMap.get name (StorageManager.providers s)) as [p|] eqn:Hget.
  - rewrite bool_decide_eq_true_2 by by eexists. eexists. split; [done|].
    split; [|done]. unfold getProvider, bind, gets, ret. simpl. by rewrite Hget.
  - rewrite bool_decide_eq_false_2; [done|]. by intros [? ?].
Qed.



(** * The GitHub access token *)

Lemma truthy_Some (v : option string) :
  truthy v = true -> exists t, v = Some t /\ t <> EmptyString.
Proof. destruct v as [[|a t]|]; try done. intros _. by eexists. Qed.

(** X26. A call that finds no fresh cached connection either fails or
    answers with a token that is not empty: the token is the access token
    of the connection that the connectors service has just returned, or its
    OAuth token when the connection has no access token of its own, and
    that connection is now the cached one.  Without an identity in the
    environment the call fails before any request and the cache is
    unchanged. *)
Theorem fetched_token_is_not_empty (env : GitHubEnv.t)
  (cs cs' : option Connection.t) (tok : option string) :
  cache_is_fresh (GitHubEnv.now env) cs = false ->
  (xReplitToken env = None ->
     getAccessToken env cs = (Throw "X_REPLIT_TOKEN not found for repl/depl", cs))
  /\ (getAccessToken env cs = (Ok tok, cs') ->
      exists t c st header,
        tok = Some t /\ t <> EmptyString
        /\ xReplitToken env = Some header
        /\ GitHubEnv.fetch env (connection_url env) header = Ok (Some c)
        /\ cs' = Some c
        /\ Connection.settings c = Some st
        /\ (ConnectionSettings.access_token st = Some t
            \/ (truthy (ConnectionSettings.access_token st) = false
                /\ ConnectionSettings.oauth_access_token st = Some t))).
Proof.
  intros Hstale. unfold getAccessToken, bind, gets. rewrite Hstale. split.
  - by intros ->.
  - destruct (xReplitToken env) as [header|]; [|done].
    destruct (GitHubEnv.fetch env (connection_url env) header) as [fetched|e]
      eqn:Hfetch; [|done].
    unfold modify. destruct fetched as [c|]; [|done].
    rewrite bool_decide_eq_true_2 by by eexists. cbn [andb].
    destruct (truthy (token_of (Some c))) eqn:Htok; [|done].
    unfold ret. intros [= <- <-].
    destruct (truthy_Some _ Htok) as (t & Ht & Hne).
    unfold token_of in Ht. destruct (Connection.settings c) as [st|] eqn:Hst;
      [|done].
    exists t, c, st, header. repeat split; try done.
    unfold or_else in Ht.
    destruct (truthy (ConnectionSettings.access_token st)) eqn:Ha; [by left|].
    by right.
Qed.

Lemma fetched_token_is_not_empty_witness :
  getAccessToken (github_offline 5) None
  = (Throw "X_REPLIT_TOKEN not found for repl/depl", None).
Proof.
  apply (fetched_token_is_not_empty (github_offline 5) None None None);
    reflexivity.
Defined.

(** X27. While the cached connection has not expired, a call answers with
    the access token of the cached connection and leaves the cache as it
    is, whatever the environment holds and whatever the connectors service
    would answer; so a token obtained from the access token of a
    connection is answered again, without a request, until the connection
    expires. *)
Theorem cached_token_needs_no_request (env env' : GitHubEnv.t)
  (cs cs' : option Connection.t) (tok : option string) (owner repo : string) :
  getAccessToken env cs = (Ok tok, cs') ->
  cache_is_fresh (GitHubEnv.now env') cs' = true ->
  getAccessToken env' cs' = (Ok (cached_token cs'), cs')
  /\ getCloneUrl env' owner repo cs'
     = (Ok ("https://" ++ default "undefined" (cached_token cs')
            ++ "@github.com/" ++ owner ++ "/" ++ repo ++ ".git")%string, cs')
  /\ (truthy (cached_token cs') = true -> cached_token cs' = tok).
Proof.
  intros Hfirst Hfresh.
  assert (Hhit : getAccessToken env' cs' = (Ok (cached_token cs'), cs'))
    by (unfold getAccessToken, bind, gets; by rewrite Hfresh).
  split; [exact Hhit|]. split.
  - unfold getCloneUrl. by rewrite (bind_ok _ _ _ _ _ Hhit).
  - intros Htruthy. unfold getAccessToken, bind, gets in Hfirst.
    destruct (cache_is_fresh (GitHubEnv.now env) cs).
    + unfold ret in Hfirst. by injection Hfirst as <- <-.
    + destruct (xReplitToken env) as [header|]; [|done].
      destruct (GitHubEnv.fetch env (connection_url env) header) as [fetched|e];
        [|done].
      unfold modify in Hfirst.
      destruct (bool_decide (is_Some fetched) && truthy (token_of fetched));
        [|done].
      unfold ret in Hfirst. injection Hfirst as <- <-.
      unfold cached_token, token_of in *.
      destruct fetched as [c|]; [|done].
      destruct (Connection.settings c) as [st|]; [|done].
      unfold or_else. by rewrite Htruthy.
Qed.

Lemma cached_token_needs_no_request_witness :
  getAccessToken (github_offline 99) (snd (getAccessToken (github_env 5) None))
  = (Ok (Some "token"), snd (getAccessToken (github_env 5) None)).
Proof.
  apply (cached_token_needs_no_request (github_env 5) (github_offline 99) None
           (snd (getAccessToken (github_env 5) None)) (Some "token")
           "owner" "repo");
    reflexivity.
Defined.

(** * The reconnecting client *)

Section UseWebSocketProperties.
Context (reconnectAttempts : nat).

Lemma hook_step_count (h : Hook.t) (ev : HookEvent) :
  (Hook.reconnectCountRef h <= reconnectAttempts)%nat ->
  let h' := hook_step reconnectAttempts h ev in
  (Hook.reconnectCountRef h' <= reconnectAttempts)%nat
  /\ (~ opens ev ->
      (Hook.nextTimer h' + Hook.reconnectCountRef h
       = Hook.nextTimer h + Hook.reconnectCountRef h')%nat).
Proof.
  intros Hle. destruct ev as [c| |d|r|r wc|r|id c]; simpl.
  - unfold connect. destruct (ref_is_open h), c; simpl; by split.
  - by split.
  - unfold send. destruct (Hook.wsRef h); [|by split].
    destruct (ref_is_open h); by split.
  - case_bool_decide; simpl; [|by split]. split; [lia|]. by intros [].
  - destruct (Hook.sockets h !! r) as [[| | |]|]; try by split.
    all: unfold onclose; simpl; destruct wc; simpl; try by split.
    all: case_bool_decide; simpl; split; try done; try lia.
  - case_bool_decide; simpl; by split.
  - case_bool_decide; [|by split]. unfold connect.
    destruct (ref_is_open _), c; simpl; by split.
Qed.

Lemma hook_run_count (evs : list HookEvent) (h : Hook.t) :
  (Hook.reconnectCountRef h <= reconnectAttempts)%nat ->
  Forall (fun ev => ~ opens ev) evs ->
  let h' := hook_run reconnectAttempts evs h in
  (Hook.reconnectCountRef h' <= reconnectAttempts)%nat
  /\ (Hook.nextTimer h' + Hook.reconnectCountRef h
      = Hook.nextTimer h + Hook.reconnectCountRef h')%nat.
Proof.
  revert h. induction evs as [|ev evs IH]; intros h Hle Hno; [by split|].
  apply Forall_cons in Hno as [Hev Hno]. simpl.
  destruct (hook_step_count h ev Hle) as [Hle1 Hstep]. specialize (Hstep Hev).
  destruct (IH _ Hle1 Hno) as [Hle' Hrun]. split; [done|]. lia.
Qed.

Lemma hook_reachable_count (evs : list HookEvent) :
  (Hook.reconnectCountRef (hook_run reconnectAttempts evs Hook.initial)
   <= reconnectAttempts)%nat.
Proof.
  induction evs as [|ev evs IH] using rev_ind; [simpl; lia|].
  unfold hook_run. rewrite foldl_app. simpl.
  by apply hook_step_count.
Qed.

(** X28. However the sockets of the client open, close and fail, and
    whenever connect and disconnect are called, between two openings of a
    socket the client schedules at most [reconnectAttempts] reconnections;
    a close that is clean schedules none. *)
Theorem reconnections_are_bounded (before evs : list HookEvent) (r : nat) :
  Forall (fun ev => ~ opens ev) evs ->
  let h := hook_run reconnectAttempts before Hook.initial in
  let h' := hook_run reconnectAttempts evs h in
  (Hook.nextTimer h' <= Hook.nextTimer h + reconnectAttempts)%nat
  /\ (Hook.reconnectCountRef h' <= reconnectAttempts)%nat
  /\ Hook.nextTimer (hook_step reconnectAttempts h (SocketCloses r true))
     = Hook.nextTimer h.
Proof.
  intros Hno h h'.
  pose proof (hook_reachable_count before) as Hle. fold h in Hle.
  destruct (hook_run_count evs h Hle Hno) as [Hle' Hrun]. fold h' in Hle', Hrun.
  split; [lia|]. split; [done|]. simpl.
  by destruct (Hook.sockets h !! r) as [[| | |]|].
Qed.

End UseWebSocketProperties.

Lemma reconnections_are_bounded_witness :
  (Hook.nextTimer
     (hook_run 1 [SocketCloses 0 false; TimerFires 0 true; SocketCloses 1 false;
                  CallConnect true; SocketCloses 2 false]
        (hook_run 1 [CallConnect true; SocketOpens 0] Hook.initial))
   <= Hook.nextTimer (hook_run 1 [CallConnect true; SocketOpens 0] Hook.initial)
      + 1)%nat.
Proof.
  apply (reconnections_are_bounded 1 [CallConnect true; SocketOpens 0]
           [SocketCloses 0 false; TimerFires 0 true; SocketCloses 1 false;
            CallConnect true; SocketCloses 2 false] 0).
  repeat (apply Forall_cons; split; [by intros []|]). by apply Forall_nil.
Defined.

(** * What the server never does *)

Section Keeps.
Context (I : World.t -> Prop).

Lemma keeps_ret {A} (a : A) : keeps I (ret a).
Proof. by intros w Hw. Qed.

Lemma keeps_throw {A} (e : string) : keeps I (@throw World.t A e).
Proof. by intros w Hw. Qed.

Lemma keeps_gets {A} (f : World.t -> A) : keeps I (gets f).
Proof. by intros w Hw. Qed.

Lemma keeps_bind {A B} (m : ST World.t A) (k : A -> ST World.t B) :
  keeps I m -> (forall a, keeps I (k a)) -> keeps I (bind m k).
Proof.
  intros Hm Hk w Hw. unfold bind. specialize (Hm w Hw).
  destruct (m w) as [[a|e] w']; [by apply Hk|done].
Qed.

Lemma keeps_try_catch {A} (m : ST World.t A) (h : string -> ST World.t A) :
  keeps I m -> (forall e, keeps I (h e)) -> keeps I (try_catch m h).
Proof.
  intros Hm Hh w Hw. unfold try_catch. specialize (Hm w Hw).
  destruct (m w) as [[a|e] w']; [done|by apply Hh].
Qed.

Lemma keeps_handler (m : ST World.t Response.t) : keeps I m -> keeps I (handler m).
Proof. intros Hm. apply keeps_try_catch; [done|]. intros e. apply keeps_ret. Qed.

Lemma keeps_for_of {A} (l : list A) (f : A -> ST World.t unit) :
  (forall x, keeps I (f x)) -> keeps I (for_of l f).
Proof.
  intros Hf. induction l as [|x l IH]; [apply keeps_ret|].
  simpl. apply keeps_bind; [apply Hf|]. by intros _.
Qed.

End Keeps.

(** ** The frames *)

Lemma frames_ok_insert s r W :
  frames_ok s ->
  Forall (fun f => StreamEvent.type f ∈ published_kinds) (WebSocket.sent W) ->
  frames_ok (set_sockets (insert r W) s).
Proof.
  intros Hs HW r' w'. simpl. destruct (decide (r = r')) as [<-|Hne].
  - rewrite lookup_insert_eq. by intros [= <-].
  - rewrite lookup_insert_ne by done. apply Hs.
Qed.

Lemma frames_ok_alter s r f :
  frames_ok s -> (forall w, WebSocket.sent (f w) = WebSocket.sent w) ->
  frames_ok (set_sockets (alter f r) s).
Proof.
  intros Hs Hf r' w'. simpl. destruct (decide (r = r')) as [<-|Hne].
  - rewrite lookup_alter_eq.
    destruct (StreamingService.sockets s !! r) as [w|] eqn:Hw; [|done].
    simpl. intros [= <-]. rewrite Hf. by eapply Hs.
  - rewrite lookup_alter_ne by done. apply Hs.
Qed.

Lemma frames_ok_same_sockets s s' :
  StreamingService.sockets s' = StreamingService.sockets s ->
  frames_ok s -> frames_ok s'.
Proof. intros Heq Hs r w. rewrite Heq. apply Hs. Qed.

(** A frame is offered to a socket, as [broadcast] and [sendToClient] do. *)
Lemma frames_ok_offer s r e :
  frames_ok s -> StreamEvent.type e ∈ published_kinds ->
  frames_ok (snd (bind (ws_get r) (fun w =>
    if decide (WebSocket.readyState w = OPEN)
    then ws_send r (JSON_stringify e) else ret tt) s)).
Proof.
  intros Hs He. unfold bind at 1, ws_get.
  destruct (StreamingService.sockets s !! r) as [w|] eqn:Hw; [|done].
  case_decide as Hopen; [|done].
  unfold ws_send, bind, ws_get. rewrite Hw, Hopen. simpl.
  apply frames_ok_insert; [done|]. simpl. apply Forall_app. split.
  - by eapply Hs.
  - by apply Forall_singleton.
Qed.

Lemma frames_ok_broadcast s sid e :
  frames_ok s -> StreamEvent.type e ∈ published_kinds ->
  frames_ok (snd (broadcast sid e s)).
Proof.
  intros Hs He. unfold broadcast. unfold bind at 1. unfold gets at 1.
  generalize (default [] (StreamingService.clients s !! sid)). intros cs.
  revert s Hs. induction cs as [|c cs IH]; intros s Hs; [done|].
  cbn [for_of]. unfold bind at 1.
  pose proof (frames_ok_offer s (WebSocketClient.ws c) e Hs He) as Hc.
  destruct (bind (ws_get (WebSocketClient.ws c)) _ s) as [[[]|err] s'];
    [by apply IH|done].
Qed.

Lemma frames_ok_ws_event now ev s :
  frames_ok s -> frames_ok (snd (ws_event now ev s)).
Proof.
  intros Hs. destruct ev as [qs qu|r message|r|r|r st].
  - rewrite on_connection_spec. intros r' w'. simpl.
    destruct (decide (StreamingService.nextSocket s = r')) as [<-|Hne].
    + rewrite lookup_insert_eq. intros [= <-]. simpl.
      apply Forall_singleton. by left.
    + rewrite lookup_insert_ne by done. apply Hs.
  - cbn [ws_event]. rewrite on_message_spec.
    destruct (StreamingService.sockets s !! r) as [w|] eqn:Hw; [|done].
    destruct (WebSocket.listeners w) as [[sid c]|]; [|done].
    destruct message as [[| |]|]; try done.
    apply frames_ok_offer; [done|]. by left.
  - cbn [ws_event]. rewrite on_close_spec.
    destruct (StreamingService.sockets s !! r) as [w|] eqn:Hw; [|done].
    cbn zeta. assert (frames_ok (set_sockets (alter (with_state CLOSED) r) s))
      as Hs1 by (by apply frames_ok_alter).
    destruct (WebSocket.listeners w) as [[sid c]|]; [|done].
    eapply frames_ok_same_sockets; [apply removeClient_sockets|done].
  - cbn [ws_event]. rewrite on_error_spec.
    destruct (StreamingService.sockets s !! r) as [w|] eqn:Hw; [|done].
    destruct (WebSocket.listeners w) as [[sid c]|]; [|done].
    eapply frames_ok_same_sockets; [apply removeClient_sockets|done].
  - cbn [ws_event]. rewrite ws_set_state_spec. by apply frames_ok_alter.
Qed.

Lemma keeps_frames_on_db {A} (m : ST Db.t A) : keeps world_frames_ok (on_db m).
Proof. intros w Hw. unfold world_frames_ok. by rewrite on_db_service. Qed.

Lemma keeps_frames_broadcast sid e :
  StreamEvent.type e ∈ published_kinds ->
  keeps world_frames_ok (on_streamingService (broadcast sid e)).
Proof.
  intros He w Hw. unfold world_frames_ok.
  rewrite on_streamingService_service. by apply frames_ok_broadcast.
Qed.

Lemma keeps_frames_modify (f : World.t -> World.t) :
  (forall w, World.streamingService (f w) = World.streamingService w) ->
  keeps world_frames_ok (modify f).
Proof. intros Hf w Hw. unfold world_frames_ok. simpl. by rewrite Hf. Qed.

Ltac kind_listed := unfold published_kinds; rewrite !elem_of_cons; tauto.

Ltac keeps_frames_step :=
  first
    [ apply keeps_handler
    | apply keeps_ret
    | apply keeps_throw
    | apply keeps_gets
    | apply keeps_frames_on_db
    | apply keeps_frames_broadcast; simpl; kind_listed
    | apply keeps_frames_modify; reflexivity
    | apply keeps_bind; [|intros ?]
    | apply keeps_for_of; intros ?
    | match goal with
      | |- keeps _ (match ?x with _ => _ end) => destruct x
      end ].

Lemma keeps_frames_run_loop env task len steps i :
  keeps world_frames_ok (run_loop env task len steps i).
Proof.
  revert i. induction steps as [|step steps IH]; intros i; [apply keeps_ret|].
  cbn [run_loop]. unfold sendTaskStep. repeat keeps_frames_step. apply IH.
Qed.

Lemma serve_keeps_frames env r body : keeps world_frames_ok (serve env r body).
Proof.
  destruct r; cbn [serve].
  - unfold get_current_session, getOrCreateDefaultSession.
    repeat keeps_frames_step.
  - unfold get_session. repeat keeps_frames_step.
  - unfold post_session. repeat keeps_frames_step.
  - unfold patch_session. repeat keeps_frames_step.
  - unfold post_session_stop, sendLogLine. repeat keeps_frames_step.
  - unfold get_messages. repeat keeps_frames_step.
  - unfold post_message, sendLogLine. repeat keeps_frames_step.
  - unfold get_tasks. repeat keeps_frames_step.
  - unfold get_task. repeat keeps_frames_step.
  - unfold post_task_run, sendTaskStart, sendTaskComplete.
    apply keeps_handler. apply keeps_bind; [apply keeps_frames_on_db|].
    intros [task|]; [|apply keeps_ret].
    apply keeps_bind; [apply keeps_frames_on_db|]. intros updated.
    apply keeps_bind; [apply keeps_frames_broadcast; simpl; kind_listed|].
    intros _. cbn zeta.
    apply keeps_bind; [apply keeps_frames_run_loop|]. intros _.
    repeat keeps_frames_step.
  - unfold post_task_cancel, sendLogLine. repeat keeps_frames_step.
  - unfold post_repository, sendLogLine. repeat keeps_frames_step.
  - unfold get_approvals. repeat keeps_frames_step.
  - unfold post_approval_resolve, sendApprovalResolved. repeat keeps_frames_step.
  - apply keeps_ret.
Qed.

Lemma reachable_ind (P : World.t -> Prop) :
  P World.empty ->
  (forall w ev, reachable w -> P w -> P (world_step w ev)) ->
  forall w, reachable w -> P w.
Proof.
  intros H0 Hstep w [evs ->].
  induction evs as [|ev evs IH] using rev_ind; [exact H0|].
  unfold world_run. rewrite foldl_app. simpl.
  apply Hstep; [by exists evs|exact IH].
Qed.

Lemma dispatch_keeps (P : World.t -> Prop) env req w :
  (forall r body, keeps P (serve env r body)) ->
  P w -> P (snd (dispatch env req w)).
Proof.
  intros Hserve Hw. unfold dispatch. destruct (match_route _ _) as [r|]; [|done].
  pose proof (Hserve r (Request.body req) w Hw) as H.
  by destruct (serve env r (Request.body req) w) as [[res|e] w'].
Qed.

(** X29. Whatever requests are served and whatever happens on the sockets,
    every frame that the server hands to a socket carries an event of one
    of six types: the other types of the schema, among them the request
    for an approval, the output of a process and the failure of a task,
    are never sent. *)
Theorem only_six_kinds_of_events_are_sent (w : World.t) (r : nat)
  (frame : Frame) :
  reachable w ->
  frame ∈ sent_to (World.streamingService w) r ->
  StreamEvent.type frame ∈ published_kinds
  /\ StreamEvent.type frame <> approval_required
  /\ StreamEvent.type frame <> task_error
  /\ StreamEvent.type frame <> stdout
  /\ StreamEvent.type frame <> stderr
  /\ StreamEvent.type frame <> session_end.
Proof.
  intros Hreach Hin.
  assert (Hok : world_frames_ok w).
  { clear Hin. revert w Hreach. apply reachable_ind; [done|].
    intros w [env req|now ev] _ Hw; simpl.
    - apply dispatch_keeps; [|done]. intros r' body. apply serve_keeps_frames.
    - unfold world_frames_ok. rewrite on_streamingService_service.
      by apply frames_ok_ws_event. }
  unfold sent_to in Hin.
  destruct (StreamingService.sockets (World.streamingService w) !! r)
    as [ws|] eqn:Hws; [|by apply elem_of_nil in Hin].
  pose proof (Hok r ws Hws) as Hall. rewrite Forall_forall in Hall.
  specialize (Hall _ Hin). split; [done|].
  repeat split; intros Heq; rewrite Heq in Hall; revert Hall;
    apply (bool_decide_unpack _); by vm_compute.
Qed.

Lemma only_six_kinds_of_events_are_sent_witness :
  exists frame,
    frame ∈ sent_to (World.streamingService world_chat) 0%nat
    /\ StreamEvent.type frame = log_line
    /\ StreamEvent.type frame <> approval_required.
Proof.
  assert (Hreach : reachable world_chat) by (by exists chat_events).
  assert (Hin : received_event env20 "u0" "hi"
                ∈ sent_to (World.streamingService world_chat) 0%nat)
    by (vm_compute; apply elem_of_list_here || (right; left)).
  exists (received_event env20 "u0" "hi"). split; [exact Hin|].
  split; [reflexivity|].
  apply (only_six_kinds_of_events_are_sent world_chat 0%nat _ Hreach Hin).
Defined.

(** ** The approvals *)

Lemma keeps_approvals_on_db {A} (m : ST Db.t A) :
  (forall d, Db.approvals d = ∅ -> Db.approvals (snd (m d)) = ∅) ->
  keeps no_approvals (on_db m).
Proof.
  intros Hm w Hw. unfold no_approvals, on_db in *. specialize (Hm _ Hw).
  by destruct (m (World.db w)).
Qed.

Lemma keeps_approvals_service {A} (m : ST StreamingService.t A) :
  keeps no_approvals (on_streamingService m).
Proof.
  intros w Hw. unfold no_approvals, on_streamingService in *.
  by destruct (m (World.streamingService w)).
Qed.

Lemma keeps_approvals_modify (f : World.t -> World.t) :
  (forall w, World.db (f w) = World.db w) -> keeps no_approvals (modify f).
Proof. intros Hf w Hw. unfold no_approvals. simpl. by rewrite Hf. Qed.

(** A storage call that leaves an empty table of approvals empty. *)
Ltac approvals_empty :=
  let Hd := fresh "Hd" in
  intros ? Hd;
  unfold getSession, createSession, updateSession, getTask, getTasksBySession,
    createTask, updateTask, getMessagesBySession, createMessage, getApproval,
    getPendingApprovals, resolveApproval, bind, gets, modify, throw, ret;
  simpl; repeat case_match; simpl; rewrite ?Hd, ?alter_empty; reflexivity.

Ltac keeps_approvals_step :=
  first
    [ apply keeps_handler
    | apply keeps_ret
    | apply keeps_throw
    | apply keeps_gets
    | apply keeps_approvals_service
    | apply keeps_approvals_modify; reflexivity
    | apply keeps_approvals_on_db; approvals_empty
    | apply keeps_bind; [|intros ?]
    | apply keeps_for_of; intros ?
    | match goal with
      | |- keeps _ (match ?x with _ => _ end) => destruct x
      end ].

Lemma keeps_approvals_run_loop env task len steps i :
  keeps no_approvals (run_loop env task len steps i).
Proof.
  revert i. induction steps as [|step steps IH]; intros i; [apply keeps_ret|].
  cbn [run_loop]. repeat keeps_approvals_step. apply IH.
Qed.

Lemma serve_keeps_approvals env r body : keeps no_approvals (serve env r body).
Proof.
  destruct r; cbn [serve].
  - unfold get_current_session, getOrCreateDefaultSession.
    repeat keeps_approvals_step.
  - unfold get_session. repeat keeps_approvals_step.
  - unfold post_session. repeat keeps_approvals_step.
  - unfold patch_session. repeat keeps_approvals_step.
  - unfold post_session_stop. repeat keeps_approvals_step.
  - unfold get_messages. repeat keeps_approvals_step.
  - unfold post_message. repeat keeps_approvals_step.
  - unfold get_tasks. repeat keeps_approvals_step.
  - unfold get_task. repeat keeps_approvals_step.
  - unfold post_task_run.
    apply keeps_handler. apply keeps_bind;
      [apply keeps_approvals_on_db; approvals_empty|].
    intros [task|]; [|apply keeps_ret].
    apply keeps_bind; [apply keeps_approvals_on_db; approvals_empty|].
    intros updated. apply keeps_bind; [apply keeps_approvals_service|].
    intros _. cbn zeta.
    apply keeps_bind; [apply keeps_approvals_run_loop|]. intros _.
    repeat keeps_approvals_step.
  - unfold post_task_cancel. repeat keeps_approvals_step.
  - unfold post_repository. repeat keeps_approvals_step.
  - unfold get_approvals. repeat keeps_approvals_step.
  - unfold post_approval_resolve. repeat keeps_approvals_step.
  - apply keeps_ret.
Qed.

(** X30. No request that the routes serve and no event of the sockets ever
    stores an approval: in every state that the server reaches from an
    empty database the table of approvals is empty, the approvals route
    lists nothing for any session, and every resolve request is answered
    404. *)
Theorem no_approval_is_ever_created (w : World.t) :
  reachable w ->
  Db.approvals (World.db w) = ∅
  /\ (forall sid,
        get_approvals sid w = (Ok (Response.mk 200 (JsonApprovals [])), w))
  /\ (forall env id body,
        post_approval_resolve env id body w
        = (Ok (Response.mk 404 (JsonError "Approval not found")), w)).
Proof.
  intros Hreach.
  assert (Hnone : no_approvals w).
  { revert w Hreach. apply reachable_ind; [done|].
    intros w [env req|now ev] _ Hw; simpl.
    - apply dispatch_keeps; [|done]. intros r' body. apply serve_keeps_approvals.
    - by apply keeps_approvals_service. }
  unfold no_approvals in Hnone. split; [done|]. split.
  - intros sid. unfold get_approvals, handler, try_catch, bind, on_db,
      getPendingApprovals, gets, ret. destruct w as [d s ds]. simpl in *.
    rewrite Hnone. unfold rows. by rewrite map_to_list_empty.
  - intros env id body. apply post_approval_resolve_none.
    unfold approval_of. by rewrite Hnone.
Qed.

Lemma no_approval_is_ever_created_witness :
  get_approvals "u0" world_chat
  = (Ok (Response.mk 200 (JsonApprovals [])), world_chat).
Proof.
  apply (no_approval_is_ever_created world_chat). by exists chat_events.
Defined.

